(** * Solution provisioning: environment merge, installer and progress gateway

  A shallow embedding of

    - [src/nodejs/src/services/solutionInstall.js]
    - [src/nodejs/src/controller/web/solutionInstallProgressController.js]
    - the catalog [config/solutionconfig] (the file that exports
      [SOLUTION_CONFIGS])

  followed by the properties of the provisioning specification, each
  settled against the embedding.

  Conventions of the embedding.

  - A JavaScript string is a [string]; a character of the model is a
    UTF-16 code unit below 256.
  - A plain JavaScript object whose values are strings is the list of its
    own properties in the order [Object.keys] reports them.  Every such
    object inherits from [Object.prototype]; the inherited names are kept in
    [object_prototype_names], because the [in] operator and a computed
    member access look through the prototype chain.
  - The host is explicit state: the regular files and the directories of
    the file system, the commands handed to [sh -c], the calls of the
    environment merger and the events written to the response stream.  A
    path is a key: two spellings of one path are two keys, and symbolic
    links are not represented.  A rejected promise or a thrown [Error] is
    the [Throw] outcome, carrying the error's message. *)

From Stdlib Require Import String Ascii List Bool Arith ZArith NArith Lia.
Import ListNotations.

Local Open Scope string_scope.
Local Open Scope list_scope.

(* ------------------------------------------------------------------------ *)
(** ** JavaScript strings *)

Module JsString.

(** [WhiteSpace] and [LineTerminator] code units below 256: TAB, LF, VT, FF,
    CR, SP and NBSP.  These are what [String.prototype.trim] strips. *)
Definition is_ws (c : ascii) : bool :=
  let n := nat_of_ascii c in
  ((9 <=? n)%nat && (n <=? 13)%nat) || (n =? 32)%nat || (n =? 160)%nat.

Fixpoint trimStart (s : string) : string :=
  match s with
  | EmptyString => EmptyString
  | String c s' => if is_ws c then trimStart s' else s
  end.

Fixpoint trimEnd (s : string) : string :=
  match s with
  | EmptyString => EmptyString
  | String c s' =>
      match trimEnd s' with
      | EmptyString => if is_ws c then EmptyString else String c EmptyString
      | t => String c t
      end
  end.

(** [s.trim()] *)
Definition trim (s : string) : string := trimEnd (trimStart s).

(** [s.startsWith(c)] for a one-character argument. *)
Definition startsWith (c : ascii) (s : string) : bool :=
  match s with
  | String a _ => Ascii.eqb a c
  | EmptyString => false
  end.

(** [s.indexOf(c)] for a one-character argument; [-1] when absent. *)
Fixpoint indexOf (c : ascii) (s : string) : Z :=
  match s with
  | EmptyString => (-1)%Z
  | String a s' =>
      if Ascii.eqb a c then 0%Z
      else let i := indexOf c s' in if (i <? 0)%Z then (-1)%Z else (i + 1)%Z
  end.

Fixpoint take (n : nat) (s : string) : string :=
  match n, s with
  | S n', String a s' => String a (take n' s')
  | _, _ => EmptyString
  end.

Fixpoint drop (n : nat) (s : string) : string :=
  match n, s with
  | S n', String _ s' => drop n' s'
  | _, _ => s
  end.

Definition clamp (len : nat) (i : Z) : nat :=
  Nat.min len (Z.to_nat i).

(** [s.substring(a, b)]: both ends clamped to [0, length], swapped when
    [a > b]. *)
Definition substring (s : string) (a b : Z) : string :=
  let len := String.length s in
  let a' := clamp len a in
  let b' := clamp len b in
  let lo := Nat.min a' b' in
  let hi := Nat.max a' b' in
  take (hi - lo) (drop lo s).

(** [s.substring(a)] *)
Definition substring_from (s : string) (a : Z) : string :=
  substring s a (Z.of_nat (String.length s)).

(** [prefix p s]: [s.startsWith(p)]. *)
Fixpoint prefix (p s : string) : bool :=
  match p, s with
  | EmptyString, _ => true
  | String a p', String b s' => Ascii.eqb a b && prefix p' s'
  | String _ _, EmptyString => false
  end.

(** [s.includes(p)] *)
Fixpoint includes (p s : string) : bool :=
  prefix p s ||
  match s with
  | EmptyString => false
  | String _ s' => includes p s'
  end.

(** [s.split(c)] for a one-character separator: always at least one
    piece. *)
Fixpoint split (c : ascii) (s : string) : list string :=
  match s with
  | EmptyString => [EmptyString]
  | String a s' =>
      if Ascii.eqb a c then EmptyString :: split c s'
      else match split c s' with
           | h :: t => String a h :: t
           | [] => [String a EmptyString]
           end
  end.

(** [pieces.join(sep)] *)
Fixpoint join (sep : string) (l : list string) : string :=
  match l with
  | [] => EmptyString
  | [x] => x
  | x :: rest => (x ++ sep ++ join sep rest)%string
  end.

Definition LF : ascii := ascii_of_nat 10.
Definition CR : ascii := ascii_of_nat 13.

(** Removes one trailing carriage return. *)
Fixpoint chop_cr (s : string) : string :=
  match s with
  | EmptyString => EmptyString
  | String c EmptyString => if Ascii.eqb c CR then EmptyString else s
  | String c s' => String c (chop_cr s')
  end.

(** Every piece but the last was cut at a line feed; the optional carriage
    return in front of that line feed belongs to the separator. *)
Fixpoint chop_all_but_last (l : list string) : list string :=
  match l with
  | [] => []
  | [x] => [x]
  | x :: rest => chop_cr x :: chop_all_but_last rest
  end.

(** [s.split(/\r?\n/)] *)
Definition splitLines (s : string) : list string :=
  chop_all_but_last (split LF s).

End JsString.

(* ------------------------------------------------------------------------ *)
(** ** Plain objects with string values *)

Module JsObject.

(** Own properties, in [OrdinaryOwnPropertyKeys] order: array-index keys in
    ascending numeric order, then the other keys in creation order. *)
Definition obj : Type := list (string * string).

(** The property names every plain object inherits from
    [Object.prototype]. *)
Definition object_prototype_names : list string :=
  [ "constructor"; "__defineGetter__"; "__defineSetter__"; "hasOwnProperty";
    "__lookupGetter__"; "__lookupSetter__"; "isPrototypeOf";
    "propertyIsEnumerable"; "toString"; "valueOf"; "__proto__";
    "toLocaleString" ].

Definition inherited (k : string) : bool :=
  existsb (String.eqb k) object_prototype_names.

(** The own string value under [k], if any. *)
Fixpoint get (k : string) (o : obj) : option string :=
  match o with
  | [] => None
  | (k', v) :: o' => if String.eqb k' k then Some v else get k o'
  end.

Definition hasOwn (k : string) (o : obj) : bool :=
  match get k o with Some _ => true | None => false end.

(** [k in o] *)
Definition has (k : string) (o : obj) : bool :=
  hasOwn k o || inherited k.

(** [Object.keys(o)] *)
Definition keys (o : obj) : list string := map fst o.

Definition is_digit (c : ascii) : bool :=
  let n := nat_of_ascii c in (48 <=? n)%nat && (n <=? 57)%nat.

Fixpoint digits_value (acc : N) (s : string) : option N :=
  match s with
  | EmptyString => Some acc
  | String c s' =>
      if is_digit c
      then digits_value (acc * 10 + N.of_nat (nat_of_ascii c - 48)) s'
      else None
  end.

(** [Some n] when [k] is the canonical decimal form of an array index
    [n <= 2^32 - 2]. *)
Definition array_index (k : string) : option N :=
  match k with
  | EmptyString => None
  | String c rest =>
      if Ascii.eqb c "0" && negb (String.eqb rest EmptyString) then None
      else match digits_value 0 k with
           | Some n => if (n <=? 4294967294)%N then Some n else None
           | None => None
           end
  end.

(** Does the existing key [k'] come after a new array-index key [n]? *)
Definition after_index (n : N) (k' : string) : bool :=
  match array_index k' with
  | Some m => (n <? m)%N
  | None => true
  end.

Fixpoint insert_index (n : N) (k v : string) (o : obj) : obj :=
  match o with
  | [] => [(k, v)]
  | (k', v') :: o' =>
      if after_index n k' then (k, v) :: o
      else (k', v') :: insert_index n k v o'
  end.

Fixpoint replace (k v : string) (o : obj) : obj :=
  match o with
  | [] => []
  | (k', v') :: o' =>
      if String.eqb k' k then (k', v) :: o'
      else (k', v') :: replace k v o'
  end.

(** [o[k] = v] for a key that is own or not inherited. *)
Definition set (k v : string) (o : obj) : obj :=
  if hasOwn k o then replace k v o
  else match array_index k with
       | Some n => insert_index n k v o
       | None => o ++ [(k, v)]
       end.

End JsObject.

(* ------------------------------------------------------------------------ *)
(** ** The environment merger: [parseEnvFile] and the merge loop of
     [mergeEnvironmentFiles] *)

Module EnvMerge.
Import JsString JsObject.

Definition NL : string := String LF EmptyString.

(** [line && !line.startsWith('#') && line.includes('=')] *)
Definition keepLine (line : string) : bool :=
  negb (String.eqb line "") && negb (startsWith "#" line) && includes "=" line.

(** [line.substring(0, idx).trim()] with [idx = line.indexOf('=')] *)
Definition lineKey (line : string) : string :=
  trim (substring line 0 (indexOf "=" line)).

(** [line.substring(idx + 1).trim()] *)
Definition lineValue (line : string) : string :=
  trim (substring_from line (indexOf "=" line + 1)).

(** [acc[key] === '']: only an own string value can be the empty string,
    an inherited member is a function or an object. *)
Definition isEmptyAt (key : string) (acc : obj) : bool :=
  match get key acc with
  | Some v => String.eqb v ""
  | None => false
  end.

(** One step of the [reduce] over the kept lines. *)
Definition assign (acc : obj) (key value : string) : obj :=
  if negb (has key acc) || (isEmptyAt key acc && negb (String.eqb value ""))
  then set key value acc
  else acc.

Definition reducer (acc : obj) (line : string) : obj :=
  assign acc (lineKey line) (lineValue line).

(** The lines that reach the [reduce]. *)
Definition keptLines (content : string) : list string :=
  filter keepLine (map trim (splitLines content)).

(** [parseEnvFile] on the text of an existing file. *)
Definition parseEnvText (content : string) : obj :=
  fold_left reducer (keptLines content) [].

(** A string operand of [&&] or [||]: [undefined] and [''] are falsy. *)
Definition truthy (v : option string) : bool :=
  match v with
  | Some s => negb (String.eqb s "")
  | None => false
  end.

(** [v && v.trim() !== ''] *)
Definition nonBlank (v : option string) : bool :=
  match v with
  | Some s => negb (String.eqb s "") && negb (String.eqb (trim s) "")
  | None => false
  end.

(** The string a defined value is; used where the value was just tested. *)
Definition text (v : option string) : string :=
  match v with
  | Some s => s
  | None => ""
  end.

(** [localVal || rootVal || ''] *)
Definition firstTruthy (localVal rootVal : option string) : string :=
  if truthy localVal then text localVal
  else if truthy rootVal then text rootVal
  else "".

(** The value the [forEach] body stores under [key].  [localVars[key]] and
    [rootVars[key]] are own lookups here: [key] ranges over
    [Object.keys(localVars)], and an object built by [parseEnvFile] never
    owns a name of [object_prototype_names] (lemma
    [parse_keys_not_inherited]). *)
Definition mergedValue (rootVars localVars : obj) (key : string) : string :=
  let localVal := get key localVars in
  let rootVal := get key rootVars in
  if nonBlank localVal then text localVal
  else if nonBlank rootVal then text rootVal
  else firstTruthy localVal rootVal.

(** [const mergedVars = { ...rootVars }; Object.keys(localVars).forEach(...)] *)
Definition mergeVars (rootVars localVars : obj) : obj :=
  fold_left (fun mergedVars key => set key (mergedValue rootVars localVars key) mergedVars)
            (keys localVars) rootVars.

(** [Object.entries(mergedVars).map(([key, value]) => `${key}=${value}`).join('\n')] *)
Definition envContent (mergedVars : obj) : string :=
  join NL (map (fun kv => (fst kv ++ "=" ++ snd kv)%string) mergedVars).

End EnvMerge.

(* ------------------------------------------------------------------------ *)
(** ** Paths and the file system *)

Module Path.
Import JsString.

(** Cuts a path at its last slash: the directory part (when there is a
    slash) and the last component. *)
Fixpoint split_last (p : string) : option string * string :=
  match p with
  | EmptyString => (None, EmptyString)
  | String c rest =>
      match split_last rest with
      | (Some d, b) => (Some (String c d), b)
      | (None, b) =>
          if Ascii.eqb c "/" then (Some EmptyString, b)
          else (None, String c b)
      end
  end.

Definition basename (p : string) : string := snd (split_last p).

(** [child dir name]: the path written [`${dir}/${name}`] in the source,
    also what [path.join(dir, name)] gives for a plain name. *)
Definition child (dir name : string) : string := (dir ++ "/" ++ name)%string.

(** [q] lies somewhere below the directory [dir]. *)
Definition under (dir q : string) : bool := prefix (dir ++ "/")%string q.

(** The part of [q] after [`${dir}/`]. *)
Definition relative (dir q : string) : string :=
  drop (S (String.length dir)) q.

(** The directory part of a path, when it has one. *)
Definition dirname (p : string) : option string := fst (split_last p).

End Path.

Module Fs.
Import Path.

(** What sits at a path: a regular file with its text, or a directory. *)
Inductive node : Type :=
| File (content : string)
| Dir.

(** The file system: the node at each path, if any. *)
Definition tree : Type := string -> option node.

Definition empty : tree := fun _ => None.

(** The text of the regular file at [p]. *)
Definition read (t : tree) (p : string) : option string :=
  match t p with
  | Some (File content) => Some content
  | _ => None
  end.

Definition is_file (t : tree) (p : string) : bool :=
  match t p with
  | Some (File _) => true
  | _ => false
  end.

Definition is_dir (t : tree) (p : string) : bool :=
  match t p with
  | Some Dir => true
  | _ => false
  end.

(** The directory part of [p] is a directory: what creating [p] needs.  A
    path without a slash is created in the working directory of the
    process, and [/name] in the root directory; both exist. *)
Definition parent_is_dir (t : tree) (p : string) : bool :=
  match split_last p with
  | (Some d, _) => String.eqb d "" || is_dir t d
  | (None, _) => true
  end.

(** Two paths with the same directory part. *)
Definition same_dir (a b : string) : bool :=
  match dirname a, dirname b with
  | Some d1, Some d2 => String.eqb d1 d2
  | None, None => true
  | _, _ => false
  end.

Definition write (t : tree) (p content : string) : tree :=
  fun q => if String.eqb q p then Some (File content) else t q.

Definition remove (t : tree) (p : string) : tree :=
  fun q => if String.eqb q p then None else t q.

(** [rm -rf p] *)
Definition remove_tree (t : tree) (p : string) : tree :=
  fun q => if String.eqb q p || under p q then None else t q.

(** A clone to [dir]: [dir] and the directories leading to it are
    directories, and below [dir] lies the tree [remote] (relative
    paths). *)
Definition checkout (t : tree) (dir : string) (remote : string -> option node) : tree :=
  fun q =>
    if String.eqb q dir || under q dir then Some Dir
    else if under dir q then remote (relative dir q)
    else t q.

(** [find] meets [src] when it starts at [repoPath]: the starting point
    itself or a path below it. *)
Definition reached (repoPath src : string) : bool :=
  String.eqb src repoPath || under repoPath src.

(** [find ${repoPath} -name "${envFile}" -exec sh -c 'cp "$1" "$(dirname "$1")/.env"' _ {} \;]
    Every regular file that [find] meets and whose last component is
    [envFile] is handed to [cp] with [.env] in its own directory as the
    destination; the name is matched literally.  [cp] overwrites a regular
    [.env] and creates a missing one; when [.env] is a directory the copy
    lands inside it, under the name of the template.  [cp] refuses a
    directory as its source, it never replaces a directory by a file, and
    it refuses to copy [.env] onto itself, so nothing changes when
    [envFile] is [.env].  The copies are made from the files as they were
    when [find] started. *)
Definition materialize (t : tree) (repoPath envFile : string) : tree :=
  fun q =>
    if is_dir t q then t q
    else
      match split_last q with
      | (Some d, b) =>
          if String.eqb b ".env" then
            let src := child d envFile in
            if reached repoPath src && String.eqb (basename src) envFile
               && negb (String.eqb envFile ".env")
            then match read t src with
                 | Some content => Some (File content)
                 | None => t q
                 end
            else t q
          else if String.eqb b envFile then
            match split_last d with
            | (Some d', b') =>
                let src := child d' envFile in
                if String.eqb b' ".env" && is_dir t d && reached repoPath src
                   && String.eqb (basename src) envFile
                then match read t src with
                     | Some content => Some (File content)
                     | None => t q
                     end
                else t q
            | (None, _) => t q
            end
          else t q
      | (None, _) => t q
      end.

End Fs.

(* ------------------------------------------------------------------------ *)
(** ** Shell commands *)

Module Shell.

(** The command lines the installer hands to [runCommand], one constructor
    per template literal of the source. *)
Inductive command : Type :=
| RmRf (path : string)
| GitClone (branchName repoUrl path : string)
| DockerRmForce (containerName : string)
| StopPublished (port : string)
| MaterializeEnv (repoPath envFile : string)
| Cp (src dst : string)
| DockerBuild (imageName repoPath : string)
| DockerRun (containerName networkName port imageName : string)
| RmF (path : string)
| ComposeVersionV1
| ComposeVersionV2
| InstallCompose
| ComposeUp (repoPath : string).

Definition DQ : string := String (ascii_of_nat 34) EmptyString.
Definition BS : string := String (ascii_of_nat 92) EmptyString.

(** The text of the command line. *)
Definition render (c : command) : string :=
  (match c with
   | RmRf p => "rm -rf " ++ p
   | GitClone b u p => "git clone -b " ++ b ++ " " ++ u ++ " " ++ p
   | DockerRmForce n => "docker rm -f " ++ n ++ " || true"
   | StopPublished port =>
       "docker ps -q --filter " ++ DQ ++ "publish=" ++ port ++ DQ
       ++ " | xargs -r docker stop || true"
   | MaterializeEnv r e =>
       "find " ++ r ++ " -name " ++ DQ ++ e ++ DQ ++ " -exec sh -c 'cp "
       ++ DQ ++ "$1" ++ DQ ++ " " ++ DQ ++ "$(dirname " ++ DQ ++ "$1" ++ DQ
       ++ ")/.env" ++ DQ ++ "' _ {} " ++ BS ++ ";"
   | Cp a b => "cp " ++ a ++ " " ++ b
   | DockerBuild i r => "docker build -t " ++ i ++ " " ++ r
   | DockerRun n net p i =>
       "docker run -d --name " ++ n ++ " --network " ++ net ++ " -p " ++ p
       ++ ":" ++ p ++ " " ++ i
   | RmF p => "rm -f " ++ p
   | ComposeVersionV1 => "docker-compose --version"
   | ComposeVersionV2 => "docker compose version"
   | InstallCompose =>
       "wget -O /usr/local/bin/docker-compose " ++ DQ
       ++ "https://github.com/docker/compose/releases/download/v2.20.2/docker-compose-$(uname -s)-$(uname -m)"
       ++ DQ ++ " && chmod +x /usr/local/bin/docker-compose"
   | ComposeUp r => "cd " ++ r ++ " && docker-compose up -d --build"
   end)%string.

(** How a spawned [sh -c] ends: the [close] event with its exit code, or
    the [error] event. *)
Inductive proc : Type :=
| Closed (code : Z)
| SpawnError (message : string).

(** What an attempt did, in order: a command handed to the shell, or a call
    of [mergeEnvironmentFiles]. *)
Inductive action : Type :=
| Ran (c : command)
| Merged (rootEnvPath localEnvPath outputPath : string).

Definition is_merge (a : action) : bool :=
  match a with Merged _ _ _ => true | Ran _ => false end.

Definition ran (p : command -> bool) (a : action) : bool :=
  match a with Ran c => p c | Merged _ _ _ => false end.

End Shell.

(* ------------------------------------------------------------------------ *)
(** ** The host and the monad of the installer *)

Module Host.
Import Shell.

(** An event written to the response stream:
    [res.write(`data: ${JSON.stringify({ type, message })}\n\n`)]. *)
Record event : Type := { type : string; message : string }.

Record world : Type := {
  disk : Fs.tree;
  (** how the external programs (git, docker, docker-compose, wget) end,
      given what the attempt did so far *)
  tools : list action -> command -> proc;
  (** the tree of a remote repository at a branch, by relative path *)
  remote : string -> string -> string -> option Fs.node;
  (** what a download of the composition tool leaves at its output path,
      given what the attempt did so far: [None] when [wget] could not open
      the path, otherwise the bytes it wrote before it ended *)
  fetched : list action -> option string;
  trace : list action;
  (** the response stream: the events written and whether [res.end()]
      was called *)
  events : list event;
  ended : bool
}.

Definition with_disk (t : Fs.tree) (w : world) : world :=
  {| disk := t; tools := tools w; remote := remote w; fetched := fetched w;
     trace := trace w; events := events w; ended := ended w |}.

Definition logged (a : action) (w : world) : world :=
  {| disk := disk w; tools := tools w; remote := remote w; fetched := fetched w;
     trace := trace w ++ [a]; events := events w; ended := ended w |}.

Definition emitted (e : event) (w : world) : world :=
  {| disk := disk w; tools := tools w; remote := remote w; fetched := fetched w;
     trace := trace w; events := events w ++ [e]; ended := ended w |}.

Definition closed (w : world) : world :=
  {| disk := disk w; tools := tools w; remote := remote w; fetched := fetched w;
     trace := trace w; events := events w; ended := true |}.

(** The regular files of the host and their text. *)
Definition files (w : world) : string -> option string := Fs.read (disk w).

(** What [fs.statSync] would say of a path. *)
Definition isFile (w : world) (p : string) : bool := Fs.is_file (disk w) p.

Definition isDirectory (w : world) (p : string) : bool := Fs.is_dir (disk w) p.

(** [fs.existsSync(p)] as a function of the host: true of a regular file
    and of a directory. *)
Definition present (w : world) (p : string) : bool :=
  match disk w p with
  | Some _ => true
  | None => false
  end.

Definition parentIsDirectory (w : world) (p : string) : bool :=
  Fs.parent_is_dir (disk w) p.

(** A computation returns a value or throws an [Error] with a message. *)
Inductive outcome (A : Type) : Type :=
| Ret (a : A)
| Throw (message : string).
Arguments Ret {A} a.
Arguments Throw {A} message.

Definition M (A : Type) : Type := world -> outcome A * world.

Definition ret {A} (a : A) : M A := fun w => (Ret a, w).

Definition throw {A} (message : string) : M A := fun w => (Throw message, w).

Definition bind {A B} (m : M A) (k : A -> M B) : M B :=
  fun w =>
    match m w with
    | (Ret a, w') => k a w'
    | (Throw e, w') => (Throw e, w')
    end.

(** [try { m } catch (error) { handler(error) }] *)
Definition try_catch {A} (m : M A) (handler : string -> M A) : M A :=
  fun w =>
    match m w with
    | (Ret a, w') => (Ret a, w')
    | (Throw e, w') => handler e w'
    end.

Definition modify (f : world -> world) : M unit := fun w => (Ret tt, f w).

Definition gets {A} (f : world -> A) : M A := fun w => (Ret (f w), w).

(** [for (const x of xs) { body(x) }] *)
Fixpoint for_each {A} (xs : list A) (body : A -> M unit) : M unit :=
  match xs with
  | [] => ret tt
  | x :: rest => bind (body x) (fun _ => for_each rest body)
  end.

End Host.

Declare Scope js_scope.
Delimit Scope js_scope with js.
Notation "x <- c1 ;; c2" := (Host.bind c1 (fun x => c2))
(at level 61, c1 at next level, right associativity) : js_scope.
Notation "c1 ;; c2" := (Host.bind c1 (fun _ => c2))
(at level 61, right associativity) : js_scope.

(* ------------------------------------------------------------------------ *)
(** ** The catalog, [config/solutionconfig] *)

Module Catalog.

(** One entry of [SOLUTION_CONFIGS].  A member the object does not have
    reads as [undefined], here [None]. *)
Record config : Type := {
  repoUrl : option string;
  repoName : option string;
  imageName : option string;
  containerName : option string;
  port : option string;
  branchName : option string;
  installType : option string;
  envFile : option string;
  additionalPorts : option (list string)
}.

Definition SOLUTION_CONFIGS : list (string * config) :=
  [ ("ai-doc-editor",
     {| repoUrl := Some "https://github.com/devweam-ai/ai-doc-editor.git";
        repoName := Some "ai-doc-editor";
        imageName := Some "ai-doc-editor-img";
        containerName := Some "ai-doc-editor-container";
        port := Some "3002";
        branchName := Some "main";
        installType := Some "docker-compose";
        envFile := Some "env.example";
        additionalPorts := None |});
    ("ai-recruiter",
     {| repoUrl := Some "https://github.com/devweam-ai/foloup.git";
        repoName := Some "foloup";
        imageName := Some "foloup-img";
        containerName := Some "foloup-container";
        port := Some "4000";
        branchName := Some "main";
        installType := Some "docker-compose";
        envFile := Some ".env.example";
        additionalPorts := Some [] |});
    ("ai-landing-page-generator",
     {| repoUrl := Some "https://github.com/devweam-ai/landing-page-content-generator.git";
        repoName := Some "landing-page-content-generator";
        imageName := Some "landing-page-content-generator-img";
        containerName := Some "landing-page-content-generator-container";
        port := Some "4001";
        branchName := Some "devops";
        installType := Some "docker-compose";
        envFile := Some "example.env";
        additionalPorts := Some [] |});
    ("seo-content-gen",
     {| repoUrl := Some "https://github.com/devweam-ai/seo-content-gen.git";
        repoName := Some "seo-content-gen";
        imageName := Some "seo-content-gen-img";
        containerName := Some "seo-content-gen-container";
        port := Some "3001";
        branchName := Some "devops";
        installType := Some "docker-compose";
        envFile := Some ".env.example";
        additionalPorts := Some ["3001"; "9002"; "3003"] |}) ].

(** The own entry under a key of the catalog. *)
Fixpoint own (k : string) (l : list (string * config)) : option config :=
  match l with
  | [] => None
  | (k', c) :: rest => if String.eqb k' k then Some c else own k rest
  end.

(** A member inherited from [Object.prototype] (a function, or the
    prototype itself for [__proto__]): it is truthy and has none of the
    members of an entry. *)
Definition inheritedMember : config :=
  {| repoUrl := None; repoName := None; imageName := None;
     containerName := None; port := None; branchName := None;
     installType := None; envFile := None; additionalPorts := None |}.

(** [SOLUTION_CONFIGS[solutionType]]: [None] is [undefined]. *)
Definition lookup (solutionType : string) : option config :=
  match own solutionType SOLUTION_CONFIGS with
  | Some c => Some c
  | None =>
      if JsObject.inherited solutionType then Some inheritedMember else None
  end.

(** [v === s] for a string literal [s] *)
Definition strictEq (v : option string) (s : string) : bool :=
  match v with
  | Some t => String.eqb t s
  | None => false
  end.

(** [`${v}`] *)
Definition interp (v : option string) : string :=
  match v with
  | Some s => s
  | None => "undefined"
  end.

End Catalog.

(* ------------------------------------------------------------------------ *)
(** ** [services/solutionInstall.js] *)

Module SolutionInstall.
Import JsString JsObject EnvMerge Path Shell Host Catalog.
Local Open Scope js_scope.

(** The output path of the download in [installDockerCompose]. *)
Definition composeToolPath : string := "/usr/local/bin/docker-compose".

(** [cp src dst] for a regular file [src] with text [content]: into [dst]
    when [dst] is a directory, over [dst] otherwise.  [cp] refuses to copy
    a file onto itself and to replace a directory by a file; a missing
    destination needs its directory. *)
Definition copy (src dst content : string) (w : world) : proc * world :=
  if isDirectory w dst then
    let inside := child dst (basename src) in
    if isDirectory w inside || String.eqb inside src then (Closed 1, w)
    else (Closed 0, with_disk (Fs.write (disk w) inside content) w)
  else if String.eqb src dst then (Closed 1, w)
  else if isFile w dst || parentIsDirectory w dst || Fs.same_dir src dst
  then (Closed 0, with_disk (Fs.write (disk w) dst content) w)
  else (Closed 1, w).

(** What [sh -c command] does to the host and how it ends.  [rm], [cp] and
    [find] are decided by the file system; a command line closed by
    [|| true] ends with code 0; the external programs end as [tools] says.
    [git clone] leaves the tree of the remote branch when it ends with
    code 0, and [wget -O] leaves at its output path what [fetched] says;
    the docker commands leave the file system alone. *)
Definition sh (c : command) (w : world) : proc * world :=
  match c with
  | RmRf p => (Closed 0, with_disk (Fs.remove_tree (disk w) p) w)
  | RmF p =>
      if isDirectory w p then (Closed 1, w)
      else (Closed 0, with_disk (Fs.remove (disk w) p) w)
  | Cp src dst =>
      match files w src with
      | Some content => copy src dst content w
      | None => (Closed 1, w)
      end
  | MaterializeEnv r e =>
      if present w r
      then (Closed 0, with_disk (Fs.materialize (disk w) r e) w)
      else (Closed 1, w)
  | DockerRmForce _ | StopPublished _ => (Closed 0, w)
  | GitClone b u p =>
      match tools w (trace w) c with
      | Closed code =>
          if (code =? 0)%Z
          then (Closed code, with_disk (Fs.checkout (disk w) p (remote w u b)) w)
          else (Closed code, w)
      | SpawnError m => (SpawnError m, w)
      end
  | InstallCompose =>
      (tools w (trace w) c,
       match fetched w (trace w) with
       | Some content =>
           if isDirectory w composeToolPath then w
           else with_disk (Fs.write (disk w) composeToolPath content) w
       | None => w
       end)
  | DockerBuild _ _ | DockerRun _ _ _ _ | ComposeVersionV1 | ComposeVersionV2
  | ComposeUp _ => (tools w (trace w) c, w)
  end.

(** [runCommand(command)]: resolves with ['success'] on exit code 0, rejects
    with [Command failed: ...] on any other code and with the spawn error
    otherwise. *)
Definition runCommand (c : command) : M string :=
  fun w =>
    let (r, w1) := sh c w in
    let w' := logged (Ran c) w1 in
    match r with
    | Closed code =>
        if (code =? 0)%Z then (Ret "success", w')
        else (Throw ("Command failed: " ++ render c)%string, w')
    | SpawnError m => (Throw m, w')
    end.

(** [fs.existsSync(p)] *)
Definition existsSync (p : string) : M bool := gets (fun w => present w p).

(** [fs.readFileSync(p, 'utf8')] *)
Definition readFileSync (p : string) : M string :=
  fun w =>
    match disk w p with
    | Some (Fs.File content) => (Ret content, w)
    | Some Fs.Dir => (Throw "EISDIR: illegal operation on a directory, read", w)
    | None =>
        (Throw ("ENOENT: no such file or directory, open '" ++ p ++ "'")%string, w)
    end.

(** The message of the error [open] raises for a path that cannot be
    opened for writing. *)
Definition openError (w : world) (p : string) : string :=
  (if isDirectory w p
   then "EISDIR: illegal operation on a directory, open '" ++ p ++ "'"
   else match dirname p with
        | Some d =>
            if isFile w d then "ENOTDIR: not a directory, open '" ++ p ++ "'"
            else "ENOENT: no such file or directory, open '" ++ p ++ "'"
        | None => "ENOENT: no such file or directory, open '" ++ p ++ "'"
        end)%string.

(** [fs.writeFileSync(p, content)]: a regular file is overwritten, a
    missing one is created when its directory exists. *)
Definition writeFileSync (p content : string) : M unit :=
  fun w =>
    if negb (isDirectory w p) && (isFile w p || parentIsDirectory w p)
    then (Ret tt, with_disk (Fs.write (disk w) p content) w)
    else (Throw (openError w p), w).

(** [fs.renameSync(a, b)] for a regular file [a], the only use the source
    makes of it: it renames the file it has just written.  A directory at
    [b] is not replaced by a file.  (A directory as the source is not
    modelled and reads as a missing source.) *)
Definition renameSync (a b : string) : M unit :=
  fun w =>
    match files w a with
    | Some content =>
        if isDirectory w b
        then (Throw ("EISDIR: illegal operation on a directory, rename '" ++ a
                     ++ "' -> '" ++ b ++ "'")%string, w)
        else if isFile w b || parentIsDirectory w b || Fs.same_dir a b
        then (Ret tt, with_disk (Fs.write (Fs.remove (disk w) a) b content) w)
        else (Throw ("ENOENT: no such file or directory, rename '" ++ a
                     ++ "' -> '" ++ b ++ "'")%string, w)
    | None =>
        (Throw ("ENOENT: no such file or directory, rename '" ++ a ++ "' -> '"
                ++ b ++ "'")%string, w)
    end.

(** The inner [parseEnvFile(filePath)]. *)
Definition parseEnvFile (filePath : string) : M obj :=
  present <- existsSync filePath ;;
  if negb present then ret []
  else content <- readFileSync filePath ;; ret (parseEnvText content).

(** [mergeEnvironmentFiles(rootEnvPath, localEnvPath, outputPath)].  The
    call is entered in the trace. *)
Definition mergeEnvironmentFiles (rootEnvPath localEnvPath outputPath : string) : M obj :=
  modify (logged (Merged rootEnvPath localEnvPath outputPath)) ;;
  try_catch
    (rootVars <- parseEnvFile rootEnvPath ;;
     localVars <- parseEnvFile localEnvPath ;;
     let mergedVars := mergeVars rootVars localVars in
     let tempFile := (outputPath ++ ".temp")%string in
     writeFileSync tempFile (envContent mergedVars) ;;
     renameSync tempFile outputPath ;;
     ret mergedVars)
    (fun err => throw err).

(** [isDockerComposeAvailable()] *)
Definition isDockerComposeAvailable : M bool :=
  try_catch
    (runCommand ComposeVersionV1 ;; ret true)
    (fun _ =>
       try_catch
         (runCommand ComposeVersionV2 ;; ret true)
         (fun _ => ret false)).

(** [installDockerCompose()]: a failed installation is only logged. *)
Definition installDockerCompose : M unit :=
  try_catch
    (runCommand InstallCompose ;; ret tt)
    (fun _ => ret tt).

Record structure : Type := {
  hasDockerCompose : bool;
  hasDockerfile : bool;
  composeFile : option string
}.

Definition composeFiles : list string :=
  ["docker-compose.yml"; "docker-compose.yaml"; "compose.yml"; "compose.yaml"].

(** The [for ... of composeFiles] loop with its [break]:
    [fs.existsSync(path.join(repoPath, file))] for each name in turn. *)
Fixpoint firstExisting (w : world) (repoPath : string) (names : list string)
  : option string :=
  match names with
  | [] => None
  | file :: rest =>
      if present w (child repoPath file) then Some file
      else firstExisting w repoPath rest
  end.

(** [detectRepoStructure(repoPath)].  [fs.existsSync] does not throw, so
    the [catch] of the source is never entered. *)
Definition detectRepoStructure (repoPath : string) : M structure :=
  gets (fun w =>
    let found := firstExisting w repoPath composeFiles in
    {| hasDockerCompose := match found with Some _ => true | None => false end;
       hasDockerfile := present w (child repoPath "Dockerfile");
       composeFile := found |}).

(** [cleanupExistingContainers(config)] *)
Definition cleanupExistingContainers (c : config) : M unit :=
  try_catch
    (runCommand (DockerRmForce (interp (containerName c))) ;;
     match additionalPorts c with
     | Some ports =>
         for_each ports (fun port => runCommand (StopPublished port) ;; ret tt)
     | None => ret tt
     end)
    (fun _ => ret tt).

Definition rootEnvPath : string := "/workspace/.env".
Definition localEnvPath (repoPath : string) : string := child repoPath ".env".
Definition tempEnvPath (repoPath : string) : string := child repoPath ".env.temp".
Definition networkName : string := "weam_app-network".

(** [installDockerService(config, repoPath)] *)
Definition installDockerService (c : config) (repoPath : string) : M unit :=
  (if truthy (envFile c)
   then runCommand (MaterializeEnv repoPath (interp (envFile c))) ;; ret tt
   else ret tt) ;;
  mergeEnvironmentFiles rootEnvPath (localEnvPath repoPath) (tempEnvPath repoPath) ;;
  runCommand (Cp (tempEnvPath repoPath) (localEnvPath repoPath)) ;;
  runCommand (DockerBuild (interp (imageName c)) repoPath) ;;
  runCommand (DockerRun (interp (containerName c)) networkName
                        (interp (port c)) (interp (imageName c))) ;;
  runCommand (MaterializeEnv repoPath (interp (envFile c))) ;;
  runCommand (RmF (tempEnvPath repoPath)) ;;
  ret tt.

(** The branch of [installDockerComposeService] taken when the repository
    has a compose file. *)
Definition composeBranch (repoPath : string) : M unit :=
  isComposeAvailable <- isDockerComposeAvailable ;;
  (if negb isComposeAvailable then installDockerCompose else ret tt) ;;
  runCommand (Cp (tempEnvPath repoPath) (localEnvPath repoPath)) ;;
  runCommand (ComposeUp repoPath) ;;
  runCommand (RmF (tempEnvPath repoPath)) ;;
  ret tt.

(** [installDockerComposeService(config, repoPath)] *)
Definition installDockerComposeService (c : config) (repoPath : string) : M unit :=
  (if truthy (envFile c)
   then runCommand (MaterializeEnv repoPath (interp (envFile c)))
   else runCommand (MaterializeEnv repoPath ".env.example")) ;;
  mergeEnvironmentFiles rootEnvPath (localEnvPath repoPath) (tempEnvPath repoPath) ;;
  repoStructure <- detectRepoStructure repoPath ;;
  if hasDockerCompose repoStructure then composeBranch repoPath
  else if hasDockerfile repoStructure then installDockerService c repoPath
  else throw "No Docker configuration found in repository".

(** Modelled from the spec: [handleError] of [utils/helper] is not among the
    sources.  The spec has a failed attempt surface its error and nothing
    else, so the helper is taken to log and return. *)
Definition handleError (error label : string) : M unit := ret tt.

Record installed : Type := {
  success : bool;
  installedPort : option string;
  installedType : string
}.

(** [installWithProgress(req, res)], with [req.body?.solutionType] as its
    argument ([None] is [undefined]).  The response [res] is part of the
    world; the function never writes to it. *)
Definition installWithProgress (solutionType : option string) : M installed :=
  try_catch
    (if negb (truthy solutionType) then throw "Solution type is required"
     else
       let solutionType := interp solutionType in
       match lookup solutionType with
       | None => throw ("Unknown solution type: " ++ solutionType)%string
       | Some c =>
           let repoPath := ("/workspace/" ++ interp (repoName c))%string in
           runCommand (RmRf repoPath) ;;
           runCommand (GitClone (interp (branchName c)) (interp (repoUrl c)) repoPath) ;;
           cleanupExistingContainers c ;;
           (if strictEq (installType c) "docker"
            then installDockerService c repoPath
            else if strictEq (installType c) "docker-compose"
            then installDockerComposeService c repoPath
            else throw ("Unsupported installation type: "
                        ++ interp (installType c))%string) ;;
           ret {| success := true; installedPort := port c;
                  installedType := solutionType |}
       end)
    (fun error =>
       handleError error "Error - solutionInstallWithProgress" ;;
       throw error).

End SolutionInstall.

(* ------------------------------------------------------------------------ *)
(** ** [controller/web/solutionInstallProgressController.js] *)

Module ProgressController.
Import JsString EnvMerge Shell Host Catalog SolutionInstall.
Local Open Scope js_scope.

(** [res.write(`data: ${JSON.stringify({ type, message })}\n\n`)] *)
Definition write (type message : string) : M unit :=
  modify (emitted {| type := type; message := message |}).

(** [res.end()] *)
Definition end_ : M unit := modify closed.

(** [a || b] on strings *)
Definition orElse (a b : string) : string :=
  if String.eqb a "" then b else a.

(** [getInstallationProgress(req, res)], with [req.query.solutionType] as
    its argument ([None] is [undefined]).  The response headers are not
    part of the model, and neither is the [catchAsync] wrapper: the body
    catches every error of the installer itself. *)
Definition getInstallationProgress (query : option string) : M unit :=
  write "connected" "Connected to installation progress stream" ;;
  try_catch
    (let solutionType := orElse (match query with Some s => s | None => "" end) "" in
     if String.eqb solutionType ""
     then write "error" "Solution type is required" ;; end_
     else installWithProgress (Some solutionType) ;; end_)
    (fun error =>
       write "error" (orElse error "Installation failed") ;; end_).

(** What the health endpoint answers: [res.json({ status, ... })] with its
    second member, or the [error] event it writes for a missing
    [solutionType]. *)
Inductive answer : Type :=
| Json (status detail : string)
| ErrorEvent (message : string).

Definition SP : ascii := " ".

(** [const [name, status] = line.split(' ', 2)] *)
Definition nameAndStatus (line : string) : string * option string :=
  match split SP line with
  | name :: status :: _ => (name, Some status)
  | [name] => (name, None)
  | [] => (EmptyString, None)
  end.

(** The predicate handed to [containerLines.find].  [status.includes] on
    an [undefined] status is a [TypeError], here [None]. *)
Definition matches (solutionType line : string) : option bool :=
  let (name, status) := nameAndStatus line in
  if includes solutionType name || includes "foloup" name
     || includes "ai-doc" name || includes "landing-page" name
  then match status with
       | Some st => Some (includes "Up" st)
       | None => None
       end
  else Some false.

(** [containerLines.find(pred)]: the first line that matches; a throwing
    predicate ends the search. *)
Fixpoint findLine (solutionType : string) (lines : list string)
  : option (option string) :=
  match lines with
  | [] => Some None
  | line :: rest =>
      match matches solutionType line with
      | None => None
      | Some true => Some (Some line)
      | Some false => findLine solutionType rest
      end
  end.

(** [stdout.trim().split('\n').filter(line => line.trim())] *)
Definition containerLines (stdout : string) : list string :=
  filter (fun line => negb (String.eqb (trim line) ""))
         (split LF (trim stdout)).

(** [checkInstallationHealth(req, res)].  [psOut] is the standard output of
    the process listing [ps aux | grep -E "(docker-compose|docker build)" |
    grep -v grep]; [dockerPs] is the container listing [docker ps --format
    "{{.Names}} {{.Status}}"]: [None] when [exec] reports an error, its
    standard output otherwise.  [None] as a result is the [TypeError]
    thrown inside the callback. *)
Definition checkInstallationHealth
    (query : option string) (psOut : string) (dockerPs : option string)
  : option answer :=
  let solutionType := orElse (match query with Some s => s | None => "" end) "" in
  if String.eqb solutionType ""
  then Some (ErrorEvent "Solution type is required")
  else if negb (String.eqb (trim psOut) "")
  then Some (Json "installing" "Installation in progress")
  else match dockerPs with
       | None => Some (Json "not_running" "Docker not available")
       | Some stdout =>
           match findLine solutionType (containerLines stdout) with
           | None => None
           | Some (Some solutionContainer) =>
               Some (Json "running" solutionContainer)
           | Some None =>
               Some (Json "not_running" "Container not found or not running")
           end
       end.

End ProgressController.


(* ------------------------------------------------------------------------ *)
(** ** Notions the properties are stated with *)

Module Spec.
Import JsString JsObject EnvMerge Path Shell Host Catalog SolutionInstall.

(** The [(key, value)] pairs of an environment text, one per kept line, in
    line order. *)
Definition entries (content : string) : list (string * string) :=
  map (fun line => (lineKey line, lineValue line)) (keptLines content).

(** What the specification promises for a repeated key: the first non-empty
    value among its lines; the empty value when every line of the key is
    empty; nothing when the key has no line. *)
Fixpoint firstNonEmpty (k : string) (es : list (string * string)) : option string :=
  match es with
  | [] => None
  | (k', v) :: rest =>
      if String.eqb k' k
      then if String.eqb v "" then
             match firstNonEmpty k rest with
             | Some v' => Some v'
             | None => Some ""
             end
           else Some v
      else firstNonEmpty k rest
  end.

(** What [parseEnvFile] yields for a path, given the file's text if the file
    exists. *)
Definition parsedFile (text : option string) : obj :=
  match text with
  | Some content => parseEnvText content
  | None => []
  end.

(** The value the [reduce] ends with under a key, from the value the
    accumulator holds and the verdict on the lines still to come. *)
Definition pick (current : option string) (later : option string) : option string :=
  match current with
  | Some v0 =>
      if String.eqb v0 "" then
        match later with Some v => Some v | None => Some "" end
      else Some v0
  | None => later
  end.

(** Every value of the object is its own [trim]. *)
Definition trimmed_values (o : obj) : Prop :=
  forall k v, get k o = Some v -> trim v = v.

(** The world a call of [mergeEnvironmentFiles] leaves: the call is in the
    trace, the merged text went to the temporary file and the temporary
    file was renamed to the output path. *)
Definition afterMerge (rootPath localPath outputPath : string) (w : world) : world :=
  let merged := mergeVars (parsedFile (files w rootPath))
                          (parsedFile (files w localPath)) in
  let tempFile := (outputPath ++ ".temp")%string in
  with_disk
    (Fs.write (Fs.remove (Fs.write (disk w) tempFile (envContent merged)) tempFile)
              outputPath (envContent merged))
    (logged (Merged rootPath localPath outputPath) w).

(** The merge can read its inputs and write its output: neither input is
    a directory, the temporary file can be opened for writing, and no
    directory sits at the output path. *)
Definition mergeable (rootPath localPath outputPath : string) (w : world) : bool :=
  let tempFile := (outputPath ++ ".temp")%string in
  negb (isDirectory w rootPath) && negb (isDirectory w localPath)
  && negb (isDirectory w tempFile)
  && (isFile w tempFile || parentIsDirectory w tempFile)
  && negb (isDirectory w outputPath).

(** The repository directory exists, and none of the paths the installer
    uses as environment files (the root file, [.env], the scratch file and
    the temporary file of the merge) is a directory. *)
Definition installable (repoPath : string) (w : world) : bool :=
  isDirectory w repoPath
  && negb (isDirectory w rootEnvPath)
  && negb (isDirectory w (localEnvPath repoPath))
  && negb (isDirectory w (tempEnvPath repoPath))
  && negb (isDirectory w (tempEnvPath repoPath ++ ".temp")%string).

(** A name without a slash: one path component. *)
Definition plain (name : string) : Prop := split_last name = (None, name).

(** The files are as they were. *)
Definition same_files (w w' : world) : Prop := files w' = files w.

(** A computation [respects] a relation between worlds when the world it
    leaves is related to the world it started in, whatever it returns. *)
Definition respects (R : world -> world -> Prop) {A} (m : M A) : Prop :=
  forall w, R w (snd (m w)).

(** The response stream is as it was. *)
Definition same_stream (w w' : world) : Prop :=
  events w' = events w /\ ended w' = ended w.

Definition allowed (P : command -> bool) (a : action) : bool :=
  match a with
  | Ran c => P c
  | Merged _ _ _ => true
  end.

(** The trace only grew, and every command added satisfies [P]. *)
Definition grows (P : command -> bool) (w w' : world) : Prop :=
  exists added, trace w' = trace w ++ added /\ forallb (allowed P) added = true.

(** The commands of the single-container path. *)
Definition isSingleCommand (c : command) : bool :=
  match c with
  | DockerBuild _ _ | DockerRun _ _ _ _ => true
  | _ => false
  end.

(** The commands that call the composition tool or install it. *)
Definition isComposeCommand (c : command) : bool :=
  match c with
  | ComposeVersionV1 | ComposeVersionV2 | InstallCompose | ComposeUp _ => true
  | _ => false
  end.


(** The world one [runCommand] leaves. *)
Definition afterCommand (c : command) (w : world) : world :=
  logged (Ran c) (snd (sh c w)).

(** The template name the composed install hands to [find]. *)
Definition composedTemplate (c : config) : string :=
  if truthy (envFile c) then interp (envFile c) else ".env.example".

(** The world of a composed install when it inspects the repository: the
    template was copied to [.env] and the merge was written to the scratch
    file. *)
Definition afterPrelude (c : config) (repoPath : string) (w : world) : world :=
  afterMerge rootEnvPath (localEnvPath repoPath) (tempEnvPath repoPath)
             (afterCommand (MaterializeEnv repoPath (composedTemplate c)) w).

(** The first event of every progress stream. *)
Definition connectedEvent : event :=
  {| type := "connected"; message := "Connected to installation progress stream" |}.

Definition errorEvent (message : string) : event :=
  {| type := "error"; message := message |}.

(** [req.query.solutionType || ''] *)
Definition requested (query : option string) : string :=
  match query with
  | Some s => s
  | None => ""
  end.

(** The events the gateway adds to the stream after [connected]. *)
Definition closingEvents (query : option string) (w : world) : list event :=
  if String.eqb (requested query) "" then [errorEvent "Solution type is required"]
  else match fst (installWithProgress (Some (requested query)) (emitted connectedEvent w)) with
       | Ret _ => []
       | Throw e => [errorEvent (if String.eqb e "" then "Installation failed" else e)]
       end.

(** The final event the specification promises for an attempt: [succeeded]
    after a completed install, [error] after a failed one. *)
Definition finalEventPromised (query : option string) (w : world) : Prop :=
  let w' := snd (ProgressController.getInstallationProgress query w) in
  exists e, last (events w') connectedEvent = e /\
    match fst (installWithProgress query (emitted connectedEvent w)) with
    | Ret _ => type e = "succeeded"
    | Throw _ => type e = "error"
    end.


(** The structure the specification describes: the first recognized
    composition file that exists in the root, and whether a Dockerfile
    exists there. *)
Definition structureOf (w : world) (repoPath : string) : structure :=
  let found := find (fun name => present w (child repoPath name)) composeFiles in
  {| hasDockerCompose := match found with Some _ => true | None => false end;
     hasDockerfile := present w (child repoPath "Dockerfile");
     composeFile := found |}.

(** The trace of a composed install up to the composition command when both
    probes for the tool fail: the template copy, the merge, the two probes,
    the attempt to install the tool and the copy of the merged file. *)
Definition traceWithoutTool (c : config) (repoPath : string) (w : world) : list action :=
  trace w ++ [ Ran (MaterializeEnv repoPath (composedTemplate c));
               Merged rootEnvPath (localEnvPath repoPath) (tempEnvPath repoPath);
               Ran ComposeVersionV1; Ran ComposeVersionV2; Ran InstallCompose;
               Ran (Cp (tempEnvPath repoPath) (localEnvPath repoPath)) ].

(** How [runCommand] settles for a given end of the process. *)
Definition settled (c : command) (r : proc) : outcome unit :=
  match r with
  | Closed code =>
      if (code =? 0)%Z then Ret tt
      else Throw ("Command failed: " ++ render c)%string
  | SpawnError m => Throw m
  end.

(** What the specification promises for a composed install on a host without
    a working composition tool when the repository has a Dockerfile: the
    single-container path is taken and the install completes. *)
Definition fallbackPromised (c : config) (repoPath : string) (w : world) : Prop :=
  fst (installDockerComposeService c repoPath w) = Ret tt /\
  existsb (ran isSingleCommand) (trace (snd (installDockerComposeService c repoPath w))) = true.



(** A line of the container listing names a container that counts for the
    query [solutionType]: its name contains the query or one of the three
    fixed substrings, and its status word contains [Up]. *)
Definition upWithName (solutionType line : string) : bool :=
  let (name, status) := ProgressController.nameAndStatus line in
  (includes solutionType name || includes "foloup" name
   || includes "ai-doc" name || includes "landing-page" name)
  && match status with
     | Some st => includes "Up" st
     | None => false
     end.

(** The line has a name and a status, as [docker ps] prints it. *)
Definition wellFormed (line : string) : Prop :=
  snd (ProgressController.nameAndStatus line) <> None.

(** What the claim promises for one query: [running] as soon as some listed
    container counts for the query. *)
Definition runningPromised (solutionType psOut stdout : string) : Prop :=
  (exists line, In line (ProgressController.containerLines stdout)
                /\ upWithName solutionType line = true) ->
  exists detail,
    ProgressController.checkInstallationHealth (Some solutionType) psOut (Some stdout)
    = Some (ProgressController.Json "running" detail).

End Spec.

(* ------------------------------------------------------------------------ *)
(** ** Sample hosts *)

Module Samples.
Import JsString EnvMerge Shell Host Catalog SolutionInstall.

(** A repository with a compose file, a Dockerfile and the template
    [.env.example] holding [B=2] and [C=]. *)
Definition composedTree (p : string) : option string :=
  if String.eqb p "docker-compose.yml" then Some "services:"
  else if String.eqb p "Dockerfile" then Some "FROM node"
  else if String.eqb p ".env.example" then Some ("B=2" ++ NL ++ "C=")%string
  else None.

(** The same repository without its compose file. *)
Definition dockerfileTree (p : string) : option string :=
  if String.eqb p "docker-compose.yml" then None else composedTree p.

(** The host before any clone: the directory [/workspace] with the root
    environment file, which holds [A=1] and [B=]. *)
Definition rootDisk : Fs.tree :=
  Fs.write (fun p => if String.eqb p "/workspace" then Some Fs.Dir else None)
           "/workspace/.env" ("A=1" ++ NL ++ "B=")%string.

(** A remote tree of regular files, without subdirectories. *)
Definition flat (tree : string -> option string) (p : string) : option Fs.node :=
  match tree p with
  | Some content => Some (Fs.File content)
  | None => None
  end.

(** A host whose remote repositories all hold [tree], and where a
    download of the composition tool cannot open its output path. *)
Definition hostOf (t : list action -> command -> proc) (tree : string -> option Fs.node)
  : world :=
  {| disk := rootDisk; tools := t; remote := fun _ _ => tree;
     fetched := fun _ => None; trace := []; events := []; ended := false |}.

Definition host (t : list action -> command -> proc) (tree : string -> option string)
  : world := hostOf t (flat tree).

(** Every external program ends with code 0. *)
Definition allSucceed : list action -> command -> proc :=
  fun _ _ => Closed 0.

(** [git clone] ends with code 128. *)
Definition cloneFails : list action -> command -> proc :=
  fun _ c => match c with GitClone _ _ _ => Closed 128 | _ => Closed 0 end.

(** No composition tool on the host and none can be installed: both probes,
    the download and [docker-compose up] fail. *)
Definition noComposeTool : list action -> command -> proc :=
  fun _ c =>
    match c with
    | ComposeVersionV1 | ComposeVersionV2 | ComposeUp _ => Closed 127
    | InstallCompose => Closed 4
    | _ => Closed 0
    end.

(** The working directory of the [ai-recruiter] entry. *)
Definition recruiterPath : string := "/workspace/foloup".

(** The [ai-recruiter] entry of the catalog. *)
Definition recruiter : config :=
  {| repoUrl := Some "https://github.com/devweam-ai/foloup.git";
     repoName := Some "foloup";
     imageName := Some "foloup-img";
     containerName := Some "foloup-container";
     port := Some "4000";
     branchName := Some "main";
     installType := Some "docker-compose";
     envFile := Some ".env.example";
     additionalPorts := Some [] |}.

(** The host once the repository was cloned to [recruiterPath]. *)
Definition clonedOf (t : list action -> command -> proc) (tree : string -> option Fs.node)
  : world :=
  with_disk (Fs.checkout rootDisk recruiterPath tree) (hostOf t tree).

Definition cloned (t : list action -> command -> proc) (tree : string -> option string)
  : world := clonedOf t (flat tree).


(** A repository in which [compose.yml] is a directory, beside a
    Dockerfile. *)
Definition composeDirectoryTree (p : string) : option Fs.node :=
  if String.eqb p "compose.yml" then Some Fs.Dir
  else if String.eqb p "Dockerfile" then Some (Fs.File "FROM node")
  else None.

(** A repository with a compose file and no Dockerfile. *)
Definition composeOnlyTree (p : string) : option string :=
  if String.eqb p "Dockerfile" then None else composedTree p.

End Samples.

(* ------------------------------------------------------------------------ *)
(** ** Notions for the behaviour of the single steps *)

Module Behaviour.
Import JsString JsObject EnvMerge Path Shell Host Catalog SolutionInstall Spec.

(** The process ended with exit code 0. *)
Definition exitedZero (r : proc) : bool :=
  match r with
  | Closed code => (code =? 0)%Z
  | SpawnError _ => false
  end.

(** [config.additionalPorts] as the loop of [cleanupExistingContainers] sees
    it. *)
Definition portsOf (c : config) : list string :=
  match additionalPorts c with
  | Some ports => ports
  | None => []
  end.

(** The working directory of an entry, [`/workspace/${config.repoName}`]. *)
Definition workdir (c : config) : string :=
  ("/workspace/" ++ interp (repoName c))%string.

(** The world in which the two probes of [isDockerComposeAvailable] leave a
    host that started in [w]. *)
Definition afterProbes (w : world) : world :=
  if exitedZero (tools w (trace w) ComposeVersionV1)
  then afterCommand ComposeVersionV1 w
  else afterCommand ComposeVersionV2 (afterCommand ComposeVersionV1 w).

(** Whether the probes found the tool. *)
Definition toolFound (w : world) : bool :=
  exitedZero (tools w (trace w) ComposeVersionV1)
  || exitedZero (tools w (trace w ++ [Ran ComposeVersionV1]) ComposeVersionV2).

(** The world of the compose branch when [docker-compose up] is about to
    run: probes done, tool installation attempted if the probes failed, the
    scratch file copied over [.env]. *)
Definition beforeComposeUp (repoPath : string) (w : world) : world :=
  afterCommand (Cp (tempEnvPath repoPath) (localEnvPath repoPath))
    (if toolFound w then afterProbes w
     else afterCommand InstallCompose (afterProbes w)).

(** The world of the single-container install when [docker build] is about
    to run. *)
Definition beforeBuild (c : config) (repoPath : string) (w : world) : world :=
  afterCommand (Cp (tempEnvPath repoPath) (localEnvPath repoPath))
    (afterMerge rootEnvPath (localEnvPath repoPath) (tempEnvPath repoPath)
       (if truthy (envFile c)
        then afterCommand (MaterializeEnv repoPath (interp (envFile c))) w
        else w)).

(** The text the single-container install merges: the root environment file
    with the [.env] made from the template. *)
Definition singleMergedText (c : config) (repoPath : string) (w : world) : string :=
  let w1 := if truthy (envFile c)
            then afterCommand (MaterializeEnv repoPath (interp (envFile c))) w
            else w in
  envContent (mergeVars (parsedFile (files w1 rootEnvPath))
                        (parsedFile (files w1 (localEnvPath repoPath)))).

(** The build and run commands of an entry. *)
Definition buildCommand (c : config) (repoPath : string) : command :=
  DockerBuild (interp (imageName c)) repoPath.

Definition runContainer (c : config) : command :=
  DockerRun (interp (containerName c)) networkName (interp (port c))
            (interp (imageName c)).




End Behaviour.

(* ------------------------------------------------------------------------ *)
(** ** The shape of parsed and merged mappings *)

Module EnvShape.
Import JsString JsObject EnvMerge.

(** The character occurs in the string. *)
Fixpoint mem (c : ascii) (s : string) : bool :=
  match s with
  | EmptyString => false
  | String a s' => Ascii.eqb c a || mem c s'
  end.

(** A key as the parser makes it: trimmed, free of [=] and of line feeds,
    not starting with [#], and not a name inherited from
    [Object.prototype]. *)
Definition cleanKey (k : string) : Prop :=
  trim k = k /\ mem "=" k = false /\ mem LF k = false
  /\ startsWith "#" k = false /\ inherited k = false.

(** A value as the parser makes it: trimmed and free of line feeds. *)
Definition cleanValue (v : string) : Prop :=
  trim v = v /\ mem LF v = false.

Definition cleanEntry (kv : string * string) : Prop :=
  cleanKey (fst kv) /\ cleanValue (snd kv).

(** Every entry is clean and no key occurs twice. *)
Definition clean (o : obj) : Prop :=
  Forall cleanEntry o /\ NoDup (keys o).

(** The line [`${key}=${value}`] written for an entry. *)
Definition envLine (kv : string * string) : string :=
  (fst kv ++ "=" ++ snd kv)%string.

(** The text with every line feed preceded by a carriage return. *)
Fixpoint toCRLF (s : string) : string :=
  match s with
  | EmptyString => EmptyString
  | String c s' =>
      if Ascii.eqb c LF then String CR (String LF (toCRLF s'))
      else String c (toCRLF s')
  end.

(** The pieces of a text cut at line feeds, once every line feed got a
    carriage return in front: every piece but the last ends with one. *)
Fixpoint withCR (pieces : list string) : list string :=
  match pieces with
  | [] => []
  | [x] => [x]
  | x :: rest => (x ++ String CR EmptyString)%string :: withCR rest
  end.

(** A line as the [reduce] of the parser receives it. *)
Definition keptLine (line : string) : Prop :=
  trim line = line /\ keepLine line = true /\ mem LF line = false.

End EnvShape.
(* ------------------------------------------------------------------------ *)
(** ** Facts about strings and objects *)

Section StringFacts.
Import JsString.

Lemma trimEnd_idem (s : string) : trimEnd (trimEnd s) = trimEnd s.
Proof.
  induction s as [|c s IH]; simpl; [reflexivity|].
  destruct (trimEnd s) as [|c' t] eqn:E.
  - destruct (is_ws c) eqn:W; simpl; [reflexivity|].
    rewrite W. reflexivity.
  - simpl in *. rewrite IH. reflexivity.
Qed.

Lemma trimStart_head (s : string) :
  trimStart s = EmptyString \/
  exists c t, trimStart s = String c t /\ is_ws c = false.
Proof.
  induction s as [|c s IH]; simpl; [now left|].
  destruct (is_ws c) eqn:W; [exact IH|].
  right. exists c, s. split; [reflexivity|exact W].
Qed.

Lemma trimEnd_head (c : ascii) (t : string) :
  is_ws c = false -> trimEnd (String c t) = String c (trimEnd t).
Proof.
  intros W. simpl. destruct (trimEnd t); [rewrite W|]; reflexivity.
Qed.

Lemma trim_idem (s : string) : trim (trim s) = trim s.
Proof.
  unfold trim.
  destruct (trimStart_head s) as [E | (c & t & E & W)]; rewrite E.
  - reflexivity.
  - rewrite (trimEnd_head c t W). simpl trimStart. rewrite W.
    rewrite <- (trimEnd_head c t W). apply trimEnd_idem.
Qed.

End StringFacts.

Section ObjectFacts.
Import JsObject.

Ltac by_key_cases :=
  repeat match goal with
         | |- context [String.eqb ?a ?b] =>
             destruct (String.eqb_spec a b); subst; simpl
         end;
  try congruence.

Lemma get_replace (k k' v : string) (o : obj) :
  get k (replace k' v o) =
  if String.eqb k' k then (match get k' o with Some _ => Some v | None => None end)
  else get k o.
Proof.
  induction o as [|[k0 v0] o IH]; simpl.
  - destruct (String.eqb k' k); reflexivity.
  - destruct (String.eqb_spec k0 k') as [->|N0]; simpl.
    + by_key_cases.
    + rewrite IH. by_key_cases.
Qed.

Lemma get_insert_index (n : N) (k k' v : string) (o : obj) :
  get k' o = None ->
  get k (insert_index n k' v o) =
  if String.eqb k' k then Some v else get k o.
Proof.
  induction o as [|[k0 v0] o IH]; simpl; intros H.
  - reflexivity.
  - destruct (String.eqb_spec k0 k') as [->|N0]; [discriminate|].
    destruct (after_index n k0); simpl.
    + reflexivity.
    + rewrite (IH H). by_key_cases.
Qed.

Lemma get_append (k k' v : string) (o : obj) :
  get k' o = None ->
  get k (o ++ [(k', v)]) = if String.eqb k' k then Some v else get k o.
Proof.
  induction o as [|[k0 v0] o IH]; simpl; intros H.
  - reflexivity.
  - destruct (String.eqb_spec k0 k') as [->|N0]; [discriminate|].
    rewrite (IH H). by_key_cases.
Qed.

(** Reading back after [o[k'] = v]. *)
Lemma get_set (k k' v : string) (o : obj) :
  get k (set k' v o) = if String.eqb k' k then Some v else get k o.
Proof.
  unfold set, hasOwn.
  destruct (get k' o) as [v0|] eqn:E.
  - rewrite get_replace, E. reflexivity.
  - destruct (array_index k').
    + apply get_insert_index. exact E.
    + apply get_append. exact E.
Qed.

Lemma get_in_keys (k : string) (o : obj) :
  In k (keys o) <-> get k o <> None.
Proof.
  induction o as [|[k0 v0] o IH]; simpl.
  - split; [tauto | congruence].
  - destruct (String.eqb_spec k0 k) as [->|N].
    + split; [congruence | now left].
    + rewrite <- IH. split; [intros [H|H]; [contradiction|exact H] | now right].
Qed.

(** A loop that stores [f key] under every key of a list. *)
Lemma get_fold_set (f : string -> string) (ks : list string) (k : string) (o : obj) :
  get k (fold_left (fun acc key => set key (f key) acc) ks o) =
  if in_dec string_dec k ks then Some (f k) else get k o.
Proof.
  revert o. induction ks as [|k0 ks IH]; intros o; simpl.
  - reflexivity.
  - rewrite IH. rewrite get_set.
    destruct (in_dec string_dec k ks) as [I|I].
    + destruct (string_dec k0 k); reflexivity.
    + destruct (String.eqb_spec k0 k) as [->|N].
      * destruct (string_dec k k); [reflexivity|contradiction].
      * destruct (string_dec k0 k); [contradiction|].
        destruct (in_dec string_dec k ks); [contradiction|reflexivity].
Qed.

End ObjectFacts.

(* ------------------------------------------------------------------------ *)
(** ** The parser *)

Section ParserFacts.
Import JsString JsObject EnvMerge Spec.

Ltac by_key_cases :=
  repeat match goal with
         | |- context [String.eqb ?a ?b] =>
             destruct (String.eqb_spec a b); subst; simpl
         end;
  try congruence.

(** Reading a key back after one step of the [reduce]. *)
Lemma get_assign_same (k value : string) (acc : obj) :
  inherited k = false ->
  get k (assign acc k value) =
  match get k acc with
  | None => Some value
  | Some v0 => if String.eqb v0 "" then Some value else Some v0
  end.
Proof.
  intros NI. unfold assign, has, hasOwn, isEmptyAt. rewrite NI.
  destruct (get k acc) as [v0|] eqn:E; simpl.
  - destruct (String.eqb_spec v0 ""); simpl.
    + subst. destruct (String.eqb_spec value ""); simpl.
      * subst. exact E.
      * rewrite get_set, String.eqb_refl. reflexivity.
    + exact E.
  - rewrite get_set, String.eqb_refl. reflexivity.
Qed.

Lemma get_assign_other (k key value : string) (acc : obj) :
  key <> k -> get k (assign acc key value) = get k acc.
Proof.
  intros N. unfold assign.
  destruct (negb (has key acc) || (isEmptyAt key acc && negb (String.eqb value ""))).
  - rewrite get_set. apply String.eqb_neq in N. rewrite N. reflexivity.
  - reflexivity.
Qed.

(** An inherited name never becomes an own property. *)
Lemma get_assign_inherited (k key value : string) (acc : obj) :
  inherited k = true -> get k acc = None ->
  get k (assign acc key value) = None.
Proof.
  intros I E. destruct (string_dec key k) as [->|N].
  - unfold assign, has, isEmptyAt. rewrite I, E, orb_true_r. simpl. exact E.
  - rewrite get_assign_other by exact N. exact E.
Qed.

Lemma fold_reducer_get (k : string) (lines : list string) (acc : obj) :
  inherited k = false ->
  get k (fold_left reducer lines acc) =
  pick (get k acc)
       (firstNonEmpty k (map (fun line => (lineKey line, lineValue line)) lines)).
Proof.
  intros NI. revert acc.
  induction lines as [|line lines IH]; intros acc; simpl.
  - unfold pick. destruct (get k acc) as [v0|]; [|reflexivity].
    destruct (String.eqb_spec v0 ""); subst; reflexivity.
  - rewrite IH. unfold reducer.
    generalize (firstNonEmpty k (map (fun l => (lineKey l, lineValue l)) lines)).
    intros later.
    destruct (String.eqb_spec (lineKey line) k) as [->|N].
    + rewrite (get_assign_same _ _ _ NI). unfold pick.
      destruct (get k acc) as [v0|]; destruct later; by_key_cases.
    + rewrite (get_assign_other _ _ _ _ N). reflexivity.
Qed.

(** For a key that is not an inherited name the parser keeps the first
    non-empty value. *)
Lemma parse_first_non_empty (content k : string) :
  inherited k = false ->
  get k (parseEnvText content) = firstNonEmpty k (entries content).
Proof.
  intros NI. unfold parseEnvText, entries.
  rewrite (fold_reducer_get k _ [] NI). reflexivity.
Qed.

Lemma fold_reducer_inherited (k : string) (lines : list string) (acc : obj) :
  inherited k = true -> get k acc = None ->
  get k (fold_left reducer lines acc) = None.
Proof.
  intros I. revert acc.
  induction lines as [|line lines IH]; intros acc E; simpl.
  - exact E.
  - apply IH. unfold reducer. apply get_assign_inherited; assumption.
Qed.

(** No object built by the parser owns an inherited name. *)
Lemma parse_keys_not_inherited (content k : string) :
  inherited k = true -> get k (parseEnvText content) = None.
Proof.
  intros I. apply fold_reducer_inherited; [exact I | reflexivity].
Qed.

Lemma assign_trimmed (acc : obj) (key value : string) :
  trimmed_values acc -> trim value = value ->
  trimmed_values (assign acc key value).
Proof.
  intros T V k v. unfold assign.
  destruct (negb (has key acc) || (isEmptyAt key acc && negb (String.eqb value ""))).
  - rewrite get_set. destruct (String.eqb key k).
    + intros [= <-]. exact V.
    + apply T.
  - apply T.
Qed.

Lemma fold_reducer_trimmed (lines : list string) (acc : obj) :
  trimmed_values acc -> trimmed_values (fold_left reducer lines acc).
Proof.
  revert acc. induction lines as [|line lines IH]; intros acc T; simpl.
  - exact T.
  - apply IH. apply assign_trimmed; [exact T|].
    unfold lineValue. apply trim_idem.
Qed.

(** Every value of a parsed object is already trimmed. *)
Lemma parse_trimmed (content : string) : trimmed_values (parseEnvText content).
Proof.
  apply fold_reducer_trimmed. intros k v. simpl. discriminate.
Qed.

Lemma nonBlank_trimmed (v : string) :
  trim v = v -> nonBlank (Some v) = negb (String.eqb v "").
Proof.
  intros T. unfold nonBlank. rewrite T. apply andb_diag.
Qed.

(** What the merge loop leaves under a key. *)
Lemma get_mergeVars (rootVars localVars : obj) (k : string) :
  get k (mergeVars rootVars localVars) =
  match get k localVars with
  | Some _ => Some (mergedValue rootVars localVars k)
  | None => get k rootVars
  end.
Proof.
  unfold mergeVars.
  rewrite (get_fold_set (mergedValue rootVars localVars)).
  destruct (in_dec string_dec k (keys localVars)) as [I|I].
  - apply get_in_keys in I. destruct (get k localVars); [reflexivity|contradiction].
  - destruct (get k localVars) eqn:E; [|reflexivity].
    exfalso. apply I. apply get_in_keys. congruence.
Qed.

End ParserFacts.

(* ------------------------------------------------------------------------ *)
(** ** The monad *)

Section MonadFacts.
Import Shell Host SolutionInstall Spec.
Context {A B : Type}.

Lemma bind_run (m : M A) (k : A -> M B) (w w1 : world) (a : A) :
  m w = (Ret a, w1) -> bind m k w = k a w1.
Proof. intros E. unfold bind. rewrite E. reflexivity. Qed.

Lemma bind_throws (m : M A) (k : A -> M B) (w w1 : world) (e : string) :
  m w = (Throw e, w1) -> bind m k w = (Throw e, w1).
Proof. intros E. unfold bind. rewrite E. reflexivity. Qed.

Lemma bind_ret_inv (m : M A) (k : A -> M B) (w w' : world) (b : B) :
  bind m k w = (Ret b, w') ->
  exists a w1, m w = (Ret a, w1) /\ k a w1 = (Ret b, w').
Proof.
  unfold bind. destruct (m w) as [[a|e] w1]; intros E.
  - exists a, w1. split; [reflexivity | exact E].
  - discriminate.
Qed.

End MonadFacts.

(* ------------------------------------------------------------------------ *)
(** ** Paths and files *)

Section PathFacts.
Import JsString Path Spec.

Lemma append_assoc (a b c : string) : ((a ++ b) ++ c = a ++ b ++ c)%string.
Proof. induction a as [|x a IH]; simpl; [reflexivity | rewrite IH; reflexivity]. Qed.


Lemma split_last_child (dir name : string) :
  plain name -> split_last (child dir name) = (Some dir, name).
Proof.
  unfold plain, child. intros P.
  induction dir as [|x dir IH]; simpl.
  - rewrite P. reflexivity.
  - simpl in IH. rewrite IH. reflexivity.
Qed.

Lemma basename_child (dir name : string) : plain name -> basename (child dir name) = name.
Proof. intros P. unfold basename. rewrite split_last_child by exact P. reflexivity. Qed.

Lemma child_inj (dir a b : string) : plain a -> plain b -> child dir a = child dir b -> a = b.
Proof.
  intros Pa Pb E. rewrite <- (basename_child dir a Pa), <- (basename_child dir b Pb).
  rewrite E. reflexivity.
Qed.


Lemma drop_append (a b : string) : drop (String.length a) (a ++ b) = b.
Proof. induction a as [|x a IH]; simpl; [destruct b; reflexivity | exact IH]. Qed.

Lemma relative_child (dir name : string) : relative dir (child dir name) = name.
Proof.
  unfold relative, child.
  change (S (String.length dir)) with (String.length (String "/" dir)).
  induction dir as [|x dir IH]; simpl; [destruct name; reflexivity|].
  exact IH.
Qed.

Lemma child_append (dir name suffix : string) :
  (child dir name ++ suffix)%string = child dir (name ++ suffix).
Proof. unfold child. rewrite !append_assoc. reflexivity. Qed.

Lemma split_last_join (q d b : string) :
  split_last q = (Some d, b) -> q = child d b.
Proof.
  revert d. induction q as [|c q IH]; intros d; simpl; [discriminate|].
  destruct (split_last q) as [[d'|] b'] eqn:E.
  - intros [= <- <-]. rewrite (IH d' eq_refl). reflexivity.
  - destruct (Ascii.eqb_spec c "/") as [->|N]; [|discriminate].
    intros [= <- <-]. unfold child. simpl. f_equal.
    clear IH. revert b' E. induction q as [|x q IHq]; intros b' E; simpl in *.
    + inversion E. reflexivity.
    + destruct (split_last q) as [[d''|] b''] eqn:E'; [discriminate|].
      destruct (Ascii.eqb x "/"); [discriminate|].
      inversion E; subst. f_equal. apply IHq. reflexivity.
Qed.

Lemma plain_cons_inv (c : ascii) (e : string) :
  plain (String c e) -> c <> "/"%char /\ plain e.
Proof.
  unfold plain. simpl. destruct (split_last e) as [[d|] b] eqn:E; [discriminate|].
  destruct (Ascii.eqb_spec c "/") as [->|N]; [discriminate|].
  intros [= ->]. split; [exact N | reflexivity].
Qed.

Lemma plain_basename (s : string) : plain (basename s).
Proof.
  unfold basename, plain. induction s as [|c s IH]; simpl; [reflexivity|].
  destruct (split_last s) as [[d|] b] eqn:E; simpl in *.
  - exact IH.
  - destruct (Ascii.eqb_spec c "/") as [->|N]; simpl; [exact IH|].
    rewrite IH. apply Ascii.eqb_neq in N. rewrite N. reflexivity.
Qed.

Lemma plain_no_dir_prefix (e x : string) :
  plain e -> prefix (x ++ "/") e = false.
Proof.
  revert x. induction e as [|c e IH]; intros x P.
  - destruct x; reflexivity.
  - apply plain_cons_inv in P as [N P]. destruct x as [|a x]; cbn -[Ascii.eqb].
    + destruct (Ascii.eqb_spec "/" c) as [E|_]; [congruence | reflexivity].
    + rewrite (IH x P). apply andb_false_r.
Qed.

(** Whether a path lies below [dir] is decided by its directory part. *)
Lemma under_sibling (dir d e e' : string) :
  plain e -> under dir (child d e) = true -> under dir (child d e') = true.
Proof.
  unfold under, child. intros P. revert dir.
  induction d as [|c d IH]; intros dir; cbn -[Ascii.eqb].
  - destruct dir as [|a dir]; cbn -[Ascii.eqb].
    + destruct (Ascii.eqb "/" "/"); intros H; exact H.
    + destruct (Ascii.eqb a "/"); cbn -[Ascii.eqb]; [|discriminate].
      rewrite (plain_no_dir_prefix e dir P). discriminate.
  - destruct dir as [|a dir]; cbn -[Ascii.eqb].
    + destruct (Ascii.eqb "/" c); intros H; exact H.
    + destruct (Ascii.eqb a c); cbn -[Ascii.eqb]; [apply IH | discriminate].
Qed.

Lemma prefix_longer (p s : string) (c : ascii) : prefix (p ++ String c s) p = false.
Proof.
  induction p as [|x p IH]; simpl; [reflexivity|].
  rewrite IH. apply andb_false_r.
Qed.

(** No path lies below itself. *)
Lemma under_irrefl (p : string) : under p p = false.
Proof. unfold under. apply prefix_longer. Qed.

Lemma append_nonempty_neq (s : string) (c : ascii) (t : string) :
  (s ++ String c t)%string <> s.
Proof.
  induction s as [|x s IH]; simpl; [discriminate|].
  intros [= E]. exact (IH E).
Qed.

(** A suffix without a slash does not change the directory part. *)
Lemma dirname_append (p s : string) :
  plain s -> dirname (p ++ s) = dirname p \/ (p = "" /\ dirname (p ++ s) = None).
Proof.
  unfold plain, dirname. intros P.
  induction p as [|c p IH]; simpl.
  - right. rewrite P. split; reflexivity.
  - left. destruct IH as [IH | [-> IH]].
    + destruct (split_last (p ++ s)) as [[d|] b], (split_last p) as [[d'|] b'];
        simpl in *; try discriminate.
      * injection IH as ->. reflexivity.
      * destruct (Ascii.eqb c "/"); reflexivity.
    + simpl in *. rewrite P. destruct (Ascii.eqb c "/"); reflexivity.
Qed.

Lemma same_dir_append (p s : string) : plain s -> Fs.same_dir (p ++ s) p = true.
Proof.
  intros P. unfold Fs.same_dir.
  destruct (dirname_append p s P) as [E | [-> E]]; rewrite E.
  - destruct (dirname p); [apply String.eqb_refl | reflexivity].
  - reflexivity.
Qed.

End PathFacts.

Section FileFacts.
Import JsString Path Fs Spec.

Lemma read_write (t : tree) (p q content : string) :
  read (write t p content) q = if String.eqb q p then Some content else read t q.
Proof. unfold read, write. destruct (String.eqb q p); reflexivity. Qed.

Lemma read_remove (t : tree) (p q : string) :
  read (remove t p) q = if String.eqb q p then None else read t q.
Proof. unfold read, remove. destruct (String.eqb q p); reflexivity. Qed.

Lemma is_dir_write (t : tree) (p q content : string) :
  is_dir (write t p content) q = if String.eqb q p then false else is_dir t q.
Proof. unfold is_dir, write. destruct (String.eqb q p); reflexivity. Qed.

Lemma is_dir_remove (t : tree) (p q : string) :
  is_dir (remove t p) q = if String.eqb q p then false else is_dir t q.
Proof. unfold is_dir, remove. destruct (String.eqb q p); reflexivity. Qed.

Lemma write_same (t : tree) (p content : string) :
  read (write t p content) p = Some content.
Proof. rewrite read_write, String.eqb_refl. reflexivity. Qed.

Lemma write_other (t : tree) (p q content : string) :
  q <> p -> read (write t p content) q = read t q.
Proof. intros N. rewrite read_write. apply String.eqb_neq in N. rewrite N. reflexivity. Qed.

Lemma remove_same (t : tree) (p : string) : read (remove t p) p = None.
Proof. rewrite read_remove, String.eqb_refl. reflexivity. Qed.

Lemma remove_other (t : tree) (p q : string) : q <> p -> read (remove t p) q = read t q.
Proof. intros N. rewrite read_remove. apply String.eqb_neq in N. rewrite N. reflexivity. Qed.

Lemma read_is_dir (t : tree) (p content : string) :
  read t p = Some content -> is_dir t p = false.
Proof. unfold read, is_dir. destruct (t p) as [[x|]|]; [reflexivity | discriminate..]. Qed.

(** [find ... -exec cp] leaves a path as it is or puts a regular file
    where no directory was. *)
Lemma materialize_cases (t : tree) (repoPath envFile q : string) :
  materialize t repoPath envFile q = t q \/
  (is_dir t q = false /\
   exists content, materialize t repoPath envFile q = Some (File content)).
Proof.
  unfold materialize. destruct (is_dir t q) eqn:D; [left; reflexivity|].
  destruct (split_last q) as [[d|] b]; [|left; reflexivity].
  destruct (String.eqb b ".env").
  - destruct (reached repoPath (child d envFile) && _ && _); [|left; reflexivity].
    destruct (read t (child d envFile)) as [x|]; [|left; reflexivity].
    right. split; [reflexivity | exists x; reflexivity].
  - destruct (String.eqb b envFile); [|left; reflexivity].
    destruct (split_last d) as [[d'|] b']; [|left; reflexivity].
    destruct (String.eqb b' ".env" && _ && _ && _); [|left; reflexivity].
    destruct (read t (child d' envFile)) as [x|]; [|left; reflexivity].
    right. split; [reflexivity | exists x; reflexivity].
Qed.

(** It turns no directory into a file and no file into a directory. *)
Lemma is_dir_materialize (t : tree) (repoPath envFile q : string) :
  is_dir (materialize t repoPath envFile) q = is_dir t q.
Proof.
  destruct (materialize_cases t repoPath envFile q) as [E | (D & x & E)].
  - unfold is_dir. rewrite E. reflexivity.
  - rewrite D. unfold is_dir. rewrite E. reflexivity.
Qed.

(** What exists before it exists after it. *)
Lemma present_materialize (t : tree) (repoPath envFile q : string) :
  t q <> None -> materialize t repoPath envFile q <> None.
Proof.
  intros H.
  destruct (materialize_cases t repoPath envFile q) as [E | (D & x & E)];
    rewrite E; [exact H | discriminate].
Qed.

(** In the directory [find] starts from, only [.env] is written. *)
Lemma materialize_other (t : tree) (repoPath envFile name : string) :
  plain name -> name <> ".env" ->
  materialize t repoPath envFile (child repoPath name) = t (child repoPath name).
Proof.
  intros P N. unfold materialize.
  destruct (is_dir t (child repoPath name)); [reflexivity|].
  rewrite (split_last_child repoPath name P).
  apply String.eqb_neq in N. rewrite N.
  destruct (String.eqb_spec name envFile) as [<-|_]; [|reflexivity].
  destruct (split_last repoPath) as [[d'|] b'] eqn:S; [|reflexivity].
  destruct (String.eqb_spec b' ".env") as [->|_]; [|reflexivity].
  apply split_last_join in S. subst repoPath.
  assert (R : reached (child d' ".env") (child d' name) = false).
  { unfold reached. apply orb_false_iff. split.
    - apply String.eqb_neq. intros E. apply child_inj in E; [|exact P|reflexivity].
      subst name. discriminate.
    - destruct (under (child d' ".env") (child d' name)) eqn:U; [|reflexivity].
      apply (under_sibling _ _ _ ".env" P) in U.
      rewrite under_irrefl in U. discriminate. }
  rewrite R, andb_false_r. reflexivity.
Qed.


End FileFacts.

(* ------------------------------------------------------------------------ *)
(** ** The merger and the shell, step by step *)

Section MergerRun.
Import Shell Host SolutionInstall Spec EnvMerge.

Lemma parseEnvFile_run (p : string) (w : world) :
  isDirectory w p = false ->
  parseEnvFile p w = (Ret (parsedFile (files w p)), w).
Proof.
  unfold isDirectory, Fs.is_dir, parseEnvFile, bind, existsSync, gets, present,
    readFileSync, ret, files, Fs.read.
  destruct (disk w p) as [[content|]|] eqn:E; simpl; intros D;
    [rewrite E; reflexivity | discriminate | reflexivity].
Qed.

Lemma parseEnvFile_directory (p : string) (w : world) :
  isDirectory w p = true ->
  parseEnvFile p w = (Throw "EISDIR: illegal operation on a directory, read", w).
Proof.
  unfold isDirectory, Fs.is_dir, parseEnvFile, bind, existsSync, gets, present,
    readFileSync, ret.
  destruct (disk w p) as [[content|]|] eqn:E; simpl; intros D;
    [discriminate | rewrite E; reflexivity | discriminate].
Qed.

(** Every way [mergeEnvironmentFiles] can end. *)
Lemma mergeEnvironmentFiles_cases (rootPath localPath outputPath : string) (w : world) :
  let wl := logged (Merged rootPath localPath outputPath) w in
  let tempFile := (outputPath ++ ".temp")%string in
  let merged := mergeVars (parsedFile (files w rootPath))
                          (parsedFile (files w localPath)) in
  mergeEnvironmentFiles rootPath localPath outputPath w =
  if isDirectory w rootPath || isDirectory w localPath
  then (Throw "EISDIR: illegal operation on a directory, read", wl)
  else if negb (negb (isDirectory w tempFile)
                && (isFile w tempFile || parentIsDirectory w tempFile))
  then (Throw (openError w tempFile), wl)
  else if isDirectory w outputPath
  then (Throw ("EISDIR: illegal operation on a directory, rename '" ++ tempFile
               ++ "' -> '" ++ outputPath ++ "'")%string,
        with_disk (Fs.write (disk w) tempFile (envContent merged)) wl)
  else (Ret merged, afterMerge rootPath localPath outputPath w).
Proof.
  intros wl tempFile merged.
  unfold mergeEnvironmentFiles, bind at 1, modify, try_catch. fold wl.
  assert (Dl : forall p, isDirectory wl p = isDirectory w p) by reflexivity.
  destruct (isDirectory w rootPath) eqn:Dr; cbn [orb].
  { unfold bind at 1. rewrite parseEnvFile_directory by (rewrite Dl; exact Dr).
    reflexivity. }
  unfold bind at 1. rewrite parseEnvFile_run by (rewrite Dl; exact Dr).
  destruct (isDirectory w localPath) eqn:Dlo.
  { unfold bind at 1. rewrite parseEnvFile_directory by (rewrite Dl; exact Dlo).
    reflexivity. }
  unfold bind at 1. rewrite parseEnvFile_run by (rewrite Dl; exact Dlo).
  change (files wl) with (files w). fold merged. fold tempFile.
  unfold bind at 1, writeFileSync.
  change (isDirectory wl tempFile) with (isDirectory w tempFile).
  change (isFile wl tempFile) with (isFile w tempFile).
  change (parentIsDirectory wl tempFile) with (parentIsDirectory w tempFile).
  change (openError wl tempFile) with (openError w tempFile).
  destruct (negb (isDirectory w tempFile)
            && (isFile w tempFile || parentIsDirectory w tempFile)); cbn [negb];
    [|reflexivity].
  unfold bind at 1, renameSync, throw, ret.
  unfold files at 1. cbn [disk with_disk]. rewrite write_same.
  assert (N : outputPath <> tempFile).
  { unfold tempFile. intros E. symmetry in E. exact (append_nonempty_neq _ _ _ E). }
  unfold isDirectory. cbn [disk with_disk]. rewrite is_dir_write.
  apply String.eqb_neq in N. rewrite N.
  change (disk wl) with (disk w).
  destruct (Fs.is_dir (disk w) outputPath); [reflexivity|].
  unfold tempFile at 3. rewrite (same_dir_append outputPath ".temp" eq_refl).
  rewrite !orb_true_r. reflexivity.
Qed.

Lemma mergeEnvironmentFiles_run (rootPath localPath outputPath : string) (w : world) :
  mergeable rootPath localPath outputPath w = true ->
  mergeEnvironmentFiles rootPath localPath outputPath w =
  (Ret (mergeVars (parsedFile (files w rootPath)) (parsedFile (files w localPath))),
   afterMerge rootPath localPath outputPath w).
Proof.
  unfold mergeable. intros M. rewrite mergeEnvironmentFiles_cases.
  apply andb_prop in M as [M Do]. apply andb_prop in M as [M Wt].
  apply andb_prop in M as [M Dt]. apply andb_prop in M as [Dr Dl].
  apply negb_true_iff in Dr, Dl, Do. rewrite Dr, Dl, Do, Dt, Wt. reflexivity.
Qed.

(** The merge throws exactly when it cannot read its inputs or write its
    output; a missing input is no reason. *)
Lemma mergeEnvironmentFiles_throws (rootPath localPath outputPath : string) (w : world) :
  mergeable rootPath localPath outputPath w = false ->
  exists e, fst (mergeEnvironmentFiles rootPath localPath outputPath w) = Throw e.
Proof.
  unfold mergeable. intros M. rewrite mergeEnvironmentFiles_cases. cbv zeta.
  destruct (isDirectory w rootPath); [eexists; reflexivity|].
  destruct (isDirectory w localPath); [eexists; reflexivity|].
  destruct (isDirectory w (outputPath ++ ".temp")); [eexists; reflexivity|].
  destruct (isFile w (outputPath ++ ".temp") || parentIsDirectory w (outputPath ++ ".temp"));
    [|eexists; reflexivity].
  destruct (isDirectory w outputPath); [eexists; reflexivity | discriminate].
Qed.

End MergerRun.

Lemma runCommand_cases (c : Shell.command) (w : Host.world) :
  (SolutionInstall.runCommand c w = (Host.Ret "success", Spec.afterCommand c w)
   /\ fst (SolutionInstall.sh c w) = Shell.Closed 0) \/
  (exists e, SolutionInstall.runCommand c w = (Host.Throw e, Spec.afterCommand c w)
             /\ fst (SolutionInstall.sh c w) <> Shell.Closed 0).
Proof.
  unfold SolutionInstall.runCommand, Spec.afterCommand.
  destruct (SolutionInstall.sh c w) as [[code|m] fs]; simpl.
  - destruct (Z.eqb_spec code 0) as [->|N].
    + left. split; reflexivity.
    + right. eexists. split; [reflexivity|]. intros [= E]. contradiction.
  - right. eexists. split; [reflexivity|]. discriminate.
Qed.

Lemma runCommand_ok (c : Shell.command) (w : Host.world) :
  fst (SolutionInstall.sh c w) = Shell.Closed 0 ->
  SolutionInstall.runCommand c w = (Host.Ret "success", Spec.afterCommand c w).
Proof.
  intros H. destruct (runCommand_cases c w) as [[E _] | (e & _ & N)];
    [exact E | contradiction].
Qed.

Lemma runCommand_fails (c : Shell.command) (w : Host.world) (code : Z) :
  fst (SolutionInstall.sh c w) = Shell.Closed code -> code <> 0%Z ->
  SolutionInstall.runCommand c w
  = (Host.Throw ("Command failed: " ++ Shell.render c)%string, Spec.afterCommand c w).
Proof.
  intros H N. unfold SolutionInstall.runCommand, Spec.afterCommand.
  destruct (SolutionInstall.sh c w) as [r fs]. simpl in H. subst r.
  apply Z.eqb_neq in N. rewrite N. reflexivity.
Qed.

(** [git clone] ends as the host's [tools] say. *)
Lemma sh_clone_fst (b u p : string) (w : Host.world) :
  fst (SolutionInstall.sh (Shell.GitClone b u p) w)
  = Host.tools w (Host.trace w) (Shell.GitClone b u p).
Proof.
  unfold SolutionInstall.sh.
  destruct (Host.tools w (Host.trace w) (Shell.GitClone b u p)) as [code|m];
    [destruct (code =? 0)%Z|]; reflexivity.
Qed.

Lemma runCommand_world (c : Shell.command) (w : Host.world) :
  snd (SolutionInstall.runCommand c w) = Spec.afterCommand c w.
Proof.
  destruct (runCommand_cases c w) as [[E _] | (e & E & _)]; rewrite E; reflexivity.
Qed.

(** A command changes nothing of the host but the file system and the
    trace. *)
Lemma sh_keeps (c : Shell.command) (w : Host.world) :
  Host.tools (snd (SolutionInstall.sh c w)) = Host.tools w /\
  Host.remote (snd (SolutionInstall.sh c w)) = Host.remote w /\
  Host.fetched (snd (SolutionInstall.sh c w)) = Host.fetched w /\
  Host.trace (snd (SolutionInstall.sh c w)) = Host.trace w /\
  Host.events (snd (SolutionInstall.sh c w)) = Host.events w /\
  Host.ended (snd (SolutionInstall.sh c w)) = Host.ended w.
Proof.
  destruct c; cbn [SolutionInstall.sh];
    repeat match goal with
           | |- context [match ?x with _ => _ end] => destruct x
           | |- context [if ?b then _ else _] => destruct b
           | |- context [SolutionInstall.copy] => unfold SolutionInstall.copy
           end; repeat split.
Qed.

(** Composition of computations that respect a preorder on worlds. *)
Section Respects.
Import Shell Host SolutionInstall Spec.
Variable R : world -> world -> Prop.
Hypothesis R_refl : forall w, R w w.
Hypothesis R_trans : forall a b c, R a b -> R b c -> R a c.

Lemma respects_ret {A} (a : A) : respects R (ret a).
Proof. intros w. apply R_refl. Qed.

Lemma respects_throw {A} (e : string) : respects R (@throw A e).
Proof. intros w. apply R_refl. Qed.

Lemma respects_gets {A} (f : world -> A) : respects R (gets f).
Proof. intros w. apply R_refl. Qed.

Lemma respects_modify (f : world -> world) :
  (forall w, R w (f w)) -> respects R (modify f).
Proof. intros H w. apply H. Qed.

Lemma respects_bind {A B} (m : M A) (k : A -> M B) :
  respects R m -> (forall a, respects R (k a)) -> respects R (bind m k).
Proof.
  intros Hm Hk w. unfold bind. specialize (Hm w).
  destruct (m w) as [[a|e] w1]; simpl in *.
  - eapply R_trans; [exact Hm | apply Hk].
  - exact Hm.
Qed.

Lemma respects_try_catch {A} (m : M A) (h : string -> M A) :
  respects R m -> (forall e, respects R (h e)) -> respects R (try_catch m h).
Proof.
  intros Hm Hh w. unfold try_catch. specialize (Hm w).
  destruct (m w) as [[a|e] w1]; simpl in *.
  - exact Hm.
  - eapply R_trans; [exact Hm | apply Hh].
Qed.

Lemma respects_for_each {A} (xs : list A) (body : A -> M unit) :
  (forall x, respects R (body x)) -> respects R (for_each xs body).
Proof.
  intros H. induction xs as [|x xs IH]; simpl.
  - apply respects_ret.
  - apply respects_bind; [apply H | intros _; exact IH].
Qed.

Lemma respects_runCommand (c : command) :
  (forall w, R w (afterCommand c w)) -> respects R (runCommand c).
Proof. intros H w. rewrite runCommand_world. apply H. Qed.

(** The merger enters itself in the trace and changes files. *)
Lemma respects_merge (rootPath localPath outputPath : string) :
  (forall w, R w (logged (Merged rootPath localPath outputPath) w)) ->
  (forall w t, R w (with_disk t w)) ->
  respects R (mergeEnvironmentFiles rootPath localPath outputPath).
Proof.
  intros Hl Hd w. rewrite mergeEnvironmentFiles_cases. cbv zeta.
  repeat match goal with
         | |- context [if ?b then _ else _] => destruct b
         end; cbn [snd]; try apply Hl;
    (eapply R_trans; [apply Hl | apply Hd]).
Qed.

End Respects.

(* ------------------------------------------------------------------------ *)
(** ** What the installer leaves alone *)

Ltac compose_respects rf tr side :=
  repeat first
    [ assumption
    | apply respects_runCommand; side
    | apply (respects_merge _ tr); side
    | apply respects_modify; side
    | apply (respects_ret _ rf)
    | apply (respects_throw _ rf)
    | apply (respects_gets _ rf)
    | apply (respects_for_each _ rf tr)
    | apply (respects_bind _ tr)
    | apply (respects_try_catch _ tr)
    | match goal with
      | |- forall _, _ => intro
      | |- Spec.respects _ (if ?b then _ else _) => destruct b
      | |- Spec.respects _ (match ?x with _ => _ end) => destruct x
      end ].

Section StreamKept.
Import Shell Host Catalog SolutionInstall Spec.

Lemma same_stream_refl (w : world) : same_stream w w.
Proof. split; reflexivity. Qed.

Lemma same_stream_trans (a b c : world) :
  same_stream a b -> same_stream b c -> same_stream a c.
Proof. intros [E1 E2] [E3 E4]. split; congruence. Qed.

Lemma same_stream_command (c : command) (w : world) : same_stream w (afterCommand c w).
Proof.
  destruct (sh_keeps c w) as (_ & _ & _ & _ & Ev & En).
  split; [exact Ev | exact En].
Qed.

Ltac stream_side :=
  first [ intro; apply same_stream_command | intros; split; reflexivity ].
Ltac keeps_stream := compose_respects same_stream_refl same_stream_trans stream_side.

Lemma installDockerService_stream (c : config) (repoPath : string) :
  respects same_stream (installDockerService c repoPath).
Proof. unfold installDockerService. keeps_stream. Qed.

Lemma composeBranch_stream (repoPath : string) :
  respects same_stream (composeBranch repoPath).
Proof.
  unfold composeBranch, isDockerComposeAvailable, installDockerCompose.
  keeps_stream.
Qed.

Lemma installDockerComposeService_stream (c : config) (repoPath : string) :
  respects same_stream (installDockerComposeService c repoPath).
Proof.
  pose proof (installDockerService_stream c repoPath).
  pose proof (composeBranch_stream repoPath).
  unfold installDockerComposeService, detectRepoStructure. keeps_stream.
Qed.

(** [installWithProgress] never touches the response it is handed. *)
Lemma installWithProgress_stream (solutionType : option string) :
  respects same_stream (installWithProgress solutionType).
Proof.
  unfold installWithProgress, cleanupExistingContainers, handleError.
  repeat first
    [ apply installDockerService_stream
    | apply installDockerComposeService_stream
    | progress keeps_stream ].
Qed.

End StreamKept.

Section TraceGrows.
Import Shell Host Catalog SolutionInstall Spec.
Variable P : command -> bool.

Lemma grows_refl (w : world) : grows P w w.
Proof. exists []. split; [symmetry; apply app_nil_r | reflexivity]. Qed.

Lemma grows_trans (a b c : world) : grows P a b -> grows P b c -> grows P a c.
Proof.
  intros (l1 & E1 & F1) (l2 & E2 & F2). exists (l1 ++ l2). split.
  - rewrite E2, E1, app_assoc. reflexivity.
  - rewrite forallb_app, F1, F2. reflexivity.
Qed.

Lemma grows_command (c : command) (w : world) :
  P c = true -> grows P w (afterCommand c w).
Proof.
  intros H. exists [Ran c]. split.
  - unfold afterCommand. cbn [trace logged].
    rewrite (proj1 (proj2 (proj2 (proj2 (sh_keeps c w))))). reflexivity.
  - simpl. rewrite H. reflexivity.
Qed.

Lemma grows_merged (rootPath localPath outputPath : string) (w : world) :
  grows P w (logged (Merged rootPath localPath outputPath) w).
Proof. exists [Merged rootPath localPath outputPath]. split; reflexivity. Qed.

Lemma grows_disk (t : Fs.tree) (w : world) : grows P w (with_disk t w).
Proof. exists []. split; [symmetry; apply app_nil_r | reflexivity]. Qed.

Lemma grows_merge (rootPath localPath outputPath : string) (w : world) :
  grows P w (afterMerge rootPath localPath outputPath w).
Proof. exists [Merged rootPath localPath outputPath]. split; reflexivity. Qed.

End TraceGrows.

Section PathsTaken.
Import Shell Host Catalog SolutionInstall Spec.

Ltac grows_side := first [ intro; apply grows_command; reflexivity
                         | intro; apply grows_merged
                         | intros; apply grows_disk ].

(** The compose branch issues no command of the single-container path. *)
Lemma composeBranch_grows (repoPath : string) :
  respects (grows (fun c => negb (isSingleCommand c))) (composeBranch repoPath).
Proof.
  unfold composeBranch, isDockerComposeAvailable, installDockerCompose.
  compose_respects (grows_refl (fun c => negb (isSingleCommand c)))
                   (grows_trans (fun c => negb (isSingleCommand c))) grows_side.
Qed.

(** The single-container install never calls the composition tool. *)
Lemma installDockerService_grows (c : config) (repoPath : string) :
  respects (grows (fun c => negb (isComposeCommand c))) (installDockerService c repoPath).
Proof.
  unfold installDockerService.
  compose_respects (grows_refl (fun c => negb (isComposeCommand c)))
                   (grows_trans (fun c => negb (isComposeCommand c))) grows_side.
Qed.

End PathsTaken.

(* ------------------------------------------------------------------------ *)
(** ** Steps of the installer *)

Section HostFacts.
Import JsString JsObject EnvMerge Path Shell Host Catalog SolutionInstall Spec.

Lemma files_with_disk (t : Fs.tree) (w : world) : files (with_disk t w) = Fs.read t.
Proof. reflexivity. Qed.

Lemma files_logged (a : action) (w : world) : files (logged a w) = files w.
Proof. reflexivity. Qed.

Lemma isDirectory_logged (a : action) (w : world) (q : string) :
  isDirectory (logged a w) q = isDirectory w q.
Proof. reflexivity. Qed.

Lemma isDirectory_write (w : world) (p q content : string) :
  isDirectory (with_disk (Fs.write (disk w) p content) w) q
  = if String.eqb q p then false else isDirectory w q.
Proof. unfold isDirectory. cbn [disk with_disk]. apply is_dir_write. Qed.

Lemma isDirectory_remove (w : world) (p q : string) :
  isDirectory (with_disk (Fs.remove (disk w) p) w) q
  = if String.eqb q p then false else isDirectory w q.
Proof. unfold isDirectory. cbn [disk with_disk]. apply is_dir_remove. Qed.

Lemma files_isDirectory (w : world) (p content : string) :
  files w p = Some content -> isDirectory w p = false.
Proof. apply read_is_dir. Qed.

Lemma isDirectory_present (w : world) (p : string) :
  isDirectory w p = true -> present w p = true.
Proof.
  unfold isDirectory, Fs.is_dir, present.
  destruct (disk w p); [reflexivity | discriminate].
Qed.

Lemma files_present (w : world) (p content : string) :
  files w p = Some content -> present w p = true.
Proof.
  unfold files, Fs.read, present.
  destruct (disk w p); [reflexivity | discriminate].
Qed.

Lemma child_neq_dir (dir name : string) : child dir name <> dir.
Proof. unfold child. apply append_nonempty_neq. Qed.

Lemma temp_not_local (repoPath : string) :
  String.eqb (tempEnvPath repoPath) (localEnvPath repoPath) = false.
Proof.
  apply String.eqb_neq. intros E.
  apply child_inj in E; [discriminate | reflexivity | reflexivity].
Qed.

Lemma temp_temp (repoPath : string) :
  (tempEnvPath repoPath ++ ".temp")%string = child repoPath ".env.temp.temp".
Proof. unfold tempEnvPath. rewrite child_append. reflexivity. Qed.

(** The paths of the installer in the repository are not the output path
    of the download. *)
Lemma child_not_tool (repoPath name : string) :
  plain name -> name <> "docker-compose" -> child repoPath name <> composeToolPath.
Proof.
  intros P N E. apply N. rewrite <- (basename_child repoPath name P), E. reflexivity.
Qed.

(** The host after [find ... -exec cp]. *)
Lemma disk_after_materialize (r e : string) (w : world) :
  disk (afterCommand (MaterializeEnv r e) w)
  = if present w r then Fs.materialize (disk w) r e else disk w.
Proof.
  unfold afterCommand. cbn [sh]. destruct (present w r); reflexivity.
Qed.

Lemma isDirectory_after_materialize (r e q : string) (w : world) :
  isDirectory (afterCommand (MaterializeEnv r e) w) q = isDirectory w q.
Proof.
  unfold isDirectory. rewrite disk_after_materialize.
  destruct (present w r); [apply is_dir_materialize | reflexivity].
Qed.

Lemma materialize_run (r e : string) (w : world) :
  present w r = true ->
  runCommand (MaterializeEnv r e) w
  = (Ret "success", afterCommand (MaterializeEnv r e) w).
Proof. intros P. apply runCommand_ok. cbn [sh]. rewrite P. reflexivity. Qed.

Lemma materialize_fails (r e : string) (w : world) :
  present w r = false ->
  runCommand (MaterializeEnv r e) w
  = (Throw ("Command failed: " ++ render (MaterializeEnv r e))%string,
     afterCommand (MaterializeEnv r e) w).
Proof.
  intros P. apply (runCommand_fails _ _ 1%Z); [|discriminate].
  cbn [sh]. rewrite P. reflexivity.
Qed.



(** The host after a merge that returned. *)
Lemma files_afterMerge_output (rootPath localPath outputPath : string) (w : world) :
  files (afterMerge rootPath localPath outputPath w) outputPath
  = Some (envContent (mergeVars (parsedFile (files w rootPath))
                                (parsedFile (files w localPath)))).
Proof. unfold afterMerge. rewrite files_with_disk. apply write_same. Qed.

Lemma files_afterMerge_other (rootPath localPath outputPath q : string) (w : world) :
  q <> outputPath -> q <> (outputPath ++ ".temp")%string ->
  files (afterMerge rootPath localPath outputPath w) q = files w q.
Proof.
  intros N1 N2. unfold afterMerge. rewrite files_with_disk.
  rewrite write_other, remove_other, write_other by assumption. reflexivity.
Qed.

Lemma disk_afterMerge_other (rootPath localPath outputPath q : string) (w : world) :
  q <> outputPath -> q <> (outputPath ++ ".temp")%string ->
  disk (afterMerge rootPath localPath outputPath w) q = disk w q.
Proof.
  intros N1 N2. unfold afterMerge. cbn [disk with_disk logged].
  unfold Fs.write, Fs.remove.
  apply String.eqb_neq in N1, N2. rewrite N1, N2. reflexivity.
Qed.

Lemma isDirectory_afterMerge (rootPath localPath outputPath q : string) (w : world) :
  isDirectory (afterMerge rootPath localPath outputPath w) q
  = if String.eqb q outputPath || String.eqb q (outputPath ++ ".temp")
    then false else isDirectory w q.
Proof.
  unfold afterMerge, isDirectory. cbn [disk with_disk logged].
  rewrite is_dir_write, is_dir_remove, is_dir_write.
  destruct (String.eqb q outputPath), (String.eqb q (outputPath ++ ".temp")); reflexivity.
Qed.

(** Copying the scratch file over [.env] succeeds when the scratch file is
    there and [.env] is no directory. *)
Lemma copy_scratch_ok (repoPath content : string) (w : world) :
  files w (tempEnvPath repoPath) = Some content ->
  isDirectory w (localEnvPath repoPath) = false ->
  runCommand (Cp (tempEnvPath repoPath) (localEnvPath repoPath)) w
  = (Ret "success",
     logged (Ran (Cp (tempEnvPath repoPath) (localEnvPath repoPath)))
            (with_disk (Fs.write (disk w) (localEnvPath repoPath) content) w)) /\
  afterCommand (Cp (tempEnvPath repoPath) (localEnvPath repoPath)) w
  = logged (Ran (Cp (tempEnvPath repoPath) (localEnvPath repoPath)))
           (with_disk (Fs.write (disk w) (localEnvPath repoPath) content) w).
Proof.
  intros E D.
  assert (S : sh (Cp (tempEnvPath repoPath) (localEnvPath repoPath)) w
              = (Closed 0, with_disk (Fs.write (disk w) (localEnvPath repoPath) content) w)).
  { cbn [sh]. rewrite E. unfold copy. rewrite D, temp_not_local.
    assert (Sd : Fs.same_dir (tempEnvPath repoPath) (localEnvPath repoPath) = true).
    { unfold Fs.same_dir, dirname, tempEnvPath, localEnvPath.
      rewrite !split_last_child by reflexivity. apply String.eqb_refl. }
    rewrite Sd, orb_true_r. reflexivity. }
  split.
  - unfold runCommand. rewrite S. reflexivity.
  - unfold afterCommand. rewrite S. reflexivity.
Qed.

(** Removing the scratch file succeeds unless a directory sits there. *)
Lemma remove_scratch_ok (p : string) (w : world) :
  isDirectory w p = false ->
  runCommand (RmF p) w
  = (Ret "success", logged (Ran (RmF p)) (with_disk (Fs.remove (disk w) p) w)) /\
  afterCommand (RmF p) w = logged (Ran (RmF p)) (with_disk (Fs.remove (disk w) p) w).
Proof.
  intros D. unfold runCommand, afterCommand. cbn [sh]. rewrite D. split; reflexivity.
Qed.

(** What [installable] gives. *)
Lemma installable_inv (repoPath : string) (w : world) :
  installable repoPath w = true ->
  isDirectory w repoPath = true /\
  isDirectory w rootEnvPath = false /\
  isDirectory w (localEnvPath repoPath) = false /\
  isDirectory w (tempEnvPath repoPath) = false /\
  isDirectory w (tempEnvPath repoPath ++ ".temp") = false.
Proof.
  unfold installable. intros H.
  apply andb_prop in H as [H H5]. apply andb_prop in H as [H H4].
  apply andb_prop in H as [H H3]. apply andb_prop in H as [H1 H2].
  apply negb_true_iff in H2, H3, H4, H5. repeat split; assumption.
Qed.

Lemma installable_intro (repoPath : string) (w : world) :
  isDirectory w repoPath = true ->
  isDirectory w rootEnvPath = false ->
  isDirectory w (localEnvPath repoPath) = false ->
  isDirectory w (tempEnvPath repoPath) = false ->
  isDirectory w (tempEnvPath repoPath ++ ".temp") = false ->
  installable repoPath w = true.
Proof.
  unfold installable. intros -> -> -> -> ->. reflexivity.
Qed.

(** What is no directory stays none, and the repository stays one: the
    host stays installable. *)
Lemma installable_kept (repoPath : string) (w w' : world) :
  isDirectory w' repoPath = true ->
  (forall q, isDirectory w q = false -> isDirectory w' q = false) ->
  installable repoPath w = true -> installable repoPath w' = true.
Proof.
  intros Hr Hq H. apply installable_inv in H as (_ & H2 & H3 & H4 & H5).
  apply installable_intro; auto.
Qed.

Lemma installable_mergeable (repoPath : string) (w : world) :
  installable repoPath w = true ->
  mergeable rootEnvPath (localEnvPath repoPath) (tempEnvPath repoPath) w = true.
Proof.
  intros H. apply installable_inv in H as (H1 & H2 & H3 & H4 & H5).
  unfold mergeable. rewrite H2, H3, H4, H5. cbn [negb andb].
  assert (P : parentIsDirectory w (tempEnvPath repoPath ++ ".temp") = true).
  { unfold parentIsDirectory, Fs.parent_is_dir. rewrite temp_temp.
    rewrite split_last_child by reflexivity.
    fold (isDirectory w repoPath). rewrite H1. apply orb_true_r. }
  rewrite P, orb_true_r. reflexivity.
Qed.

Lemma installable_after_materialize (repoPath r e : string) (w : world) :
  installable repoPath (afterCommand (MaterializeEnv r e) w) = installable repoPath w.
Proof. unfold installable. rewrite !isDirectory_after_materialize. reflexivity. Qed.

Lemma installable_afterMerge (repoPath : string) (w : world) :
  installable repoPath w = true ->
  installable repoPath
    (afterMerge rootEnvPath (localEnvPath repoPath) (tempEnvPath repoPath) w) = true.
Proof.
  intros H. apply (installable_kept repoPath w); [| |exact H].
  - rewrite isDirectory_afterMerge.
    assert (N1 : String.eqb repoPath (tempEnvPath repoPath) = false).
    { apply String.eqb_neq. intros E. symmetry in E. exact (child_neq_dir _ _ E). }
    assert (N2 : String.eqb repoPath (tempEnvPath repoPath ++ ".temp") = false).
    { rewrite temp_temp. apply String.eqb_neq. intros E. symmetry in E.
      exact (child_neq_dir _ _ E). }
    rewrite N1, N2. apply installable_inv in H. apply H.
  - intros q D. rewrite isDirectory_afterMerge, D.
    destruct (_ || _); reflexivity.
Qed.

Lemma installable_after_copy (repoPath content : string) (w : world) :
  installable repoPath w = true ->
  installable repoPath
    (logged (Ran (Cp (tempEnvPath repoPath) (localEnvPath repoPath)))
            (with_disk (Fs.write (disk w) (localEnvPath repoPath) content) w)) = true.
Proof.
  intros H. apply (installable_kept repoPath w); [| |exact H].
  - rewrite isDirectory_logged, isDirectory_write.
    assert (N : String.eqb repoPath (localEnvPath repoPath) = false).
    { apply String.eqb_neq. intros E. symmetry in E. exact (child_neq_dir _ _ E). }
    rewrite N. apply installable_inv in H. apply H.
  - intros q D. rewrite isDirectory_logged, isDirectory_write, D.
    destruct (String.eqb q _); reflexivity.
Qed.

End HostFacts.

Section InstallerSteps.
Import JsString JsObject EnvMerge Path Shell Host Catalog SolutionInstall Spec Behaviour.

Lemma runCommand_ret_inv (c : command) (w w' : world) (a : string) :
  runCommand c w = (Ret a, w') ->
  w' = afterCommand c w /\ fst (sh c w) = Closed 0.
Proof.
  intros E. destruct (runCommand_cases c w) as [[E' S] | (e & E' & _)];
    rewrite E' in E; inversion E; subst; split; [reflexivity | exact S].
Qed.

Lemma runCommand_settled (c : command) (w : world) :
  runCommand c w
  = (match settled c (fst (sh c w)) with
     | Ret _ => Ret "success"
     | Throw e => Throw e
     end, afterCommand c w).
Proof.
  unfold runCommand, afterCommand, settled.
  destruct (sh c w) as [[code|m] fs]; cbn [fst snd]; [|reflexivity].
  destruct (code =? 0)%Z; reflexivity.
Qed.

Lemma settled_exitedZero (c : command) (r : proc) :
  exitedZero r = true -> settled c r = Ret tt.
Proof.
  destruct r as [code|m]; simpl; [|discriminate]. intros E. rewrite E. reflexivity.
Qed.

Lemma settled_failed (c : command) (r : proc) :
  exitedZero r = false -> exists e, settled c r = Throw e.
Proof.
  destruct r as [code|m]; simpl; [intros E; rewrite E|]; eexists; reflexivity.
Qed.


(** The two probes for the composition tool. *)
Lemma isDockerComposeAvailable_run (w : world) :
  isDockerComposeAvailable w = (Ret (toolFound w), afterProbes w) /\
  trace (afterProbes w)
  = trace w ++ (if exitedZero (tools w (trace w) ComposeVersionV1)
                then [Ran ComposeVersionV1]
                else [Ran ComposeVersionV1; Ran ComposeVersionV2]).
Proof.
  unfold isDockerComposeAvailable, try_catch, bind, toolFound, afterProbes.
  rewrite runCommand_settled. cbn [sh fst].
  destruct (exitedZero (tools w (trace w) ComposeVersionV1)) eqn:E1.
  - rewrite (settled_exitedZero _ _ E1). split; reflexivity.
  - destruct (settled_failed ComposeVersionV1 _ E1) as [e1 S1]. rewrite S1.
    rewrite runCommand_settled. cbn [sh fst afterCommand tools trace logged snd].
    destruct (exitedZero (tools w (trace w ++ [Ran ComposeVersionV1]) ComposeVersionV2))
      eqn:E2.
    + rewrite (settled_exitedZero _ _ E2). split; [reflexivity|].
      rewrite <- app_assoc. reflexivity.
    + destruct (settled_failed ComposeVersionV2 _ E2) as [e2 S2]. rewrite S2.
      split; [reflexivity|]. rewrite <- app_assoc. reflexivity.
Qed.

Lemma afterProbes_keeps (w : world) :
  disk (afterProbes w) = disk w /\ tools (afterProbes w) = tools w /\
  fetched (afterProbes w) = fetched w /\
  events (afterProbes w) = events w /\ ended (afterProbes w) = ended w.
Proof. unfold afterProbes. destruct (exitedZero _); repeat split. Qed.

(** Whatever the download does, [installDockerCompose] returns. *)
Lemma installDockerCompose_run (w : world) :
  installDockerCompose w = (Ret tt, afterCommand InstallCompose w).
Proof.
  unfold installDockerCompose, try_catch, bind. rewrite runCommand_settled.
  destruct (settled InstallCompose (fst (sh InstallCompose w))); reflexivity.
Qed.

(** The download writes, if anything, the one file it names, and never
    over a directory. *)
Lemma disk_after_download (w : world) (q : string) :
  q <> composeToolPath -> disk (afterCommand InstallCompose w) q = disk w q.
Proof.
  intros N. unfold afterCommand. cbn [sh snd disk logged].
  destruct (fetched w (trace w)); [|reflexivity].
  destruct (isDirectory w composeToolPath); [reflexivity|].
  cbn [disk with_disk]. unfold Fs.write.
  apply String.eqb_neq in N. rewrite N. reflexivity.
Qed.

Lemma isDirectory_after_download (w : world) (q : string) :
  isDirectory (afterCommand InstallCompose w) q = isDirectory w q.
Proof.
  unfold afterCommand. cbn [sh snd]. rewrite isDirectory_logged.
  destruct (fetched w (trace w)); [|reflexivity].
  destruct (isDirectory w composeToolPath) eqn:D; [reflexivity|].
  rewrite isDirectory_write.
  destruct (String.eqb_spec q composeToolPath) as [->|_]; [symmetry; exact D | reflexivity].
Qed.

(** The host when the compose branch is about to copy the scratch file:
    probes done, tool installation attempted if they failed. *)
Lemma before_copy_keeps (w : world) (q : string) :
  let wi := if toolFound w then afterProbes w
            else afterCommand InstallCompose (afterProbes w) in
  (q <> composeToolPath -> disk wi q = disk w q) /\
  isDirectory wi q = isDirectory w q /\
  tools wi = tools w /\
  trace wi = trace w
             ++ (if exitedZero (tools w (trace w) ComposeVersionV1)
                 then [Ran ComposeVersionV1]
                 else [Ran ComposeVersionV1; Ran ComposeVersionV2])
             ++ (if toolFound w then [] else [Ran InstallCompose]).
Proof.
  destruct (afterProbes_keeps w) as (Dp & Tp & _).
  pose proof (proj2 (isDockerComposeAvailable_run w)) as Trp.
  destruct (toolFound w); cbv zeta.
  - rewrite Dp, Tp, Trp, app_nil_r. unfold isDirectory. rewrite Dp. repeat split.
  - split; [intros N; rewrite disk_after_download by exact N; rewrite Dp; reflexivity|].
    split; [rewrite isDirectory_after_download; unfold isDirectory; rewrite Dp; reflexivity|].
    split.
    + unfold afterCommand. cbn [tools logged].
      rewrite (proj1 (sh_keeps InstallCompose (afterProbes w))). exact Tp.
    + unfold afterCommand. cbn [trace logged].
      rewrite (proj1 (proj2 (proj2 (proj2 (sh_keeps InstallCompose (afterProbes w)))))).
      rewrite Trp, <- app_assoc. reflexivity.
Qed.

(** The head of the compose branch: after the probes, the tool installation
    when they failed (whatever its outcome), and the copy of the scratch file
    over [.env], the branch hands over to [docker-compose up]. *)
Lemma composeBranch_head (repoPath content : string) (w : world) :
  files w (tempEnvPath repoPath) = Some content ->
  isDirectory w (localEnvPath repoPath) = false ->
  composeBranch repoPath w
  = (runCommand (ComposeUp repoPath) ;; runCommand (RmF (tempEnvPath repoPath)) ;; ret tt)%js
      (beforeComposeUp repoPath w) /\
  files (beforeComposeUp repoPath w) (localEnvPath repoPath) = Some content /\
  files (beforeComposeUp repoPath w) (tempEnvPath repoPath) = Some content /\
  tools (beforeComposeUp repoPath w) = tools w /\
  trace (beforeComposeUp repoPath w)
  = trace w
    ++ (if exitedZero (tools w (trace w) ComposeVersionV1)
        then [Ran ComposeVersionV1]
        else [Ran ComposeVersionV1; Ran ComposeVersionV2])
    ++ (if toolFound w then [] else [Ran InstallCompose])
    ++ [Ran (Cp (tempEnvPath repoPath) (localEnvPath repoPath))].
Proof.
  intros F D. unfold composeBranch, beforeComposeUp.
  rewrite (bind_run _ _ _ _ _ (proj1 (isDockerComposeAvailable_run w))).
  set (wi := if toolFound w then afterProbes w
             else afterCommand InstallCompose (afterProbes w)).
  assert (S2 : (if negb (toolFound w) then installDockerCompose else ret tt) (afterProbes w)
               = (Ret tt, wi)).
  { unfold wi. destruct (toolFound w); cbn [negb];
      [reflexivity | apply installDockerCompose_run]. }
  rewrite (bind_run _ _ _ _ _ S2).
  assert (NT : tempEnvPath repoPath <> composeToolPath)
    by (apply child_not_tool; [reflexivity | discriminate]).
  destruct (before_copy_keeps w (tempEnvPath repoPath)) as (K1 & _ & K3 & K4).
  destruct (before_copy_keeps w (localEnvPath repoPath)) as (_ & K2 & _).
  fold wi in K1, K2, K3, K4.
  assert (F' : files wi (tempEnvPath repoPath) = Some content).
  { unfold files, Fs.read. rewrite (K1 NT). exact F. }
  assert (D' : isDirectory wi (localEnvPath repoPath) = false) by (rewrite K2; exact D).
  destruct (copy_scratch_ok repoPath content wi F' D') as [C1 C2].
  rewrite (bind_run _ _ _ _ _ C1), C2.
  split; [reflexivity|].
  split; [rewrite files_logged, files_with_disk; apply write_same|].
  split.
  { rewrite files_logged, files_with_disk, write_other; [exact F'|].
    apply String.eqb_neq. apply temp_not_local. }
  split; [exact K3|].
  cbn [trace logged with_disk]. rewrite K4. repeat rewrite <- app_assoc. reflexivity.
Qed.

(** The rest of the compose branch once the merged file is in place. *)
Lemma compose_up_run (repoPath : string) (w : world) :
  isDirectory w (tempEnvPath repoPath) = false ->
  (runCommand (ComposeUp repoPath) ;; runCommand (RmF (tempEnvPath repoPath)) ;; ret tt)%js w
  = (settled (ComposeUp repoPath) (tools w (trace w) (ComposeUp repoPath)),
     match settled (ComposeUp repoPath) (tools w (trace w) (ComposeUp repoPath)) with
     | Ret _ =>
         logged (Ran (RmF (tempEnvPath repoPath)))
                (with_disk (Fs.remove (disk w) (tempEnvPath repoPath))
                           (logged (Ran (ComposeUp repoPath)) w))
     | Throw _ => logged (Ran (ComposeUp repoPath)) w
     end).
Proof.
  intros D. unfold bind at 1. rewrite runCommand_settled. cbn [sh fst].
  change (afterCommand (ComposeUp repoPath) w) with (logged (Ran (ComposeUp repoPath)) w).
  destruct (settled (ComposeUp repoPath) (tools w (trace w) (ComposeUp repoPath)))
    as [[]|e]; [|reflexivity].
  unfold bind at 1.
  rewrite (proj1 (remove_scratch_ok (tempEnvPath repoPath)
                    (logged (Ran (ComposeUp repoPath)) w) D)).
  reflexivity.
Qed.

End InstallerSteps.

Section ComposedInstall.
Import JsString JsObject EnvMerge Path Shell Host Catalog SolutionInstall Spec Behaviour.

Lemma mergeEnvironmentFiles_ret_inv
    (rootPath localPath outputPath : string) (w w' : world) (m : obj) :
  mergeEnvironmentFiles rootPath localPath outputPath w = (Ret m, w') ->
  mergeable rootPath localPath outputPath w = true /\
  m = mergeVars (parsedFile (files w rootPath)) (parsedFile (files w localPath)) /\
  w' = afterMerge rootPath localPath outputPath w.
Proof.
  intros E. destruct (mergeable rootPath localPath outputPath w) eqn:M.
  - rewrite (mergeEnvironmentFiles_run _ _ _ _ M) in E. inversion E. repeat split.
  - destruct (mergeEnvironmentFiles_throws _ _ _ _ M) as [e T].
    rewrite E in T. discriminate.
Qed.

Lemma composedTemplate_step (c : config) (repoPath : string) :
  (if truthy (envFile c)
   then runCommand (MaterializeEnv repoPath (interp (envFile c)))
   else runCommand (MaterializeEnv repoPath ".env.example"))
  = runCommand (MaterializeEnv repoPath (composedTemplate c)).
Proof. unfold composedTemplate. destruct (truthy (envFile c)); reflexivity. Qed.

Lemma firstExisting_ext (w1 w2 : world) (repoPath : string) (names : list string) :
  (forall n, In n names -> present w1 (child repoPath n) = present w2 (child repoPath n)) ->
  firstExisting w1 repoPath names = firstExisting w2 repoPath names.
Proof.
  induction names as [|n names IH]; intros H; simpl; [reflexivity|].
  rewrite (H n (or_introl eq_refl)).
  destruct (present w2 (child repoPath n)); [reflexivity|].
  apply IH. intros m I. apply H. right. exact I.
Qed.

Lemma firstExisting_find (w : world) (repoPath : string) (names : list string) :
  firstExisting w repoPath names
  = find (fun name => present w (child repoPath name)) names.
Proof.
  induction names as [|n names IH]; simpl; [reflexivity|].
  destruct (present w (child repoPath n)); [reflexivity | exact IH].
Qed.

Lemma composeFiles_plain (n : string) :
  In n ("Dockerfile" :: composeFiles) ->
  plain n /\ n <> ".env" /\ n <> ".env.temp" /\ n <> ".env.temp.temp".
Proof.
  simpl. intros H.
  repeat (destruct H as [<-|H]; [repeat split; discriminate|]).
  contradiction.
Qed.

(** The preparation of a composed install writes [.env], the scratch file
    and the temporary file of the merge, and nothing else in the root of
    the repository. *)
Lemma disk_afterPrelude (c : config) (repoPath name : string) (w : world) :
  plain name -> name <> ".env" -> name <> ".env.temp" -> name <> ".env.temp.temp" ->
  disk (afterPrelude c repoPath w) (child repoPath name) = disk w (child repoPath name).
Proof.
  intros P N1 N2 N3. unfold afterPrelude.
  rewrite disk_afterMerge_other.
  - rewrite disk_after_materialize. destruct (present w repoPath); [|reflexivity].
    apply materialize_other; assumption.
  - intros E. apply child_inj in E; [contradiction | exact P | reflexivity].
  - rewrite temp_temp. intros E.
    apply child_inj in E; [contradiction | exact P | reflexivity].
Qed.

Lemma present_afterPrelude (c : config) (repoPath name : string) (w : world) :
  plain name -> name <> ".env" -> name <> ".env.temp" -> name <> ".env.temp.temp" ->
  present (afterPrelude c repoPath w) (child repoPath name)
  = present w (child repoPath name).
Proof.
  intros P N1 N2 N3. unfold present. rewrite disk_afterPrelude by assumption.
  reflexivity.
Qed.

Lemma files_afterPrelude (c : config) (repoPath name : string) (w : world) :
  plain name -> name <> ".env" -> name <> ".env.temp" -> name <> ".env.temp.temp" ->
  files (afterPrelude c repoPath w) (child repoPath name) = files w (child repoPath name).
Proof.
  intros P N1 N2 N3. unfold files, Fs.read. rewrite disk_afterPrelude by assumption.
  reflexivity.
Qed.

Lemma trace_afterPrelude (c : config) (repoPath : string) (w : world) :
  trace (afterPrelude c repoPath w)
  = trace w ++ [ Ran (MaterializeEnv repoPath (composedTemplate c));
                 Merged rootEnvPath (localEnvPath repoPath) (tempEnvPath repoPath) ].
Proof.
  unfold afterPrelude, afterMerge, afterCommand. cbn [trace with_disk logged].
  rewrite (proj1 (proj2 (proj2 (proj2 (sh_keeps _ w))))).
  rewrite <- app_assoc. reflexivity.
Qed.

Lemma tools_afterPrelude (c : config) (repoPath : string) (w : world) :
  tools (afterPrelude c repoPath w) = tools w.
Proof.
  unfold afterPrelude, afterMerge, afterCommand. cbn [tools with_disk logged].
  apply (proj1 (sh_keeps _ w)).
Qed.

Lemma installable_afterPrelude (c : config) (repoPath : string) (w : world) :
  installable repoPath w = true -> installable repoPath (afterPrelude c repoPath w) = true.
Proof.
  intros H. unfold afterPrelude. apply installable_afterMerge.
  rewrite installable_after_materialize. exact H.
Qed.

(** Every way a composed install can go. *)
Lemma installDockerComposeService_general (c : config) (repoPath : string) (w : world) :
  let w1 := afterCommand (MaterializeEnv repoPath (composedTemplate c)) w in
  let wp := afterPrelude c repoPath w in
  let merge := mergeEnvironmentFiles rootEnvPath (localEnvPath repoPath)
                                     (tempEnvPath repoPath) w1 in
  installDockerComposeService c repoPath w =
  if present w repoPath then
    if mergeable rootEnvPath (localEnvPath repoPath) (tempEnvPath repoPath) w1
    then match firstExisting w repoPath composeFiles with
         | Some _ => composeBranch repoPath wp
         | None =>
             if present w (child repoPath "Dockerfile")
             then installDockerService c repoPath wp
             else (Throw "No Docker configuration found in repository", wp)
         end
    else (match fst merge with
          | Ret _ => Throw ""
          | Throw e => Throw e
          end, snd merge)
  else (Throw ("Command failed: " ++ render (MaterializeEnv repoPath (composedTemplate c)))%string,
        w1).
Proof.
  intros w1 wp merge. unfold installDockerComposeService.
  rewrite composedTemplate_step.
  destruct (present w repoPath) eqn:P.
  2:{ rewrite (bind_throws _ _ _ _ _ (materialize_fails _ _ _ P)). reflexivity. }
  rewrite (bind_run _ _ _ _ _ (materialize_run _ _ _ P)). fold w1.
  destruct (mergeable rootEnvPath (localEnvPath repoPath) (tempEnvPath repoPath) w1) eqn:M.
  2:{ destruct (mergeEnvironmentFiles_throws _ _ _ _ M) as [e T].
      fold merge in T. unfold bind at 1. fold merge.
      destruct merge as [o w']. cbn [fst snd] in *. subst o. reflexivity. }
  rewrite (bind_run _ _ _ _ _ (mergeEnvironmentFiles_run _ _ _ _ M)).
  change (afterMerge rootEnvPath (localEnvPath repoPath) (tempEnvPath repoPath) w1) with wp.
  unfold bind, detectRepoStructure, gets. cbn [hasDockerCompose hasDockerfile].
  assert (F : firstExisting wp repoPath composeFiles
              = firstExisting w repoPath composeFiles).
  { apply firstExisting_ext. intros n I.
    destruct (composeFiles_plain n (or_intror I)) as (Pn & N1 & N2 & N3).
    apply present_afterPrelude; assumption. }
  rewrite F.
  destruct (firstExisting w repoPath composeFiles); [reflexivity|].
  unfold wp.
  rewrite (present_afterPrelude c repoPath "Dockerfile") by (reflexivity || discriminate).
  destruct (present w (child repoPath "Dockerfile")); reflexivity.
Qed.

(** Which way a composed install goes is decided by what the repository
    has when the install starts. *)
Lemma installDockerComposeService_dispatch (c : config) (repoPath : string) (w : world) :
  installable repoPath w = true ->
  installDockerComposeService c repoPath w =
  match firstExisting w repoPath composeFiles with
  | Some _ => composeBranch repoPath (afterPrelude c repoPath w)
  | None =>
      if present w (child repoPath "Dockerfile")
      then installDockerService c repoPath (afterPrelude c repoPath w)
      else (Throw "No Docker configuration found in repository",
            afterPrelude c repoPath w)
  end.
Proof.
  intros H. rewrite installDockerComposeService_general. cbv zeta.
  assert (P : present w repoPath = true).
  { apply isDirectory_present. apply installable_inv in H. apply H. }
  rewrite P, installable_mergeable; [reflexivity|].
  rewrite installable_after_materialize. exact H.
Qed.


End ComposedInstall.

Section SingleInstall.
Import JsString JsObject EnvMerge Path Shell Host Catalog SolutionInstall Spec Behaviour.

(** The head of the single-container install on an installable host:
    template copy (when an [envFile] is declared), merge and copy of the
    scratch file succeed and leave the merged text in [.env] and in the
    scratch file. *)
Lemma installDockerService_head (c : config) (repoPath : string) (w : world) :
  installable repoPath w = true ->
  installDockerService c repoPath w
  = (runCommand (buildCommand c repoPath) ;;
     runCommand (runContainer c) ;;
     runCommand (MaterializeEnv repoPath (interp (envFile c))) ;;
     runCommand (RmF (tempEnvPath repoPath)) ;;
     ret tt)%js (beforeBuild c repoPath w) /\
  files (beforeBuild c repoPath w) (localEnvPath repoPath)
  = Some (singleMergedText c repoPath w) /\
  files (beforeBuild c repoPath w) (tempEnvPath repoPath)
  = Some (singleMergedText c repoPath w) /\
  tools (beforeBuild c repoPath w) = tools w /\
  trace (beforeBuild c repoPath w)
  = trace w
    ++ (if truthy (envFile c)
        then [Ran (MaterializeEnv repoPath (interp (envFile c)))] else [])
    ++ [ Merged rootEnvPath (localEnvPath repoPath) (tempEnvPath repoPath);
         Ran (Cp (tempEnvPath repoPath) (localEnvPath repoPath)) ] /\
  installable repoPath (beforeBuild c repoPath w) = true.
Proof.
  intros H. unfold installDockerService, beforeBuild, singleMergedText.
  set (w1 := if truthy (envFile c)
             then afterCommand (MaterializeEnv repoPath (interp (envFile c))) w
             else w).
  assert (P : present w repoPath = true).
  { apply isDirectory_present. apply installable_inv in H. apply H. }
  assert (S1 : (if truthy (envFile c)
                then (runCommand (MaterializeEnv repoPath (interp (envFile c))) ;; ret tt)%js
                else ret tt) w = (Ret tt, w1)).
  { unfold w1. destruct (truthy (envFile c)); [|reflexivity].
    rewrite (bind_run _ _ _ _ _ (materialize_run _ _ _ P)). reflexivity. }
  assert (H1 : installable repoPath w1 = true).
  { unfold w1. destruct (truthy (envFile c)); [|exact H].
    rewrite installable_after_materialize. exact H. }
  assert (T1 : tools w1 = tools w).
  { unfold w1. destruct (truthy (envFile c)); [|reflexivity].
    unfold afterCommand. cbn [tools logged]. apply (proj1 (sh_keeps _ w)). }
  assert (Tr1 : trace w1 = trace w ++ (if truthy (envFile c)
                  then [Ran (MaterializeEnv repoPath (interp (envFile c)))] else [])).
  { unfold w1. destruct (truthy (envFile c)); [|symmetry; apply app_nil_r].
    unfold afterCommand. cbn [trace logged].
    rewrite (proj1 (proj2 (proj2 (proj2 (sh_keeps _ w))))). reflexivity. }
  rewrite (bind_run _ _ _ _ _ S1).
  rewrite (bind_run _ _ _ _ _
             (mergeEnvironmentFiles_run _ _ _ w1 (installable_mergeable _ _ H1))).
  set (w2 := afterMerge rootEnvPath (localEnvPath repoPath) (tempEnvPath repoPath) w1).
  pose proof (files_afterMerge_output rootEnvPath (localEnvPath repoPath)
                (tempEnvPath repoPath) w1) as Ft.
  fold w2 in Ft.
  assert (H2 : installable repoPath w2 = true) by (apply installable_afterMerge; exact H1).
  assert (D2 : isDirectory w2 (localEnvPath repoPath) = false).
  { apply installable_inv in H2. apply H2. }
  destruct (copy_scratch_ok repoPath _ w2 Ft D2) as [C1 C2].
  rewrite (bind_run _ _ _ _ _ C1), C2.
  split; [reflexivity|].
  split; [rewrite files_logged, files_with_disk; apply write_same|].
  split.
  { rewrite files_logged, files_with_disk, write_other; [exact Ft|].
    apply String.eqb_neq. apply temp_not_local. }
  split; [exact T1|].
  split.
  { cbn [trace logged with_disk]. unfold w2, afterMerge. cbn [trace logged with_disk].
    rewrite Tr1. repeat rewrite <- app_assoc. reflexivity. }
  apply installable_after_copy. exact H2.
Qed.

(** The tail of the single-container install: build, start, restore the
    template, remove the scratch file. *)
Lemma single_tail_run (c : config) (repoPath : string) (wb : world) :
  present wb repoPath = true ->
  isDirectory wb (tempEnvPath repoPath) = false ->
  let build := tools wb (trace wb) (buildCommand c repoPath) in
  let run := tools wb (trace wb ++ [Ran (buildCommand c repoPath)]) (runContainer c) in
  (runCommand (buildCommand c repoPath) ;;
   runCommand (runContainer c) ;;
   runCommand (MaterializeEnv repoPath (interp (envFile c))) ;;
   runCommand (RmF (tempEnvPath repoPath)) ;;
   ret tt)%js wb
  = (if exitedZero build then settled (runContainer c) run
     else settled (buildCommand c repoPath) build,
     if exitedZero build
     then if exitedZero run
          then afterCommand (RmF (tempEnvPath repoPath))
                 (afterCommand (MaterializeEnv repoPath (interp (envFile c)))
                    (afterCommand (runContainer c)
                       (afterCommand (buildCommand c repoPath) wb)))
          else afterCommand (runContainer c) (afterCommand (buildCommand c repoPath) wb)
     else afterCommand (buildCommand c repoPath) wb).
Proof.
  intros P D build run.
  unfold bind at 1. rewrite runCommand_settled.
  unfold buildCommand at 1 2. cbn [sh fst]. fold (buildCommand c repoPath). fold build.
  destruct (exitedZero build) eqn:Eb.
  - rewrite (settled_exitedZero _ _ Eb).
    unfold bind at 1. rewrite runCommand_settled.
    unfold runContainer at 1 2. cbn [sh fst]. fold (runContainer c).
    change (tools (afterCommand (buildCommand c repoPath) wb)
                  (trace (afterCommand (buildCommand c repoPath) wb)) (runContainer c))
      with run.
    destruct (exitedZero run) eqn:Er.
    + rewrite (settled_exitedZero _ _ Er).
      set (w2 := afterCommand (runContainer c) (afterCommand (buildCommand c repoPath) wb)).
      assert (P2 : present w2 repoPath = true) by exact P.
      unfold bind at 1. rewrite (materialize_run _ _ _ P2).
      assert (D3 : isDirectory (afterCommand (MaterializeEnv repoPath (interp (envFile c))) w2)
                               (tempEnvPath repoPath) = false).
      { rewrite isDirectory_after_materialize. exact D. }
      destruct (remove_scratch_ok _ _ D3) as [R1 R2].
      unfold bind at 1. rewrite R1, R2. reflexivity.
    + destruct (settled_failed (runContainer c) _ Er) as [e S]. rewrite S.
      reflexivity.
  - destruct (settled_failed (buildCommand c repoPath) _ Eb) as [e S]. rewrite S.
    reflexivity.
Qed.


End SingleInstall.

Section WholeBranches.
Import JsString JsObject EnvMerge Path Shell Host Catalog SolutionInstall Spec Behaviour.

(** The compose branch from start to end, once the scratch file is in place
    and [.env] is no directory. *)
Lemma composeBranch_run (repoPath content : string) (w : world) :
  files w (tempEnvPath repoPath) = Some content ->
  isDirectory w (localEnvPath repoPath) = false ->
  let wu := beforeComposeUp repoPath w in
  let up := tools w (trace wu) (ComposeUp repoPath) in
  composeBranch repoPath w
  = (settled (ComposeUp repoPath) up,
     if exitedZero up
     then logged (Ran (RmF (tempEnvPath repoPath)))
                 (with_disk (Fs.remove (disk wu) (tempEnvPath repoPath))
                            (logged (Ran (ComposeUp repoPath)) wu))
     else logged (Ran (ComposeUp repoPath)) wu).
Proof.
  intros F D wu up.
  destruct (composeBranch_head repoPath content w F D) as (H & _ & Ft & T & _).
  fold wu in H, Ft, T.
  rewrite H, compose_up_run by (apply (files_isDirectory _ _ _ Ft)).
  rewrite T. fold up.
  destruct (exitedZero up) eqn:E.
  - rewrite (settled_exitedZero _ _ E). reflexivity.
  - destruct (settled_failed (ComposeUp repoPath) _ E) as [e S]. rewrite S. reflexivity.
Qed.

(** The single-container install from start to end on an installable
    host. *)
Lemma installDockerService_run (c : config) (repoPath : string) (w : world) :
  installable repoPath w = true ->
  let wb := beforeBuild c repoPath w in
  let build := tools w (trace wb) (buildCommand c repoPath) in
  let run := tools w (trace wb ++ [Ran (buildCommand c repoPath)]) (runContainer c) in
  installDockerService c repoPath w
  = (if exitedZero build then settled (runContainer c) run
     else settled (buildCommand c repoPath) build,
     if exitedZero build
     then if exitedZero run
          then afterCommand (RmF (tempEnvPath repoPath))
                 (afterCommand (MaterializeEnv repoPath (interp (envFile c)))
                    (afterCommand (runContainer c)
                       (afterCommand (buildCommand c repoPath) wb)))
          else afterCommand (runContainer c) (afterCommand (buildCommand c repoPath) wb)
     else afterCommand (buildCommand c repoPath) wb).
Proof.
  intros H wb build run.
  destruct (installDockerService_head c repoPath w H) as (E & _ & _ & T & _ & Hb).
  fold wb in E, T, Hb. rewrite E.
  apply installable_inv in Hb as (Hr & _ & _ & Ht & _).
  rewrite (single_tail_run c repoPath wb (isDirectory_present _ _ Hr) Ht).
  rewrite T. reflexivity.
Qed.

(** The traces of the worlds [installDockerService_run] names. *)
Lemma trace_single_tail (c : config) (repoPath : string) (wb : world) :
  trace (afterCommand (buildCommand c repoPath) wb)
  = trace wb ++ [Ran (buildCommand c repoPath)] /\
  trace (afterCommand (runContainer c) (afterCommand (buildCommand c repoPath) wb))
  = trace wb ++ [Ran (buildCommand c repoPath); Ran (runContainer c)] /\
  trace (afterCommand (RmF (tempEnvPath repoPath))
           (afterCommand (MaterializeEnv repoPath (interp (envFile c)))
              (afterCommand (runContainer c)
                 (afterCommand (buildCommand c repoPath) wb))))
  = trace wb ++ [ Ran (buildCommand c repoPath); Ran (runContainer c);
                  Ran (MaterializeEnv repoPath (interp (envFile c)));
                  Ran (RmF (tempEnvPath repoPath)) ].
Proof.
  assert (K : forall cmd v, trace (afterCommand cmd v) = trace v ++ [Ran cmd]).
  { intros cmd v. unfold afterCommand. cbn [trace logged].
    rewrite (proj1 (proj2 (proj2 (proj2 (sh_keeps cmd v))))). reflexivity. }
  rewrite !K. repeat rewrite <- app_assoc. repeat split.
Qed.


End WholeBranches.

(* ------------------------------------------------------------------------ *)
(** ** Characters, prefixes and pieces of strings *)

Section MoreStringFacts.
Import JsString EnvShape.

Lemma includes_single (c : ascii) (s : string) :
  includes (String c EmptyString) s = mem c s.
Proof.
  induction s as [|a s IH]; [reflexivity|].
  cbn -[Ascii.eqb]. rewrite IH, andb_true_r. reflexivity.
Qed.

Lemma mem_append (c : ascii) (a b : string) :
  mem c (a ++ b) = mem c a || mem c b.
Proof.
  induction a as [|x a IH]; cbn -[Ascii.eqb]; [reflexivity|].
  rewrite IH, orb_assoc. reflexivity.
Qed.

Lemma mem_take (c : ascii) (n : nat) (s : string) :
  mem c s = false -> mem c (take n s) = false.
Proof.
  revert n. induction s as [|a s IH]; intros [|n]; cbn -[Ascii.eqb]; try reflexivity.
  intros H. apply orb_false_iff in H as [H1 H2]. rewrite H1, (IH n H2). reflexivity.
Qed.

Lemma mem_drop (c : ascii) (n : nat) (s : string) :
  mem c s = false -> mem c (drop n s) = false.
Proof.
  revert n. induction s as [|a s IH]; intros [|n]; cbn -[Ascii.eqb]; trivial.
  intros H. apply orb_false_iff in H as [_ H2]. apply IH. exact H2.
Qed.

Lemma mem_trimStart (c : ascii) (s : string) :
  mem c s = false -> mem c (trimStart s) = false.
Proof.
  induction s as [|a s IH]; cbn -[Ascii.eqb]; trivial.
  intros H. destruct (is_ws a); [|exact H].
  apply orb_false_iff in H as [_ H2]. apply IH. exact H2.
Qed.

Lemma mem_trimEnd (c : ascii) (s : string) :
  mem c s = false -> mem c (trimEnd s) = false.
Proof.
  induction s as [|a s IH]; cbn -[Ascii.eqb]; trivial.
  intros H. apply orb_false_iff in H as [H1 H2]. specialize (IH H2).
  destruct (trimEnd s) as [|b t].
  - destruct (is_ws a); cbn -[Ascii.eqb]; [reflexivity|].
    rewrite H1. reflexivity.
  - cbn -[Ascii.eqb] in *. rewrite H1. exact IH.
Qed.

Lemma mem_trim (c : ascii) (s : string) : mem c s = false -> mem c (trim s) = false.
Proof. intros H. unfold trim. apply mem_trimEnd, mem_trimStart, H. Qed.

Lemma length_drop (n : nat) (s : string) :
  String.length (drop n s) = String.length s - n.
Proof.
  revert n. induction s as [|a s IH]; intros [|n]; simpl; try reflexivity.
  apply IH.
Qed.

Lemma take_all (n : nat) (s : string) : String.length s <= n -> take n s = s.
Proof.
  revert n. induction s as [|a s IH]; intros [|n]; simpl; intros H;
    try reflexivity; try lia.
  rewrite IH by lia. reflexivity.
Qed.

Lemma take_append (a b : string) : take (String.length a) (a ++ b) = a.
Proof. induction a as [|x a IH]; simpl; [destruct b; reflexivity | rewrite IH; reflexivity]. Qed.

Lemma length_append (a b : string) :
  String.length (a ++ b) = String.length a + String.length b.
Proof. induction a as [|x a IH]; simpl; [reflexivity | rewrite IH; reflexivity]. Qed.

(** [s.substring(0, i)] is the first [i] characters. *)
Lemma substring_prefix (s : string) (n : nat) :
  n <= String.length s -> substring s 0 (Z.of_nat n) = take n s.
Proof.
  intros H. unfold substring, clamp. rewrite Nat2Z.id. simpl Z.to_nat.
  rewrite Nat.min_0_r, Nat.min_0_l, Nat.max_0_l, Nat.sub_0_r.
  rewrite (Nat.min_r _ _ H). destruct s; reflexivity.
Qed.

(** [s.substring(i)] is what follows the first [i] characters. *)
Lemma substring_suffix (s : string) (n : nat) :
  n <= String.length s -> substring_from s (Z.of_nat n) = drop n s.
Proof.
  intros H. unfold substring_from, substring, clamp. rewrite !Nat2Z.id.
  rewrite Nat.min_id, (Nat.min_r _ _ H), (Nat.min_l _ _ H), (Nat.max_r _ _ H).
  apply take_all. rewrite length_drop. lia.
Qed.

Lemma indexOf_fresh (c : ascii) (k v : string) :
  mem c k = false -> indexOf c (k ++ String c v) = Z.of_nat (String.length k).
Proof.
  induction k as [|a k IH]; cbn -[Ascii.eqb Z.of_nat]; intros H.
  - rewrite Ascii.eqb_refl. reflexivity.
  - apply orb_false_iff in H as [H1 H2]. rewrite Ascii.eqb_sym, H1, (IH H2).
    destruct (Z.ltb_spec (Z.of_nat (String.length k)) 0); lia.
Qed.

Lemma indexOf_range (c : ascii) (s : string) :
  (-1 <= indexOf c s <= Z.of_nat (String.length s))%Z.
Proof.
  induction s as [|a s IH]; cbn -[Ascii.eqb Z.of_nat]; [lia|].
  destruct (Ascii.eqb a c); [lia|].
  destruct (Z.ltb_spec (indexOf c s) 0); lia.
Qed.

(** No occurrence of the character before its first occurrence. *)
Lemma mem_before_indexOf (c : ascii) (s : string) :
  mem c (take (Z.to_nat (indexOf c s)) s) = false.
Proof.
  induction s as [|a s IH]; cbn -[Ascii.eqb Z.to_nat]; [reflexivity|].
  destruct (Ascii.eqb a c) eqn:E; [reflexivity|].
  destruct (Z.ltb_spec (indexOf c s) 0) as [L|L]; [reflexivity|].
  replace (Z.to_nat (indexOf c s + 1)) with (S (Z.to_nat (indexOf c s))) by lia.
  cbn -[Ascii.eqb Z.to_nat]. rewrite Ascii.eqb_sym, E, IH. reflexivity.
Qed.

End MoreStringFacts.

Section TrimFacts.
Import JsString EnvShape.

Lemma trim_head (s : string) :
  trim s = EmptyString \/ exists c t, trim s = String c t /\ is_ws c = false.
Proof.
  unfold trim. destruct (trimStart_head s) as [E | (c & t & E & W)]; rewrite E.
  - left. reflexivity.
  - right. exists c, (trimEnd t). split; [apply trimEnd_head; exact W | exact W].
Qed.

Lemma trimmed_trimEnd (s : string) : trim s = s -> trimEnd s = s.
Proof. intros H. rewrite <- H at 1. unfold trim. rewrite trimEnd_idem. exact H. Qed.

Lemma trimmed_trimStart (s : string) : trim s = s -> trimStart s = s.
Proof.
  intros H. destruct (trim_head s) as [E | (c & t & E & W)]; rewrite H in E; subst s.
  - reflexivity.
  - simpl. rewrite W. reflexivity.
Qed.

Lemma trim_of_parts (s : string) : trimStart s = s -> trimEnd s = s -> trim s = s.
Proof. intros H1 H2. unfold trim. rewrite H1. exact H2. Qed.

(** Trailing white space is decided by the end of the string. *)
Lemma trimEnd_append (a b : string) :
  trimEnd b <> EmptyString -> trimEnd (a ++ b) = (a ++ trimEnd b)%string.
Proof.
  intros N. induction a as [|x a IH]; simpl; [reflexivity|].
  rewrite IH. destruct (a ++ trimEnd b)%string eqn:E; [|reflexivity].
  exfalso. destruct a; simpl in E; [contradiction | discriminate].
Qed.

Lemma trimStart_append (a b : string) :
  a <> EmptyString -> trimStart a = a -> trimStart (a ++ b) = (a ++ b)%string.
Proof.
  destruct a as [|x a]; [contradiction|]. intros _. simpl.
  destruct (is_ws x); [|reflexivity].
  intros H. exfalso.
  assert (L : String.length (trimStart a) <= String.length a).
  { clear H. induction a as [|y a IH]; simpl; [lia|]. destruct (is_ws y); simpl; lia. }
  rewrite H in L. simpl in L. lia.
Qed.

Lemma chop_cr_trimmed (s : string) : trimEnd s = s -> chop_cr s = s.
Proof.
  induction s as [|c s IH]; [reflexivity|].
  intros H. simpl in H. destruct s as [|c' s'].
  - simpl in *. destruct (Ascii.eqb_spec c CR) as [->|_]; [|reflexivity].
    discriminate.
  - change (chop_cr (String c (String c' s'))) with (String c (chop_cr (String c' s'))).
    f_equal. apply IH.
    destruct (trimEnd (String c' s')) as [|y t] eqn:E.
    + destruct (is_ws c); discriminate.
    + injection H as H1 H2. rewrite H1, H2. reflexivity.
Qed.

Lemma chop_cr_mem (c : ascii) (s : string) :
  mem c s = false -> mem c (chop_cr s) = false.
Proof.
  induction s as [|a s IH]; [reflexivity|].
  destruct s as [|b s'].
  - change (chop_cr (String a EmptyString))
      with (if Ascii.eqb a CR then EmptyString else String a EmptyString).
    destruct (Ascii.eqb a CR); intros H; [reflexivity | exact H].
  - change (chop_cr (String a (String b s'))) with (String a (chop_cr (String b s'))).
    cbn -[Ascii.eqb chop_cr]. intros H. apply orb_false_iff in H as [H1 H2].
    rewrite H1. apply IH. exact H2.
Qed.

(** A trailing carriage return is white space: chopping it does not change
    what [trim] returns. *)
Lemma trim_chop_cr (s : string) : trim (chop_cr s) = trim s.
Proof.
  assert (E : forall t, trimEnd (chop_cr t) = trimEnd t).
  { induction t as [|a t IH]; [reflexivity|].
    destruct t as [|b t'].
    - simpl. destruct (Ascii.eqb_spec a CR) as [->|_]; reflexivity.
    - change (chop_cr (String a (String b t'))) with (String a (chop_cr (String b t'))).
      change (trimEnd (String a (chop_cr (String b t'))))
        with (match trimEnd (chop_cr (String b t')) with
              | EmptyString => if is_ws a then EmptyString else String a EmptyString
              | String y u => String a (String y u)
              end).
      rewrite IH. reflexivity. }
  assert (S : forall t, trimStart (chop_cr t) = chop_cr (trimStart t)).
  { induction t as [|a t IH]; [reflexivity|].
    destruct t as [|b t'].
    - change (chop_cr (String a EmptyString))
        with (if Ascii.eqb a CR then EmptyString else String a EmptyString).
      change (trimStart (String a EmptyString))
        with (if is_ws a then EmptyString else String a EmptyString).
      destruct (Ascii.eqb a CR) eqn:C.
      + apply Ascii.eqb_eq in C. subst a. reflexivity.
      + change (trimStart (String a EmptyString))
          with (if is_ws a then EmptyString else String a EmptyString).
        destruct (is_ws a); [reflexivity|].
        change (chop_cr (String a EmptyString))
          with (if Ascii.eqb a CR then EmptyString else String a EmptyString).
        rewrite C. reflexivity.
    - change (chop_cr (String a (String b t'))) with (String a (chop_cr (String b t'))).
      change (trimStart (String a (chop_cr (String b t'))))
        with (if is_ws a then trimStart (chop_cr (String b t'))
              else String a (chop_cr (String b t'))).
      change (trimStart (String a (String b t')))
        with (if is_ws a then trimStart (String b t') else String a (String b t')).
      destruct (is_ws a); [exact IH | reflexivity]. }
  unfold trim. rewrite S, E. reflexivity.
Qed.

End TrimFacts.

Section SplitFacts.
Import JsString EnvMerge EnvShape.

Lemma split_not_nil (c : ascii) (s : string) : split c s <> [].
Proof.
  induction s as [|a s IH]; cbn -[Ascii.eqb]; [discriminate|].
  destruct (Ascii.eqb a c); [discriminate|].
  destruct (split c s); [contradiction | discriminate].
Qed.

Lemma split_no_separator (c : ascii) (s : string) :
  mem c s = false -> split c s = [s].
Proof.
  induction s as [|a s IH]; cbn -[Ascii.eqb]; [reflexivity|].
  intros H. apply orb_false_iff in H as [H1 H2].
  rewrite Ascii.eqb_sym, H1, (IH H2). reflexivity.
Qed.

Lemma split_append (c : ascii) (x t : string) :
  mem c x = false -> split c (x ++ String c t) = x :: split c t.
Proof.
  induction x as [|a x IH]; cbn -[Ascii.eqb]; intros H.
  - rewrite Ascii.eqb_refl. reflexivity.
  - apply orb_false_iff in H as [H1 H2].
    rewrite Ascii.eqb_sym, H1, (IH H2). reflexivity.
Qed.

Lemma split_pieces (c : ascii) (s : string) :
  Forall (fun piece => mem c piece = false) (split c s).
Proof.
  induction s as [|a s IH]; cbn -[Ascii.eqb].
  - constructor; [reflexivity | constructor].
  - destruct (Ascii.eqb a c) eqn:E.
    + constructor; [reflexivity | exact IH].
    + destruct (split c s) as [|h t]; [constructor; [|constructor]|].
      * cbn -[Ascii.eqb]. rewrite Ascii.eqb_sym, E. reflexivity.
      * inversion IH; subst. constructor; [|assumption].
        cbn -[Ascii.eqb]. rewrite Ascii.eqb_sym, E. assumption.
Qed.

(** Cutting a joined text at line feeds gives the lines back. *)
Lemma split_join (lines : list string) :
  lines <> [] -> Forall (fun line => mem LF line = false) lines ->
  split LF (join NL lines) = lines.
Proof.
  induction lines as [|x rest IH]; [contradiction|].
  intros _ F. inversion F as [|? ? Hx Hrest]; subst.
  destruct rest as [|y rest'].
  - simpl. apply split_no_separator. exact Hx.
  - change (join NL (x :: y :: rest')) with (x ++ NL ++ join NL (y :: rest'))%string.
    unfold NL at 1. change (String LF "" ++ join NL (y :: rest'))%string
      with (String LF (join NL (y :: rest'))).
    rewrite (split_append LF x _ Hx). f_equal. apply IH; [discriminate | exact Hrest].
Qed.

Lemma chop_all_but_last_fixed (lines : list string) :
  Forall (fun line => chop_cr line = line) lines -> chop_all_but_last lines = lines.
Proof.
  induction 1 as [|x rest Hx _ IH]; [reflexivity|].
  destruct rest as [|y rest']; [reflexivity|].
  change (chop_all_but_last (x :: y :: rest'))
    with (chop_cr x :: chop_all_but_last (y :: rest')).
  rewrite Hx, IH. reflexivity.
Qed.

Lemma map_trim_chop (lines : list string) :
  map trim (chop_all_but_last lines) = map trim lines.
Proof.
  induction lines as [|x rest IH]; [reflexivity|].
  destruct rest as [|y rest']; [reflexivity|].
  change (chop_all_but_last (x :: y :: rest'))
    with (chop_cr x :: chop_all_but_last (y :: rest')).
  cbn [map]. rewrite trim_chop_cr. f_equal. exact IH.
Qed.

Lemma chop_cr_append_cr (x : string) : chop_cr (x ++ String CR EmptyString) = x.
Proof.
  induction x as [|a x IH]; [reflexivity|].
  change (String a x ++ String CR "")%string with (String a (x ++ String CR "")).
  destruct (x ++ String CR "")%string as [|b t] eqn:E.
  - destruct x; discriminate.
  - change (chop_cr (String a (String b t))) with (String a (chop_cr (String b t))).
    rewrite IH. reflexivity.
Qed.

Lemma chop_withCR (pieces : list string) : chop_all_but_last (withCR pieces) = pieces.
Proof.
  induction pieces as [|x rest IH]; [reflexivity|].
  destruct rest as [|y rest']; [reflexivity|].
  change (withCR (x :: y :: rest'))
    with ((x ++ String CR "")%string :: withCR (y :: rest')).
  destruct (withCR (y :: rest')) as [|z u] eqn:E.
  - destruct rest'; discriminate.
  - change (chop_all_but_last ((x ++ String CR "")%string :: z :: u))
      with (chop_cr (x ++ String CR "") :: chop_all_but_last (z :: u)).
    rewrite chop_cr_append_cr, IH. reflexivity.
Qed.

Lemma split_toCRLF (s : string) : split LF (toCRLF s) = withCR (split LF s).
Proof.
  induction s as [|c s IH]; [reflexivity|].
  destruct (Ascii.eqb c LF) eqn:E.
  - apply Ascii.eqb_eq in E. subst c.
    change (split LF (toCRLF (String LF s)))
      with (String CR EmptyString :: split LF (toCRLF s)).
    change (split LF (String LF s)) with (EmptyString :: split LF s).
    rewrite IH.
    destruct (split LF s) as [|h t] eqn:S; [exfalso; exact (split_not_nil _ _ S)|].
    reflexivity.
  - assert (T : toCRLF (String c s) = String c (toCRLF s)).
    { change (toCRLF (String c s))
        with (if Ascii.eqb c LF then String CR (String LF (toCRLF s))
              else String c (toCRLF s)).
      rewrite E. reflexivity. }
    assert (P : forall u, split LF (String c u)
                          = match split LF u with
                            | h :: t => String c h :: t
                            | [] => [String c EmptyString]
                            end).
    { intros u.
      change (split LF (String c u))
        with (if Ascii.eqb c LF then EmptyString :: split LF u
              else match split LF u with
                   | h :: t => String c h :: t
                   | [] => [String c EmptyString]
                   end).
      rewrite E. reflexivity. }
    rewrite T, !P, IH.
    destruct (split LF s) as [|h t] eqn:S; [exfalso; exact (split_not_nil _ _ S)|].
    destruct t as [|y t']; reflexivity.
Qed.

End SplitFacts.

Section KeptLines.
Import JsString JsObject EnvMerge EnvShape Spec.

Lemma mem_substring (c : ascii) (s : string) (a b : Z) :
  mem c s = false -> mem c (substring s a b) = false.
Proof. intros H. unfold substring. apply mem_take, mem_drop, H. Qed.

Lemma substring_to_first (c : ascii) (s : string) :
  substring s 0 (indexOf c s) = take (Z.to_nat (indexOf c s)) s.
Proof.
  pose proof (indexOf_range c s) as R.
  unfold substring, clamp. simpl (Z.to_nat 0).
  rewrite Nat.min_0_r, Nat.min_0_l, Nat.max_0_l, Nat.sub_0_r.
  rewrite Nat.min_r by lia. destruct s; reflexivity.
Qed.

Lemma chop_all_but_last_Forall (P : string -> Prop) (lines : list string) :
  (forall x, P x -> P (chop_cr x)) ->
  Forall P lines -> Forall P (chop_all_but_last lines).
Proof.
  intros H. induction 1 as [|x rest Hx Hrest IH]; [constructor|].
  destruct rest as [|y rest']; [constructor; [exact Hx | constructor]|].
  change (chop_all_but_last (x :: y :: rest'))
    with (chop_cr x :: chop_all_but_last (y :: rest')).
  constructor; [apply H; exact Hx | exact IH].
Qed.

(** What reaches the [reduce]: trimmed lines without a line feed that pass
    the filter. *)
Lemma keptLines_kept (content : string) : Forall keptLine (keptLines content).
Proof.
  unfold keptLines, splitLines.
  assert (F : Forall (fun line => mem LF line = false)
                     (chop_all_but_last (split LF content))).
  { apply chop_all_but_last_Forall; [apply chop_cr_mem | apply split_pieces]. }
  induction F as [|x rest Hx _ IH]; cbn [map filter]; [constructor|].
  destruct (keepLine (trim x)) eqn:K; [|exact IH].
  constructor; [|exact IH].
  split; [apply trim_idem|]. split; [exact K | apply mem_trim; exact Hx].
Qed.

Lemma trimStart_fixed_head (c : ascii) (t : string) :
  trimStart (String c t) = String c t -> is_ws c = false.
Proof.
  simpl. destruct (is_ws c); [|reflexivity]. intros H. exfalso.
  assert (L : String.length (trimStart t) <= String.length t).
  { clear H. induction t as [|y t IH]; simpl; [lia|]. destruct (is_ws y); simpl; lia. }
  rewrite H in L. simpl in L. lia.
Qed.

Lemma startsWith_trim_take (c : ascii) (n : nat) (line : string) :
  trim line = line -> startsWith c line = false ->
  startsWith c (trim (take n line)) = false.
Proof.
  intros T St. destruct line as [|a t]; [destruct n; reflexivity|].
  destruct n as [|n]; [reflexivity|].
  pose proof (trimStart_fixed_head a t (trimmed_trimStart _ T)) as W.
  change (take (S n) (String a t)) with (String a (take n t)).
  unfold trim. change (trimStart (String a (take n t)))
    with (if is_ws a then trimStart (take n t) else String a (take n t)).
  rewrite W, (trimEnd_head a _ W). exact St.
Qed.

(** The key and the value of a kept line. *)
Lemma kept_line_entry (line : string) :
  keptLine line ->
  trim (lineKey line) = lineKey line /\
  mem "=" (lineKey line) = false /\
  mem LF (lineKey line) = false /\
  startsWith "#" (lineKey line) = false /\
  cleanValue (lineValue line).
Proof.
  intros (T & K & L). unfold keepLine in K.
  apply andb_true_iff in K as [K _]. apply andb_true_iff in K as [_ K].
  apply negb_true_iff in K.
  unfold lineKey, lineValue, cleanValue.
  split; [apply trim_idem|].
  split; [rewrite substring_to_first; apply mem_trim, mem_before_indexOf|].
  split; [apply mem_trim, mem_substring; exact L|].
  split; [rewrite substring_to_first; apply startsWith_trim_take; assumption|].
  split; [apply trim_idem|].
  apply mem_trim. unfold substring_from. apply mem_substring. exact L.
Qed.

End KeptLines.

Section ObjectShape.
Import JsString JsObject EnvMerge EnvShape Spec.

Lemma get_some_in (k v : string) (o : obj) : get k o = Some v -> In (k, v) o.
Proof.
  induction o as [|[k0 v0] o IH]; simpl; [discriminate|].
  destruct (String.eqb_spec k0 k) as [->|_].
  - intros [= ->]. left. reflexivity.
  - intros H. right. apply IH. exact H.
Qed.

Lemma in_keys_get (k : string) (o : obj) : In k (keys o) -> exists v, get k o = Some v.
Proof.
  intros I. apply get_in_keys in I. destruct (get k o) as [v|]; [|contradiction].
  exists v. reflexivity.
Qed.

Lemma Forall_replace (P : string * string -> Prop) (k v : string) (o : obj) :
  P (k, v) -> Forall P o -> Forall P (replace k v o).
Proof.
  intros Hk. induction 1 as [|[k0 v0] o H0 Ho IH]; simpl; [constructor|].
  destruct (String.eqb_spec k0 k) as [->|_]; constructor; assumption.
Qed.

Lemma Forall_insert_index (P : string * string -> Prop) (n : N) (k v : string) (o : obj) :
  P (k, v) -> Forall P o -> Forall P (insert_index n k v o).
Proof.
  intros Hk. induction 1 as [|[k0 v0] o H0 Ho IH]; simpl.
  - constructor; [exact Hk | constructor].
  - destruct (after_index n k0); repeat constructor; assumption.
Qed.

Lemma Forall_set (P : string * string -> Prop) (k v : string) (o : obj) :
  P (k, v) -> Forall P o -> Forall P (set k v o).
Proof.
  intros Hk Ho. unfold set. destruct (hasOwn k o).
  - apply Forall_replace; assumption.
  - destruct (array_index k).
    + apply Forall_insert_index; assumption.
    + apply Forall_app. split; [exact Ho | constructor; [exact Hk | constructor]].
Qed.

Lemma keys_replace (k v : string) (o : obj) : keys (replace k v o) = keys o.
Proof.
  induction o as [|[k0 v0] o IH]; simpl; [reflexivity|].
  destruct (String.eqb k0 k); simpl; [reflexivity | rewrite IH; reflexivity].
Qed.

Lemma in_keys_insert_index (x : string) (n : N) (k v : string) (o : obj) :
  In x (keys (insert_index n k v o)) <-> x = k \/ In x (keys o).
Proof.
  induction o as [|[k0 v0] o IH]; simpl.
  - intuition congruence.
  - destruct (after_index n k0); simpl.
    + intuition congruence.
    + rewrite IH. intuition congruence.
Qed.

Lemma NoDup_insert_index (n : N) (k v : string) (o : obj) :
  ~ In k (keys o) -> NoDup (keys o) -> NoDup (keys (insert_index n k v o)).
Proof.
  induction o as [|[k0 v0] o IH]; simpl; intros NI ND.
  - constructor; [intros [] | constructor].
  - inversion ND as [|? ? N0 ND']; subst.
    destruct (after_index n k0); simpl.
    + constructor; [exact NI | exact ND].
    + constructor.
      * rewrite in_keys_insert_index. intros [E|I]; [|contradiction].
        apply NI. left. exact E.
      * apply IH; [|exact ND']. intros I. apply NI. right. exact I.
Qed.

(** An assignment keeps the keys apart. *)
Lemma NoDup_set (k v : string) (o : obj) : NoDup (keys o) -> NoDup (keys (set k v o)).
Proof.
  intros ND. unfold set, hasOwn. destruct (get k o) as [v0|] eqn:G.
  - rewrite keys_replace. exact ND.
  - assert (NI : ~ In k (keys o)) by (rewrite get_in_keys; congruence).
    destruct (array_index k).
    + apply NoDup_insert_index; assumption.
    + unfold keys. rewrite map_app. simpl.
      apply NoDup_app_remove_l with (l := []). simpl.
      apply NoDup_incl_NoDup with (l := k :: map fst o).
      * constructor; assumption.
      * rewrite length_app. simpl. lia.
      * intros x [<-|I]; apply in_or_app; [right; now left | left; exact I].
Qed.

Lemma set_clean (k v : string) (o : obj) :
  cleanKey k -> cleanValue v -> clean o -> clean (set k v o).
Proof.
  intros Hk Hv [F ND]. split; [|apply NoDup_set; exact ND].
  apply Forall_set; [split; assumption | exact F].
Qed.

Lemma clean_get (k v : string) (o : obj) :
  clean o -> get k o = Some v -> cleanKey k /\ cleanValue v.
Proof.
  intros [F _] G. apply get_some_in in G.
  rewrite Forall_forall in F. exact (F _ G).
Qed.

Lemma assign_clean (acc : obj) (key value : string) :
  clean acc ->
  trim key = key -> mem "=" key = false -> mem LF key = false ->
  startsWith "#" key = false -> cleanValue value ->
  clean (assign acc key value).
Proof.
  intros C T E L S V. unfold assign.
  destruct (negb (has key acc)) eqn:H; cbn [orb].
  - apply set_clean; [|exact V | exact C].
    apply negb_true_iff in H. unfold has in H.
    apply orb_false_iff in H as [_ I]. repeat split; assumption.
  - destruct (isEmptyAt key acc && negb (String.eqb value "")) eqn:B; [|exact C].
    apply andb_true_iff in B as [B _]. unfold isEmptyAt in B.
    destruct (get key acc) as [v0|] eqn:G; [|discriminate].
    destruct (clean_get _ _ _ C G) as [Hk _].
    apply set_clean; assumption.
Qed.

Lemma fold_reducer_clean (lines : list string) (acc : obj) :
  Forall keptLine lines -> clean acc -> clean (fold_left reducer lines acc).
Proof.
  intros F. revert acc. induction F as [|line lines K _ IH]; intros acc C; simpl.
  - exact C.
  - apply IH. unfold reducer.
    destruct (kept_line_entry line K) as (T & E & L & S & V).
    apply assign_clean; assumption.
Qed.

Lemma parse_clean (content : string) : clean (parseEnvText content).
Proof.
  apply fold_reducer_clean; [apply keptLines_kept|].
  split; constructor.
Qed.

Lemma parsedFile_clean (text : option string) : clean (parsedFile text).
Proof. destruct text; [apply parse_clean | split; constructor]. Qed.

Lemma mergedValue_clean (rootVars localVars : obj) (key : string) :
  clean rootVars -> clean localVars ->
  cleanValue (mergedValue rootVars localVars key).
Proof.
  intros CR CL. unfold mergedValue, firstTruthy, nonBlank, truthy, text.
  assert (E : cleanValue "") by (split; reflexivity).
  destruct (get key localVars) as [l|] eqn:GL;
    destruct (get key rootVars) as [r|] eqn:GR;
    try (destruct (clean_get _ _ _ CL GL) as [_ VL]);
    try (destruct (clean_get _ _ _ CR GR) as [_ VR]);
    repeat match goal with
           | |- context [if ?b then _ else _] => destruct b
           end; assumption.
Qed.

Lemma mergeVars_clean (rootVars localVars : obj) :
  clean rootVars -> clean localVars -> clean (mergeVars rootVars localVars).
Proof.
  intros CR CL. unfold mergeVars.
  assert (K : Forall cleanKey (keys localVars)).
  { apply Forall_forall. intros k I. apply in_keys_get in I as [v G].
    exact (proj1 (clean_get _ _ _ CL G)). }
  assert (G : forall acc, clean acc ->
              clean (fold_left (fun mergedVars key =>
                                  set key (mergedValue rootVars localVars key) mergedVars)
                               (keys localVars) acc)).
  { induction K as [|k ks Hk _ IH]; intros acc C; simpl; [exact C|].
    apply IH. apply set_clean; [exact Hk | | exact C].
    apply mergedValue_clean; assumption. }
  apply G. exact CR.
Qed.

End ObjectShape.

Section WrittenLines.
Import JsString JsObject EnvMerge EnvShape Spec.

Lemma drop_past_separator (k : string) (c : ascii) (v : string) :
  drop (S (String.length k)) (k ++ String c v) = v.
Proof. induction k as [|a k IH]; simpl; [destruct v; reflexivity | exact IH]. Qed.

Lemma map_fixed {A} (f : A -> A) (l : list A) :
  Forall (fun x => f x = x) l -> map f l = l.
Proof. induction 1 as [|x l H _ IH]; simpl; [reflexivity | rewrite H, IH; reflexivity]. Qed.

Lemma filter_all {A} (p : A -> bool) (l : list A) :
  Forall (fun x => p x = true) l -> filter p l = l.
Proof. induction 1 as [|x l H _ IH]; simpl; [reflexivity | rewrite H, IH; reflexivity]. Qed.

(** The line written for a clean entry survives the way back: it is kept as
    it is and splits into the same key and value. *)
Lemma envLine_kept (kv : string * string) :
  cleanEntry kv ->
  keptLine (envLine kv) /\ chop_cr (envLine kv) = envLine kv /\
  lineKey (envLine kv) = fst kv /\ lineValue (envLine kv) = snd kv.
Proof.
  destruct kv as [k v]. unfold cleanEntry, cleanKey, cleanValue, envLine. cbn [fst snd].
  intros ((Tk & Ek & Lk & Sk & _) & (Tv & Lv)).
  change (k ++ "=" ++ v)%string with (k ++ String "=" v)%string.
  assert (TE : trimEnd (k ++ String "=" v) = (k ++ String "=" v)%string).
  { rewrite trimEnd_append.
    - rewrite (trimEnd_head "=" v eq_refl), (trimmed_trimEnd v Tv). reflexivity.
    - rewrite (trimEnd_head "=" v eq_refl). discriminate. }
  assert (TS : trimStart (k ++ String "=" v) = (k ++ String "=" v)%string).
  { destruct k as [|a k']; [reflexivity|].
    apply trimStart_append; [discriminate | apply trimmed_trimStart; exact Tk]. }
  assert (M : mem "=" (k ++ String "=" v) = true).
  { rewrite mem_append. cbn -[mem]. simpl. apply orb_true_r. }
  split; [|split; [|split]].
  - split; [apply trim_of_parts; assumption|]. split.
    + unfold keepLine. rewrite (includes_single "=" _), M, andb_true_r.
      destruct k as [|a k']; [reflexivity|].
      simpl in Sk |- *. rewrite Sk. reflexivity.
    + rewrite mem_append, Lk. simpl. exact Lv.
  - apply chop_cr_trimmed. exact TE.
  - unfold lineKey. rewrite (indexOf_fresh "=" k v Ek).
    rewrite substring_prefix by (rewrite length_append; lia).
    rewrite take_append. exact Tk.
  - unfold lineValue. rewrite (indexOf_fresh "=" k v Ek).
    replace (Z.of_nat (String.length k) + 1)%Z with (Z.of_nat (S (String.length k)))
      by lia.
    rewrite substring_suffix by (rewrite length_append; simpl; lia).
    rewrite drop_past_separator. exact Tv.
Qed.

Lemma envContent_lines (o : obj) : envContent o = join NL (map envLine o).
Proof. reflexivity. Qed.

(** The kept lines of a written file are the written lines. *)
Lemma keptLines_envContent (o : obj) :
  Forall cleanEntry o -> keptLines (envContent o) = map envLine o.
Proof.
  intros F. rewrite envContent_lines.
  destruct o as [|kv o']; [reflexivity|].
  assert (K : Forall (fun line => keptLine line /\ chop_cr line = line)
                     (map envLine (kv :: o'))).
  { apply Forall_map. apply Forall_impl with (P := cleanEntry); [|exact F].
    intros e C. destruct (envLine_kept e C) as (H1 & H2 & _). split; assumption. }
  unfold keptLines, splitLines.
  rewrite split_join.
  - rewrite chop_all_but_last_fixed
      by (apply Forall_impl with (2 := K); intros x [_ H]; exact H).
    rewrite map_fixed
      by (apply Forall_impl with (2 := K); intros x [[H _] _]; exact H).
    apply filter_all.
    apply Forall_impl with (2 := K). intros x [(_ & H & _) _]. exact H.
  - discriminate.
  - apply Forall_impl with (2 := K). intros x [(_ & _ & H) _]. exact H.
Qed.

Lemma entries_envContent (o : obj) : Forall cleanEntry o -> entries (envContent o) = o.
Proof.
  intros F. unfold entries. rewrite (keptLines_envContent o F), map_map.
  induction F as [|[k v] o' C _ IH]; simpl; [reflexivity|].
  destruct (envLine_kept (k, v) C) as (_ & _ & Hk & Hv).
  rewrite Hk, Hv, IH. reflexivity.
Qed.

Lemma firstNonEmpty_absent (k : string) (es : list (string * string)) :
  ~ In k (map fst es) -> firstNonEmpty k es = None.
Proof.
  induction es as [|[k0 v0] es IH]; simpl; [reflexivity|].
  intros N. destruct (String.eqb_spec k0 k) as [->|_].
  - exfalso. apply N. left. reflexivity.
  - apply IH. intros I. apply N. right. exact I.
Qed.

Lemma firstNonEmpty_present (k : string) (es : list (string * string)) :
  In k (map fst es) -> firstNonEmpty k es <> None.
Proof.
  induction es as [|[k0 v0] es IH]; simpl; [contradiction|].
  intros I. destruct (String.eqb_spec k0 k) as [->|N].
  - destruct (String.eqb v0 ""); [destruct (firstNonEmpty k es)|]; discriminate.
  - apply IH. destruct I as [E|I]; [contradiction | exact I].
Qed.

Lemma firstNonEmpty_unique (k : string) (o : obj) :
  NoDup (keys o) -> firstNonEmpty k o = get k o.
Proof.
  induction o as [|[k0 v0] o IH]; simpl; [reflexivity|].
  intros ND. inversion ND as [|? ? N0 ND']; subst.
  destruct (String.eqb_spec k0 k) as [->|_]; [|apply IH; exact ND'].
  destruct (String.eqb_spec v0 "") as [->|_]; [|reflexivity].
  rewrite (firstNonEmpty_absent k o N0). reflexivity.
Qed.

Lemma parse_envContent_get (o : obj) (k : string) :
  clean o -> get k (parseEnvText (envContent o)) = get k o.
Proof.
  intros [F ND]. destruct (inherited k) eqn:I.
  - rewrite (parse_keys_not_inherited _ _ I).
    destruct (get k o) as [v|] eqn:G; [|reflexivity].
    destruct (clean_get k v o (conj F ND) G) as [(_ & _ & _ & _ & NI) _].
    congruence.
  - rewrite (parse_first_non_empty _ _ I), (entries_envContent o F).
    apply firstNonEmpty_unique. exact ND.
Qed.

End WrittenLines.

(* ------------------------------------------------------------------------ *)
(** ** The environment merger *)

Section MergerClaims.
Import JsString JsObject EnvMerge EnvShape Path Shell Host Catalog SolutionInstall Spec.
Import Samples.

Lemma parsedFile_trimmed (text : option string) : trimmed_values (parsedFile text).
Proof.
  destruct text as [content|]; simpl.
  - apply parse_trimmed.
  - intros k v. simpl. discriminate.
Qed.

(** Duplicates, comments, blank lines and both line endings. *)
Example parse_sample :
  parseEnvText ("# shared" ++ String CR NL ++ "A = 1 " ++ String CR NL ++ NL
                ++ "B=" ++ NL ++ "B=7" ++ NL ++ "B=8" ++ NL ++ "A=2" ++ NL
                ++ "URL=http://h/?q=1" ++ NL ++ "no separator")%string
  = [("A", "1"); ("B", "7"); ("URL", "http://h/?q=1")].
Proof. reflexivity. Qed.

(** Array-index keys come first in the written file, as [Object.entries]
    lists them. *)
Example envContent_sample :
  envContent (mergeVars (parseEnvText ("A=1" ++ NL ++ "B="))
                        (parseEnvText ("B=2" ++ NL ++ "C=" ++ NL ++ "3=u")))
  = ("3=u" ++ NL ++ "A=1" ++ NL ++ "B=2" ++ NL ++ "C=")%string.
Proof. reflexivity. Qed.

(** C1.  For parsed environment mappings [root] and [local] (each the parse
    of a file's text, or the empty mapping of a missing file) and every key:
    a non-empty local value wins; an empty local value gives way to a
    non-empty root value and stays empty when root is empty or has no such
    key; a key that only root has keeps root's value; a key that only local
    has keeps local's value.  Root [A=1, B=] merged with local [B=2, C=] is
    exactly [A=1, B=2, C=]. *)
Theorem merge_precedence (rootText localText : option string) (k : string) :
  let root := parsedFile rootText in
  let local := parsedFile localText in
  let merged := mergeVars root local in
  (forall v, get k local = Some v -> v <> "" -> get k merged = Some v) /\
  (forall r, get k local = Some "" -> get k root = Some r -> r <> "" ->
             get k merged = Some r) /\
  (get k local = Some "" -> get k root = Some "" \/ get k root = None ->
   get k merged = Some "") /\
  (get k local = None -> get k merged = get k root) /\
  (get k root = None -> get k merged = get k local) /\
  mergeVars (parseEnvText ("A=1" ++ NL ++ "B="))
            (parseEnvText ("B=2" ++ NL ++ "C="))
  = [("A", "1"); ("B", "2"); ("C", "")].
Proof.
  intros root local merged.
  assert (TR : trimmed_values root) by apply parsedFile_trimmed.
  assert (TL : trimmed_values local) by apply parsedFile_trimmed.
  assert (G : get k merged = match get k local with
                             | Some _ => Some (mergedValue root local k)
                             | None => get k root
                             end) by apply get_mergeVars.
  assert (P1 : forall v, get k local = Some v -> v <> "" -> get k merged = Some v).
  { intros v L NE. rewrite G, L. unfold mergedValue. rewrite L.
    rewrite (nonBlank_trimmed v (TL _ _ L)).
    apply String.eqb_neq in NE. rewrite NE. reflexivity. }
  assert (P2 : forall r, get k local = Some "" -> get k root = Some r -> r <> "" ->
                         get k merged = Some r).
  { intros r L R NE. rewrite G, L. unfold mergedValue. rewrite L, R.
    rewrite (nonBlank_trimmed r (TR _ _ R)).
    apply String.eqb_neq in NE. rewrite NE. reflexivity. }
  assert (P3 : get k local = Some "" -> get k root = Some "" \/ get k root = None ->
               get k merged = Some "").
  { intros L [R|R]; rewrite G, L; unfold mergedValue; rewrite L, R; reflexivity. }
  assert (P4 : get k local = None -> get k merged = get k root).
  { intros L. rewrite G, L. reflexivity. }
  repeat split; try assumption.
  intros R. destruct (get k local) as [v|] eqn:L.
  - destruct (string_dec v "") as [->|NE].
    + apply P3; [reflexivity | right; exact R].
    + apply P1; [reflexivity | exact NE].
  - rewrite P4 by reflexivity. exact R.
Qed.

Lemma merge_precedence_witness :
  let rootText := Some ("A=1" ++ NL ++ "B=")%string in
  let localText := Some ("B=2" ++ NL ++ "C=")%string in
  get "B" (parsedFile localText) = Some "2" /\
  "2" <> "" /\
  get "B" (mergeVars (parsedFile rootText) (parsedFile localText)) = Some "2".
Proof.
  intros rootText localText.
  split; [reflexivity|]. split; [discriminate|].
  apply (proj1 (merge_precedence rootText localText "B") "2");
    [reflexivity | discriminate].
Defined.

(** C8.  The specification promises, for a key on several lines, the first
    non-empty value.  The parser tests [key in acc], which is also true for
    the names a plain object inherits: a file whose lines are [toString=1]
    and [toString=2] has [1] as the first non-empty value of [toString], and
    the parsed mapping has no [toString] at all. *)
Theorem parse_loses_inherited_name :
  let content := ("toString=1" ++ NL ++ "toString=2")%string in
  entries content = [("toString", "1"); ("toString", "2")] /\
  firstNonEmpty "toString" (entries content) = Some "1" /\
  parseEnvText content = [].
Proof. repeat split. Qed.

Lemma mergeVars_empty_root (localVars : obj) (k : string) :
  get k (mergeVars [] localVars) = get k localVars.
Proof.
  rewrite get_mergeVars. destruct (get k localVars) as [v|] eqn:L; [|reflexivity].
  f_equal. unfold mergedValue. rewrite L. cbn [get nonBlank text].
  destruct (negb (String.eqb v "") && negb (String.eqb (trim v) "")); [reflexivity|].
  unfold firstTruthy, truthy, text.
  destruct (String.eqb_spec v "") as [->|_]; reflexivity.
Qed.

Lemma mergeVars_empty_local (rootVars : obj) (k : string) :
  get k (mergeVars rootVars []) = get k rootVars.
Proof. reflexivity. Qed.

Lemma absent_not_read (w : world) (p : string) : present w p = false -> files w p = None.
Proof.
  unfold present, files, Fs.read. destruct (disk w p); [discriminate | reflexivity].
Qed.

Lemma absent_no_directory (w : world) (p : string) :
  present w p = false -> isDirectory w p = false.
Proof.
  unfold present, isDirectory, Fs.is_dir. destruct (disk w p); [discriminate | reflexivity].
Qed.

(** C9.  A path at which nothing exists parses to the empty mapping without
    an error.  The merge throws only when [mergeable] fails, that is when an
    input path or the output path is a directory or the temporary file
    cannot be opened; an input file that is missing is never the reason.
    When the merge can read and write, it returns the merged mapping and
    leaves its text at the output path, where it parses back to the same
    mapping; with one input missing the merged mapping is the mapping of
    the other file, key by key the first non-empty value of its lines. *)
Theorem merge_tolerates_missing_files
    (w : world) (rootPath localPath outputPath : string) :
  let merged := mergeVars (parsedFile (files w rootPath))
                          (parsedFile (files w localPath)) in
  let run := mergeEnvironmentFiles rootPath localPath outputPath w in
  (forall p, present w p = false -> parseEnvFile p w = (Ret [], w)) /\
  (forall e, fst run = Throw e -> mergeable rootPath localPath outputPath w = false) /\
  (mergeable rootPath localPath outputPath w = true ->
   fst run = Ret merged /\
   files (snd run) outputPath = Some (envContent merged) /\
   (forall k, get k (parsedFile (files (snd run) outputPath)) = get k merged) /\
   (present w rootPath = false ->
    forall k, get k merged = get k (parsedFile (files w localPath))) /\
   (present w localPath = false ->
    forall k, get k merged = get k (parsedFile (files w rootPath))) /\
   (forall text k,
      present w rootPath = false -> files w localPath = Some text ->
      inherited k = false -> get k merged = firstNonEmpty k (entries text)) /\
   (forall text k,
      present w localPath = false -> files w rootPath = Some text ->
      inherited k = false -> get k merged = firstNonEmpty k (entries text))).
Proof.
  intros merged run. split; [|split].
  - intros p A. rewrite parseEnvFile_run by (apply absent_no_directory; exact A).
    rewrite (absent_not_read _ _ A). reflexivity.
  - intros e T. destruct (mergeable rootPath localPath outputPath w) eqn:M; [|reflexivity].
    unfold run in T. rewrite (mergeEnvironmentFiles_run _ _ _ _ M) in T. discriminate.
  - intros M. unfold run. rewrite (mergeEnvironmentFiles_run _ _ _ _ M). cbn [fst snd].
    fold merged.
    assert (O : files (afterMerge rootPath localPath outputPath w) outputPath
                = Some (envContent merged)) by apply files_afterMerge_output.
    split; [reflexivity|]. split; [exact O|]. split; [|split; [|split; [|split]]].
    + intros k. rewrite O. cbn [parsedFile]. apply parse_envContent_get.
      apply mergeVars_clean; apply parsedFile_clean.
    + intros A k. unfold merged. rewrite (absent_not_read _ _ A). cbn [parsedFile].
      apply mergeVars_empty_root.
    + intros A k. unfold merged. rewrite (absent_not_read _ _ A). reflexivity.
    + intros text k A F NI. unfold merged.
      rewrite (absent_not_read _ _ A), F. cbn [parsedFile].
      rewrite mergeVars_empty_root. apply parse_first_non_empty. exact NI.
    + intros text k A F NI. unfold merged.
      rewrite (absent_not_read _ _ A), F. cbn [parsedFile].
      rewrite mergeVars_empty_local. apply parse_first_non_empty. exact NI.
Qed.

Lemma merge_tolerates_missing_files_witness :
  let w := host allSucceed composedTree in
  let run := mergeEnvironmentFiles "/workspace/.env" "/workspace/local.env"
                                   "/workspace/merged.env" w in
  present w "/workspace/local.env" = false /\
  mergeable "/workspace/.env" "/workspace/local.env" "/workspace/merged.env" w = true /\
  fst run = Ret [("A", "1"); ("B", "")] /\
  files (snd run) "/workspace/merged.env" = Some ("A=1" ++ NL ++ "B=")%string /\
  get "A" (parsedFile (files (snd run) "/workspace/merged.env")) = Some "1".
Proof.
  intros w run.
  assert (A : present w "/workspace/local.env" = false) by reflexivity.
  assert (M : mergeable "/workspace/.env" "/workspace/local.env"
                        "/workspace/merged.env" w = true) by reflexivity.
  destruct (proj2 (proj2 (merge_tolerates_missing_files
                            w "/workspace/.env" "/workspace/local.env"
                            "/workspace/merged.env")) M)
    as (R & O & B & _ & L & _ & T).
  split; [exact A|]. split; [exact M|].
  split; [etransitivity; [exact R | reflexivity]|].
  split; [etransitivity; [exact O | reflexivity]|].
  etransitivity; [apply B|].
  etransitivity; [exact (T ("A=1" ++ NL ++ "B=")%string "A" A eq_refl eq_refl)|].
  reflexivity.
Defined.

End MergerClaims.

(* ------------------------------------------------------------------------ *)
(** ** The progress gateway *)

Section GatewayClaims.
Import JsString JsObject EnvMerge Path Shell Host Catalog SolutionInstall.
Import ProgressController Spec Samples.

Lemma requested_orElse (query : option string) :
  orElse (match query with Some s => s | None => "" end) "" = requested query.
Proof.
  unfold orElse, requested. destruct query as [s|]; [|reflexivity].
  destruct (String.eqb_spec s ""); congruence.
Qed.

(** What the gateway does with a request. *)
Lemma getInstallationProgress_run (query : option string) (w : world) :
  getInstallationProgress query w =
  (Ret tt,
   if String.eqb (requested query) ""
   then closed (emitted (errorEvent "Solution type is required")
                        (emitted connectedEvent w))
   else match installWithProgress (Some (requested query)) (emitted connectedEvent w) with
        | (Ret _, w1) => closed w1
        | (Throw e, w1) =>
            closed (emitted (errorEvent (orElse e "Installation failed")) w1)
        end).
Proof.
  unfold getInstallationProgress. rewrite requested_orElse.
  unfold bind at 1, write at 1, modify at 1, try_catch.
  destruct (String.eqb (requested query) ""); [reflexivity|].
  unfold bind at 1.
  fold connectedEvent.
  destruct (installWithProgress (Some (requested query)) (emitted connectedEvent w))
    as [[i|e] w1]; reflexivity.
Qed.

(** C3.  The stream of an attempt carries [connected], then nothing while the
    installer runs (the installer never writes to the response), then a
    single [error] event with the message when the attempt failed or no
    solution type was given, and nothing more when the install completed;
    the server then ends the stream. *)
Theorem progress_stream_contents (query : option string) (w : world) :
  let w' := snd (getInstallationProgress query w) in
  respects same_stream (installWithProgress (Some (requested query))) /\
  ended w' = true /\
  events w' = events w ++ connectedEvent :: closingEvents query w /\
  forallb (fun e => String.eqb (type e) "error") (closingEvents query w) = true /\
  closingEvents query w =
    (if String.eqb (requested query) "" then [errorEvent "Solution type is required"]
     else match fst (installWithProgress (Some (requested query))
                                         (emitted connectedEvent w)) with
          | Ret _ => []
          | Throw e => [errorEvent (orElse e "Installation failed")]
          end).
Proof.
  intros w'. split; [apply installWithProgress_stream|].
  assert (K : forallb (fun e => String.eqb (type e) "error") (closingEvents query w) = true).
  { unfold closingEvents. destruct (String.eqb (requested query) ""); [reflexivity|].
    destruct (fst _); reflexivity. }
  subst w'. rewrite getInstallationProgress_run. unfold closingEvents in *.
  destruct (String.eqb (requested query) "") eqn:Q.
  - repeat split; try reflexivity; try exact K.
    simpl. rewrite <- app_assoc. reflexivity.
  - pose proof (installWithProgress_stream (Some (requested query))
                  (emitted connectedEvent w)) as [E1 E2].
    destruct (installWithProgress (Some (requested query)) (emitted connectedEvent w))
      as [[i|e] w1]; simpl in *.
    + repeat split. rewrite E1. reflexivity.
    + repeat split. rewrite E1, <- app_assoc. reflexivity.
Qed.

(** C3, as the specification states it, fails: a completed install of
    [ai-recruiter] ends the stream with [connected] as its last event, not
    with a [succeeded] event. *)
Lemma completed_install_sends_no_succeeded :
  fst (installWithProgress (Some "ai-recruiter")
         (emitted connectedEvent (host allSucceed composedTree)))
  = Ret {| success := true; installedPort := Some "4000";
           installedType := "ai-recruiter" |} /\
  events (snd (getInstallationProgress (Some "ai-recruiter")
                 (host allSucceed composedTree))) = [connectedEvent] /\
  ~ finalEventPromised (Some "ai-recruiter") (host allSucceed composedTree).
Proof.
  split; [vm_compute; reflexivity|]. split; [vm_compute; reflexivity|].
  intros (e & L & T). vm_compute in L. vm_compute in T. subst e. discriminate.
Qed.

Lemma installWithProgress_unknown (s : string) (w : world) :
  s <> "" -> lookup s = None ->
  installWithProgress (Some s) w = (Throw ("Unknown solution type: " ++ s)%string, w).
Proof.
  intros NE L. unfold installWithProgress, try_catch, truthy.
  destruct (String.eqb_spec s "") as [E|_]; [contradiction|].
  simpl. rewrite L. reflexivity.
Qed.

(** A request whose solution type is absent, or is neither a key of the
    catalog nor an inherited name, gets one [error] event after [connected];
    no command is run and no file changes. *)
Lemma unknown_solution_rejected (query : option string) (w : world) :
  requested query = "" \/ lookup (requested query) = None ->
  let w' := snd (getInstallationProgress query w) in
  ended w' = true /\
  (exists m, events w' = events w ++ [connectedEvent; errorEvent m]) /\
  trace w' = trace w /\ files w' = files w.
Proof.
  intros H w'. subst w'. rewrite getInstallationProgress_run.
  destruct (String.eqb_spec (requested query) "") as [E|NE].
  - simpl. repeat split. eexists. rewrite <- app_assoc. reflexivity.
  - destruct H as [H|H]; [contradiction|].
    rewrite (installWithProgress_unknown _ _ NE H). simpl.
    repeat split. eexists. rewrite <- app_assoc. reflexivity.
Qed.

(** C4.  [constructor] is not a key of the catalog, yet the member access
    [SOLUTION_CONFIGS[solutionType]] finds the inherited member, which is
    truthy: on every host the attempt removes [/workspace/undefined] and
    runs [git clone -b undefined undefined /workspace/undefined]. *)
Theorem inherited_name_reaches_clone (w : world) :
  own "constructor" SOLUTION_CONFIGS = None /\
  lookup "constructor" = Some inheritedMember /\
  exists rest,
    trace (snd (getInstallationProgress (Some "constructor") w))
    = trace w ++ Ran (RmRf "/workspace/undefined")
        :: Ran (GitClone "undefined" "undefined" "/workspace/undefined") :: rest.
Proof.
  split; [reflexivity|]. split; [reflexivity|].
  rewrite getInstallationProgress_run.
  change (String.eqb (requested (Some "constructor")) "") with false. cbv iota.
  unfold installWithProgress, try_catch, bind, runCommand, cleanupExistingContainers,
    handleError, throw, ret.
  cbn -[String.append].
  destruct (tools w _ _) as [code|m]; [destruct (code =? 0)%Z eqn:C|];
    cbn -[String.append]; rewrite ?C; cbn -[String.append];
    repeat rewrite <- app_assoc; eexists; reflexivity.
Qed.

End GatewayClaims.

(* ------------------------------------------------------------------------ *)
(** ** The installer *)

Section InstallerClaims.
Import JsString JsObject EnvMerge Path Shell Host Catalog SolutionInstall.
Import ProgressController Spec Behaviour Samples.

(** C5.  When the clone command of an attempt ends with a non-zero exit code,
    [installWithProgress] throws the failure of that command, the attempt ran
    the removal of the old clone and the clone and nothing else, so
    [mergeEnvironmentFiles] was not called, and the stream is closed with the
    clone failure as its [error] event. *)
Theorem clone_failure_stops_attempt
    (w : world) (s : string) (c : config) (code : Z) :
  let repoPath := ("/workspace/" ++ interp (repoName c))%string in
  let clone := GitClone (interp (branchName c)) (interp (repoUrl c)) repoPath in
  s <> "" ->
  lookup s = Some c ->
  tools w (trace w ++ [Ran (RmRf repoPath)]) clone = Closed code ->
  code <> 0%Z ->
  fst (installWithProgress (Some s) w)
    = Throw ("Command failed: " ++ render clone)%string /\
  trace (snd (installWithProgress (Some s) w))
    = trace w ++ [Ran (RmRf repoPath); Ran clone] /\
  existsb is_merge [Ran (RmRf repoPath); Ran clone] = false /\
  closingEvents (Some s) w = [errorEvent ("Command failed: " ++ render clone)%string].
Proof.
  intros repoPath clone NE L T C.
  assert (R : forall w0, tools w0 = tools w -> trace w0 = trace w ->
              installWithProgress (Some s) w0
              = (Throw ("Command failed: " ++ render clone)%string,
                 afterCommand clone (afterCommand (RmRf repoPath) w0))).
  { intros w0 Et Er.
    unfold installWithProgress, try_catch, truthy.
    destruct (String.eqb_spec s "") as [E|_]; [contradiction|].
    cbn [negb interp]. rewrite L. fold repoPath. fold clone.
    rewrite (bind_run _ _ w0 (afterCommand (RmRf repoPath) w0) "success")
      by reflexivity.
    assert (F : runCommand clone (afterCommand (RmRf repoPath) w0)
                = (Throw ("Command failed: " ++ render clone)%string,
                   afterCommand clone (afterCommand (RmRf repoPath) w0))).
    { apply (runCommand_fails _ _ code); [|exact C].
      unfold clone. rewrite sh_clone_fst. fold clone.
      cbn [afterCommand tools trace logged with_disk sh snd]. rewrite Et, Er. exact T. }
    rewrite (bind_throws _ _ _ _ _ F). reflexivity. }
  split; [rewrite R; reflexivity|].
  split.
  { rewrite R by reflexivity. unfold afterCommand. cbn [snd logged trace].
    rewrite (proj1 (proj2 (proj2 (proj2 (sh_keeps clone _))))).
    cbn [sh snd logged with_disk trace].
    rewrite <- app_assoc. reflexivity. }
  split; [reflexivity|].
  unfold closingEvents. cbn [requested].
  destruct (String.eqb_spec s "") as [E|_]; [contradiction|].
  rewrite R by reflexivity. reflexivity.
Qed.

Lemma clone_failure_stops_attempt_witness :
  let w := host cloneFails composedTree in
  let clone := GitClone "main" "https://github.com/devweam-ai/foloup.git" recruiterPath in
  "ai-recruiter" <> "" /\
  tools w (trace w ++ [Ran (RmRf recruiterPath)]) clone = Closed 128 /\
  128%Z <> 0%Z /\
  fst (installWithProgress (Some "ai-recruiter") w)
    = Throw ("Command failed: " ++ render clone)%string /\
  trace (snd (installWithProgress (Some "ai-recruiter") w))
    = [Ran (RmRf recruiterPath); Ran clone].
Proof.
  intros w clone.
  split; [discriminate|]. split; [reflexivity|]. split; [discriminate|].
  destruct (clone_failure_stops_attempt w "ai-recruiter"
              {| repoUrl := Some "https://github.com/devweam-ai/foloup.git";
                 repoName := Some "foloup";
                 imageName := Some "foloup-img";
                 containerName := Some "foloup-container";
                 port := Some "4000";
                 branchName := Some "main";
                 installType := Some "docker-compose";
                 envFile := Some ".env.example";
                 additionalPorts := Some [] |} 128%Z)
    as (H1 & H2 & _); [discriminate | reflexivity | reflexivity | discriminate |].
  split; [exact H1 | exact H2].
Defined.



Lemma composeFile_structureOf (w : world) (repoPath : string) :
  composeFile (structureOf w repoPath) = firstExisting w repoPath composeFiles.
Proof. unfold structureOf. cbn [composeFile]. symmetry. apply firstExisting_find. Qed.

Lemma exitedZero_false (r : proc) : r <> Closed 0 -> exitedZero r = false.
Proof.
  destruct r as [code|m]; [|reflexivity]. intros N. simpl.
  destruct (Z.eqb_spec code 0) as [->|_]; [contradiction | reflexivity].
Qed.

(** Whatever the host, a composed install of a repository with a compose
    descriptor issues no command of the single-container path, and one of a
    repository without a compose descriptor never calls the composition
    tool. *)
Lemma composed_install_other_path (c : config) (repoPath : string) (w : world) :
  (composeFile (structureOf w repoPath) <> None ->
   grows (fun cmd => negb (isSingleCommand cmd)) w
         (snd (installDockerComposeService c repoPath w))) /\
  (composeFile (structureOf w repoPath) = None ->
   grows (fun cmd => negb (isComposeCommand cmd)) w
         (snd (installDockerComposeService c repoPath w))).
Proof.
  rewrite composeFile_structureOf, installDockerComposeService_general. cbv zeta.
  set (w1 := afterCommand (MaterializeEnv repoPath (composedTemplate c)) w).
  assert (G1 : forall Q, Q (MaterializeEnv repoPath (composedTemplate c)) = true ->
                         grows Q w w1).
  { intros Q HQ. apply grows_command. exact HQ. }
  assert (G2 : forall Q, grows Q w1 (snd (mergeEnvironmentFiles rootEnvPath
                 (localEnvPath repoPath) (tempEnvPath repoPath) w1))).
  { intros Q. apply (respects_merge _ (grows_trans Q)).
    - intro. apply grows_merged.
    - intros. apply grows_disk. }
  assert (G3 : forall Q, Q (MaterializeEnv repoPath (composedTemplate c)) = true ->
                         grows Q w (afterPrelude c repoPath w)).
  { intros Q HQ. unfold afterPrelude. fold w1.
    eapply grows_trans; [apply G1; exact HQ | apply grows_merge]. }
  destruct (present w repoPath); [|split; intros _; cbn [snd]; apply G1; reflexivity].
  destruct (mergeable _ _ _ w1);
    [|split; intros _; cbn [snd]; (eapply grows_trans; [apply G1; reflexivity | apply G2])].
  destruct (firstExisting w repoPath composeFiles) as [f|].
  - split; [intros _ | intros X; discriminate].
    eapply grows_trans; [apply G3; reflexivity | apply composeBranch_grows].
  - split; [intros X; contradiction | intros _].
    destruct (present w (child repoPath "Dockerfile")).
    + eapply grows_trans; [apply G3; reflexivity | apply installDockerService_grows].
    + cbn [snd]. apply G3. reflexivity.
Qed.


(** The three ways of a composed install on an installable host, by the
    structure of the repository at its start. *)
Lemma composed_install_paths (c : config) (repoPath : string) (w : world) :
  installable repoPath w = true ->
  let wp := afterPrelude c repoPath w in
  let run := installDockerComposeService c repoPath w in
  match composeFile (structureOf w repoPath) with
  | Some _ =>
      let wu := beforeComposeUp repoPath wp in
      let up := tools w (trace wu) (ComposeUp repoPath) in
      run = (settled (ComposeUp repoPath) up,
             if exitedZero up
             then logged (Ran (RmF (tempEnvPath repoPath)))
                         (with_disk (Fs.remove (disk wu) (tempEnvPath repoPath))
                                    (logged (Ran (ComposeUp repoPath)) wu))
             else logged (Ran (ComposeUp repoPath)) wu)
  | None =>
      if hasDockerfile (structureOf w repoPath)
      then run = installDockerService c repoPath wp
      else run = (Throw "No Docker configuration found in repository", wp)
  end.
Proof.
  intros H wp run. unfold run.
  rewrite (installDockerComposeService_dispatch c repoPath w H).
  rewrite composeFile_structureOf.
  unfold structureOf at 1. cbn [hasDockerfile].
  destruct (firstExisting w repoPath composeFiles) as [f|].
  - cbv zeta. fold wp.
    pose proof (installable_afterPrelude c repoPath w H) as Hp. fold wp in Hp.
    apply installable_inv in Hp as (_ & _ & Dl & _).
    rewrite (composeBranch_run repoPath _ wp (files_afterMerge_output _ _ _ _) Dl).
    assert (Tp : tools wp = tools w) by apply tools_afterPrelude.
    rewrite Tp. reflexivity.
  - destruct (present w (child repoPath "Dockerfile")); reflexivity.
Qed.



(** The two ways end to end, for the [ai-recruiter] entry, which declares
    [docker-compose]: with a compose file (and a Dockerfile) the attempt runs
    the composition command; with the Dockerfile alone it builds and runs one
    container; a directory called [compose.yml] counts as a compose
    descriptor. *)
Example composed_entry_end_to_end :
  trace (snd (installWithProgress (Some "ai-recruiter") (host allSucceed composedTree)))
  = [ Ran (RmRf recruiterPath);
      Ran (GitClone "main" "https://github.com/devweam-ai/foloup.git" recruiterPath);
      Ran (DockerRmForce "foloup-container");
      Ran (MaterializeEnv recruiterPath ".env.example");
      Merged rootEnvPath (localEnvPath recruiterPath) (tempEnvPath recruiterPath);
      Ran ComposeVersionV1;
      Ran (Cp (tempEnvPath recruiterPath) (localEnvPath recruiterPath));
      Ran (ComposeUp recruiterPath);
      Ran (RmF (tempEnvPath recruiterPath)) ] /\
  trace (snd (installWithProgress (Some "ai-recruiter") (host allSucceed dockerfileTree)))
  = [ Ran (RmRf recruiterPath);
      Ran (GitClone "main" "https://github.com/devweam-ai/foloup.git" recruiterPath);
      Ran (DockerRmForce "foloup-container");
      Ran (MaterializeEnv recruiterPath ".env.example");
      Merged rootEnvPath (localEnvPath recruiterPath) (tempEnvPath recruiterPath);
      Ran (MaterializeEnv recruiterPath ".env.example");
      Merged rootEnvPath (localEnvPath recruiterPath) (tempEnvPath recruiterPath);
      Ran (Cp (tempEnvPath recruiterPath) (localEnvPath recruiterPath));
      Ran (DockerBuild "foloup-img" recruiterPath);
      Ran (DockerRun "foloup-container" networkName "4000" "foloup-img");
      Ran (MaterializeEnv recruiterPath ".env.example");
      Ran (RmF (tempEnvPath recruiterPath)) ] /\
  structureOf (clonedOf allSucceed composeDirectoryTree) recruiterPath
  = {| hasDockerCompose := true; hasDockerfile := true;
       composeFile := Some "compose.yml" |} /\
  existsb (ran isSingleCommand)
          (trace (snd (installWithProgress (Some "ai-recruiter")
                         (hostOf allSucceed composeDirectoryTree)))) = false.
Proof. repeat split; vm_compute; reflexivity. Qed.

(** C2.  In a composed install of a repository with a compose file, on an
    installable host where both probes for the composition tool fail, the
    installer tries once to install the tool and, whatever comes of that,
    copies the merged environment and runs [docker-compose up]: the install
    ends as that command ends, and no command of the single-container path
    is run.  The single-container install is entered when the repository has
    no compose file and has a Dockerfile, and the install throws [No Docker
    configuration found in repository] when it has neither. *)
Theorem missing_tool_proceeds_to_compose (c : config) (repoPath : string) (w : world) :
  let wp := afterPrelude c repoPath w in
  let tr := traceWithoutTool c repoPath w in
  let run := installDockerComposeService c repoPath w in
  installable repoPath w = true ->
  (composeFile (structureOf w repoPath) <> None ->
   tools w (trace wp) ComposeVersionV1 <> Closed 0 ->
   tools w (trace wp ++ [Ran ComposeVersionV1]) ComposeVersionV2 <> Closed 0 ->
   fst run = settled (ComposeUp repoPath) (tools w tr (ComposeUp repoPath)) /\
   (exists rest, trace (snd run) = tr ++ Ran (ComposeUp repoPath) :: rest) /\
   grows (fun cmd => negb (isSingleCommand cmd)) w (snd run)) /\
  (composeFile (structureOf w repoPath) = None ->
   hasDockerfile (structureOf w repoPath) = true ->
   run = installDockerService c repoPath wp) /\
  (composeFile (structureOf w repoPath) = None ->
   hasDockerfile (structureOf w repoPath) = false ->
   run = (Throw "No Docker configuration found in repository", wp)).
Proof.
  intros wp tr run H.
  pose proof (composed_install_paths c repoPath w H) as D.
  cbv zeta in D. fold run in D. fold wp in D.
  split; [|split].
  - intros HC N1 N2.
    pose proof (proj1 (composed_install_other_path c repoPath w) HC) as G.
    destruct (composeFile (structureOf w repoPath)) as [f|]; [|contradiction].
    assert (Tu : trace (beforeComposeUp repoPath wp) = tr).
    { pose proof (installable_afterPrelude c repoPath w H) as Hp. fold wp in Hp.
      apply installable_inv in Hp as (_ & _ & Dl & _).
      destruct (composeBranch_head repoPath _ wp (files_afterMerge_output _ _ _ _) Dl)
        as (_ & _ & _ & _ & T).
      fold wp in T. rewrite T. unfold toolFound.
      assert (Tp : tools wp = tools w) by apply tools_afterPrelude.
      rewrite Tp.
      rewrite (exitedZero_false _ N1), (exitedZero_false _ N2). cbn [orb].
      unfold tr, traceWithoutTool, wp. rewrite trace_afterPrelude.
      repeat rewrite <- app_assoc. reflexivity. }
    rewrite Tu in D. fold run in G.
    split; [rewrite D; reflexivity|]. split; [|exact G].
    rewrite D. cbn [snd].
    destruct (exitedZero _); cbn [trace logged with_disk]; rewrite Tu;
      rewrite <- ?app_assoc; eexists; reflexivity.
  - intros HC HD. rewrite HC, HD in D. exact D.
  - intros HC HD. rewrite HC, HD in D. exact D.
Qed.

Lemma missing_tool_proceeds_to_compose_witness :
  let w := cloned noComposeTool composedTree in
  let wp := afterPrelude recruiter recruiterPath w in
  installable recruiterPath w = true /\
  composeFile (structureOf w recruiterPath) <> None /\
  tools w (trace wp) ComposeVersionV1 <> Closed 0 /\
  tools w (trace wp ++ [Ran ComposeVersionV1]) ComposeVersionV2 <> Closed 0 /\
  fst (installDockerComposeService recruiter recruiterPath w)
  = Throw "Command failed: cd /workspace/foloup && docker-compose up -d --build".
Proof.
  intros w wp.
  assert (H0 : installable recruiterPath w = true) by (vm_compute; reflexivity).
  assert (H1 : composeFile (structureOf w recruiterPath) <> None)
    by (vm_compute; discriminate).
  assert (H2 : tools w (trace wp) ComposeVersionV1 <> Closed 0)
    by (vm_compute; discriminate).
  assert (H3 : tools w (trace wp ++ [Ran ComposeVersionV1]) ComposeVersionV2 <> Closed 0)
    by (vm_compute; discriminate).
  split; [exact H0|]. split; [exact H1|]. split; [exact H2|]. split; [exact H3|].
  destruct (proj1 (missing_tool_proceeds_to_compose recruiter recruiterPath w H0) H1 H2 H3)
    as [E _].
  rewrite E. vm_compute. reflexivity.
Defined.

(** C2, as the specification states it, fails.  The host has no working
    composition tool and the tool cannot be installed; the repository has a
    compose file and a Dockerfile.  The install runs no command of the
    single-container path and ends with the failure of [docker-compose up];
    without the Dockerfile it ends the same way, not with [No Docker
    configuration found in repository]. *)
Lemma no_fallback_without_tool :
  let w := cloned noComposeTool composedTree in
  let w' := cloned noComposeTool composeOnlyTree in
  structureOf w recruiterPath
  = {| hasDockerCompose := true; hasDockerfile := true;
       composeFile := Some "docker-compose.yml" |} /\
  fst (isDockerComposeAvailable (afterPrelude recruiter recruiterPath w)) = Ret false /\
  ~ fallbackPromised recruiter recruiterPath w /\
  existsb (ran isSingleCommand)
          (trace (snd (installDockerComposeService recruiter recruiterPath w))) = false /\
  fst (installDockerComposeService recruiter recruiterPath w)
  = Throw "Command failed: cd /workspace/foloup && docker-compose up -d --build" /\
  hasDockerfile (structureOf w' recruiterPath) = false /\
  fst (installDockerComposeService recruiter recruiterPath w')
  = Throw "Command failed: cd /workspace/foloup && docker-compose up -d --build".
Proof.
  intros w w'.
  split; [vm_compute; reflexivity|]. split; [vm_compute; reflexivity|].
  split.
  { intros [E _]. vm_compute in E. discriminate. }
  repeat split; vm_compute; reflexivity.
Qed.






End InstallerClaims.

(* ------------------------------------------------------------------------ *)
(** ** The health check *)

Section HealthClaims.
Import JsString JsObject EnvMerge Path Shell Host Catalog SolutionInstall.
Import ProgressController Spec Samples.

Lemma matches_wellFormed (solutionType line : string) :
  wellFormed line -> matches solutionType line = Some (upWithName solutionType line).
Proof.
  unfold wellFormed, matches, upWithName.
  destruct (nameAndStatus line) as [name [st|]]; cbn [snd]; intros W.
  - destruct (includes solutionType name || includes "foloup" name
              || includes "ai-doc" name || includes "landing-page" name);
      reflexivity.
  - contradiction.
Qed.

(** [find] returns the first line that counts. *)
Lemma findLine_first (solutionType : string) (lines : list string) :
  Forall wellFormed lines ->
  (exists line, In line lines /\ upWithName solutionType line = true) ->
  exists first, In first lines /\ upWithName solutionType first = true /\
                findLine solutionType lines = Some (Some first).
Proof.
  induction 1 as [|l lines W _ IH]; intros (line & I & U).
  - contradiction.
  - simpl. rewrite (matches_wellFormed _ _ W).
    destruct (upWithName solutionType l) eqn:Ul.
    + exists l. repeat split; [now left | exact Ul].
    + destruct I as [->|I]; [congruence|].
      destruct IH as (first & I' & U' & F); [exists line; split; assumption|].
      exists first. repeat split; [now right | exact U' | exact F].
Qed.

(** C10.  For a query with a solution type, when the process listing shows no
    [docker-compose] or [docker build] process, the container listing
    succeeds and each of its lines has a name and a status: if some line has
    a status word containing [Up] and a name containing the queried type or
    one of [foloup], [ai-doc], [landing-page], the answer is [running] with
    the first such line.  The three substrings do not depend on the query: a
    query for [seo-content-gen] is answered [running] because
    [foloup-container] is up. *)
Theorem health_running_by_any_alias (solutionType psOut stdout : string) :
  (solutionType <> "" ->
   trim psOut = "" ->
   Forall wellFormed (containerLines stdout) ->
   (exists line, In line (containerLines stdout) /\ upWithName solutionType line = true) ->
   exists first,
     In first (containerLines stdout) /\ upWithName solutionType first = true /\
     checkInstallationHealth (Some solutionType) psOut (Some stdout)
     = Some (Json "running" first)) /\
  checkInstallationHealth (Some "seo-content-gen") "" (Some "foloup-container Up 5 minutes")
  = Some (Json "running" "foloup-container Up 5 minutes").
Proof.
  split; [|reflexivity].
  intros NE PS W E.
  destruct (findLine_first solutionType _ W E) as (first & I & U & F).
  exists first. repeat split; [exact I | exact U|].
  unfold checkInstallationHealth. cbn [orElse].
  unfold orElse. apply String.eqb_neq in NE. rewrite NE, NE.
  rewrite PS. cbn [String.eqb negb]. rewrite F. reflexivity.
Qed.

Lemma health_running_by_any_alias_witness :
  let stdout := ("weam-node Exited" ++ NL ++ "foloup-container Up 5 minutes")%string in
  "seo-content-gen" <> "" /\
  trim "" = "" /\
  Forall wellFormed (containerLines stdout) /\
  (exists line, In line (containerLines stdout)
                /\ upWithName "seo-content-gen" line = true) /\
  exists first,
    checkInstallationHealth (Some "seo-content-gen") "" (Some stdout)
    = Some (Json "running" first).
Proof.
  intros stdout.
  assert (W : Forall wellFormed (containerLines stdout)).
  { assert (L : containerLines stdout
                = ["weam-node Exited"; "foloup-container Up 5 minutes"])
      by (vm_compute; reflexivity).
    rewrite L.
    constructor; [intros H; vm_compute in H; discriminate|].
    constructor; [intros H; vm_compute in H; discriminate|].
    constructor. }
  assert (E : exists line, In line (containerLines stdout)
                           /\ upWithName "seo-content-gen" line = true).
  { exists "foloup-container Up 5 minutes". split; [right; left|]; reflexivity. }
  split; [discriminate|]. split; [reflexivity|]. split; [exact W|]. split; [exact E|].
  destruct (proj1 (health_running_by_any_alias "seo-content-gen" "" stdout)
              ltac:(discriminate) eq_refl W E) as (first & _ & _ & H).
  exists first. exact H.
Defined.

(** C10, as stated, fails while an installation runs: a [docker build]
    process is listed, the container of the queried solution is up, and the
    answer is [installing]. *)
Lemma health_installing_hides_running :
  let psOut := "root 4242 0.0 0.1 docker build -t foloup-img /workspace/foloup" in
  let stdout := "seo-content-gen-container Up 2 minutes" in
  checkInstallationHealth (Some "seo-content-gen") psOut (Some stdout)
  = Some (Json "installing" "Installation in progress") /\
  ~ runningPromised "seo-content-gen" psOut stdout.
Proof.
  intros psOut stdout. split; [reflexivity|].
  intros H. destruct H as (detail & D).
  - exists stdout. split; [left|]; reflexivity.
  - vm_compute in D. discriminate.
Qed.

End HealthClaims.

(* ------------------------------------------------------------------------ *)
(** ** Behaviour of the single steps of the installer *)

Section StepBehaviour.
Import JsString JsObject EnvMerge Path Shell Host Catalog SolutionInstall.
Import Spec Behaviour Samples.

Lemma stop_published_run (ports : list string) (w : world) :
  exists w',
    for_each ports (fun port => bind (runCommand (StopPublished port)) (fun _ => ret tt)) w
    = (Ret tt, w') /\
    disk w' = disk w /\ events w' = events w /\ ended w' = ended w /\
    trace w' = trace w ++ map (fun port => Ran (StopPublished port)) ports /\
    tools w' = tools w /\ remote w' = remote w.
Proof.
  revert w. induction ports as [|p ports IH]; intros w; simpl.
  - exists w. rewrite app_nil_r. repeat split.
  - destruct (IH (afterCommand (StopPublished p) w))
      as (w' & E & F & Ev & En & T & To & Re).
    exists w'. unfold bind at 1. unfold bind at 1.
    change (runCommand (StopPublished p) w)
      with (Ret "success", afterCommand (StopPublished p) w).
    cbv iota. unfold ret at 1.
    split; [exact E|]. repeat split; try assumption.
    etransitivity; [exact T|].
    cbn [afterCommand trace logged sh snd].
    rewrite <- app_assoc. reflexivity.
Qed.

Lemma cleanupExistingContainers_run (c : config) (w : world) :
  exists w',
    cleanupExistingContainers c w = (Ret tt, w') /\
    trace w' = trace w ++ Ran (DockerRmForce (interp (containerName c)))
                 :: map (fun port => Ran (StopPublished port)) (portsOf c) /\
    disk w' = disk w /\ events w' = events w /\ ended w' = ended w /\
    tools w' = tools w /\ remote w' = remote w.
Proof.
  unfold cleanupExistingContainers, try_catch, portsOf.
  unfold bind at 1.
  change (runCommand (DockerRmForce (interp (containerName c))) w)
    with (Ret "success", afterCommand (DockerRmForce (interp (containerName c))) w).
  cbv iota.
  destruct (additionalPorts c) as [ports|].
  - destruct (stop_published_run ports
                (afterCommand (DockerRmForce (interp (containerName c))) w))
      as (w' & E & F & Ev & En & T & To & Re).
    rewrite E. exists w'. split; [reflexivity|]. repeat split; try assumption.
    etransitivity; [exact T|].
    cbn [afterCommand trace logged sh snd].
    rewrite <- app_assoc. reflexivity.
  - eexists. split; [reflexivity|]. cbn. repeat split.
Qed.

(** X7.  [cleanupExistingContainers] always returns.  It force-removes the
    entry's container, then stops the containers publishing each additional
    port, in the order of the list, and touches neither the files nor the
    response. *)
Theorem cleanup_is_best_effort (c : config) (w : world) :
  let w' := snd (cleanupExistingContainers c w) in
  fst (cleanupExistingContainers c w) = Ret tt /\
  trace w' = trace w ++ Ran (DockerRmForce (interp (containerName c)))
               :: map (fun port => Ran (StopPublished port)) (portsOf c) /\
  files w' = files w /\ events w' = events w /\ ended w' = ended w.
Proof.
  destruct (cleanupExistingContainers_run c w) as (w1 & E & T & F & Ev & En & _).
  rewrite E. cbn [fst snd]. unfold files. rewrite F. repeat split; assumption.
Qed.

(** X8.  [isDockerComposeAvailable] never throws.  It answers [true] exactly when
    [docker-compose --version] or, failing that, [docker compose version]
    ends with code 0; the second probe is run only when the first fails. *)
Theorem compose_probe_answer (w : world) :
  fst (isDockerComposeAvailable w)
  = Ret (exitedZero (tools w (trace w) ComposeVersionV1)
         || exitedZero (tools w (trace w ++ [Ran ComposeVersionV1]) ComposeVersionV2)) /\
  trace (snd (isDockerComposeAvailable w))
  = trace w ++ (if exitedZero (tools w (trace w) ComposeVersionV1)
                then [Ran ComposeVersionV1]
                else [Ran ComposeVersionV1; Ran ComposeVersionV2]) /\
  files (snd (isDockerComposeAvailable w)) = files w.
Proof.
  destruct (isDockerComposeAvailable_run w) as [E T]. rewrite E. cbn [fst snd].
  split; [reflexivity|]. split; [exact T|].
  unfold files. rewrite (proj1 (afterProbes_keeps w)). reflexivity.
Qed.

(** X9.  Once the scratch file is in place and [.env] is no directory, the
    compose branch ends as [docker-compose up] ends.  Before that command
    it runs the probes, the installation of the tool exactly when both probes
    failed, and the copy of the scratch file; a failed installation of the
    tool changes nothing in what follows.  The scratch file is removed only
    after a successful [up]. *)
Theorem compose_branch_outcome (repoPath content : string) (w : world) :
  files w (tempEnvPath repoPath) = Some content ->
  isDirectory w (localEnvPath repoPath) = false ->
  let up := tools w (trace (beforeComposeUp repoPath w)) (ComposeUp repoPath) in
  fst (composeBranch repoPath w) = settled (ComposeUp repoPath) up /\
  trace (snd (composeBranch repoPath w))
  = trace w
    ++ (if exitedZero (tools w (trace w) ComposeVersionV1)
        then [Ran ComposeVersionV1]
        else [Ran ComposeVersionV1; Ran ComposeVersionV2])
    ++ (if toolFound w then [] else [Ran InstallCompose])
    ++ Ran (Cp (tempEnvPath repoPath) (localEnvPath repoPath))
    :: Ran (ComposeUp repoPath)
    :: (if exitedZero up then [Ran (RmF (tempEnvPath repoPath))] else []).
Proof.
  intros F D up.
  destruct (composeBranch_head repoPath content w F D) as (_ & _ & _ & _ & T).
  rewrite (composeBranch_run repoPath content w F D). fold up. cbn [fst snd].
  split; [reflexivity|].
  destruct (exitedZero up); cbn [trace logged with_disk]; rewrite T;
    repeat rewrite <- app_assoc; reflexivity.
Qed.

Lemma compose_branch_outcome_witness :
  let w := afterPrelude recruiter recruiterPath (cloned noComposeTool composedTree) in
  files w (tempEnvPath recruiterPath) = Some ("A=1" ++ NL ++ "B=2" ++ NL ++ "C=")%string /\
  isDirectory w (localEnvPath recruiterPath) = false /\
  fst (composeBranch recruiterPath w)
  = Throw "Command failed: cd /workspace/foloup && docker-compose up -d --build".
Proof.
  intros w.
  assert (F : files w (tempEnvPath recruiterPath)
              = Some ("A=1" ++ NL ++ "B=2" ++ NL ++ "C=")%string)
    by (vm_compute; reflexivity).
  assert (D : isDirectory w (localEnvPath recruiterPath) = false)
    by (vm_compute; reflexivity).
  split; [exact F|]. split; [exact D|].
  rewrite (proj1 (compose_branch_outcome recruiterPath _ w F D)).
  vm_compute. reflexivity.
Defined.

(** X10.  Nothing is rolled back when [docker-compose up] fails: the repository's
    [.env] holds the merged text and the scratch file is still there.  After
    a successful [up] the scratch file is gone and [.env] keeps the merged
    text. *)
Theorem compose_branch_files (repoPath content : string) (w : world) :
  files w (tempEnvPath repoPath) = Some content ->
  isDirectory w (localEnvPath repoPath) = false ->
  let up := tools w (trace (beforeComposeUp repoPath w)) (ComposeUp repoPath) in
  let w' := snd (composeBranch repoPath w) in
  files w' (localEnvPath repoPath) = Some content /\
  files w' (tempEnvPath repoPath) = (if exitedZero up then None else Some content).
Proof.
  intros F D up w'. subst w'.
  destruct (composeBranch_head repoPath content w F D) as (_ & Fl & Ft & _).
  rewrite (composeBranch_run repoPath content w F D). fold up. cbn [snd].
  assert (NL' : localEnvPath repoPath <> tempEnvPath repoPath).
  { intros E. symmetry in E. apply String.eqb_neq in E; [exact E|]. apply temp_not_local. }
  destruct (exitedZero up).
  - rewrite !files_logged, files_with_disk. split.
    + rewrite remove_other by exact NL'. exact Fl.
    + apply remove_same.
  - rewrite files_logged. split; [exact Fl | exact Ft].
Qed.

Lemma compose_branch_files_witness :
  let w := afterPrelude recruiter recruiterPath (cloned noComposeTool composedTree) in
  let w' := snd (composeBranch recruiterPath w) in
  files w (tempEnvPath recruiterPath) = Some ("A=1" ++ NL ++ "B=2" ++ NL ++ "C=")%string /\
  isDirectory w (localEnvPath recruiterPath) = false /\
  files w' (localEnvPath recruiterPath) = Some ("A=1" ++ NL ++ "B=2" ++ NL ++ "C=")%string /\
  files w' (tempEnvPath recruiterPath) = Some ("A=1" ++ NL ++ "B=2" ++ NL ++ "C=")%string.
Proof.
  intros w w'.
  assert (F : files w (tempEnvPath recruiterPath)
              = Some ("A=1" ++ NL ++ "B=2" ++ NL ++ "C=")%string)
    by (vm_compute; reflexivity).
  assert (D : isDirectory w (localEnvPath recruiterPath) = false)
    by (vm_compute; reflexivity).
  split; [exact F|]. split; [exact D|].
  destruct (compose_branch_files recruiterPath _ w F D) as [H1 H2].
  split; [exact H1|]. etransitivity; [exact H2|]. vm_compute. reflexivity.
Defined.

(** X11.  On an installable host the single-container install fails exactly
    when [docker build] or, after a successful build, [docker run] fails,
    with that command's error.  The container is started only after a
    successful build, and the template is restored and the scratch file
    removed only after a successful start. *)
Theorem single_install_outcome (c : config) (repoPath : string) (w : world) :
  installable repoPath w = true ->
  let wb := beforeBuild c repoPath w in
  let build := tools w (trace wb) (buildCommand c repoPath) in
  let run := tools w (trace wb ++ [Ran (buildCommand c repoPath)]) (runContainer c) in
  fst (installDockerService c repoPath w)
  = (if exitedZero build then settled (runContainer c) run
     else settled (buildCommand c repoPath) build) /\
  trace (snd (installDockerService c repoPath w))
  = trace wb ++ Ran (buildCommand c repoPath)
      :: (if exitedZero build
          then Ran (runContainer c)
               :: (if exitedZero run
                   then [ Ran (MaterializeEnv repoPath (interp (envFile c)));
                          Ran (RmF (tempEnvPath repoPath)) ]
                   else [])
          else []).
Proof.
  intros H wb build run.
  rewrite (installDockerService_run c repoPath w H). fold wb. fold build. fold run.
  cbn [fst snd]. split; [reflexivity|].
  destruct (trace_single_tail c repoPath wb) as (T1 & T2 & T3).
  destruct (exitedZero build); [destruct (exitedZero run)|];
    rewrite ?T1, ?T2, ?T3; reflexivity.
Qed.

Lemma single_install_outcome_witness :
  let t := fun (_ : list action) (cmd : command) =>
             match cmd with DockerRun _ _ _ _ => Closed 125 | _ => Closed 0 end in
  let w := cloned t dockerfileTree in
  installable recruiterPath w = true /\
  fst (installDockerService recruiter recruiterPath w)
  = Throw ("Command failed: docker run -d --name foloup-container "
           ++ "--network weam_app-network -p 4000:4000 foloup-img").
Proof.
  intros t w.
  assert (H : installable recruiterPath w = true) by (vm_compute; reflexivity).
  split; [exact H|].
  rewrite (proj1 (single_install_outcome recruiter recruiterPath w H)).
  vm_compute. reflexivity.
Defined.

(** X12.  Nothing is rolled back when the build or the start of the container
    fails on an installable host: the repository's [.env] is left holding
    the merged text, root values included, and the scratch file is left in
    place. *)
Theorem single_install_failure_leaves_merged_env
    (c : config) (repoPath : string) (w : world) :
  let wb := beforeBuild c repoPath w in
  let build := tools w (trace wb) (buildCommand c repoPath) in
  let run := tools w (trace wb ++ [Ran (buildCommand c repoPath)]) (runContainer c) in
  let w' := snd (installDockerService c repoPath w) in
  installable repoPath w = true ->
  exitedZero build && exitedZero run = false ->
  (exists e, fst (installDockerService c repoPath w) = Throw e) /\
  files w' (localEnvPath repoPath) = Some (singleMergedText c repoPath w) /\
  files w' (tempEnvPath repoPath) = Some (singleMergedText c repoPath w).
Proof.
  intros wb build run w' H F. subst w'.
  destruct (installDockerService_head c repoPath w H) as (_ & Fl & Ft & _).
  rewrite (installDockerService_run c repoPath w H).
  fold wb. fold wb in Fl, Ft. fold build. fold run. cbn [fst snd].
  assert (K : forall cmd v, (forall v0, snd (sh cmd v0) = v0) ->
                            files (afterCommand cmd v) = files v).
  { intros cmd v S. unfold afterCommand. rewrite files_logged, S. reflexivity. }
  destruct (exitedZero build) eqn:Eb; [destruct (exitedZero run) eqn:Er|].
  - discriminate.
  - split; [apply settled_failed; exact Er|].
    rewrite !K by reflexivity. split; [exact Fl | exact Ft].
  - split; [apply settled_failed; exact Eb|].
    rewrite !K by reflexivity. split; [exact Fl | exact Ft].
Qed.

Lemma single_install_failure_leaves_merged_env_witness :
  let t := fun (_ : list action) (cmd : command) =>
             match cmd with DockerBuild _ _ => Closed 1 | _ => Closed 0 end in
  let w := cloned t dockerfileTree in
  let w' := snd (installDockerService recruiter recruiterPath w) in
  installable recruiterPath w = true /\
  fst (installDockerService recruiter recruiterPath w)
  = Throw "Command failed: docker build -t foloup-img /workspace/foloup" /\
  files w' (localEnvPath recruiterPath) = Some ("A=1" ++ NL ++ "B=2" ++ NL ++ "C=")%string /\
  files w' (tempEnvPath recruiterPath) = Some ("A=1" ++ NL ++ "B=2" ++ NL ++ "C=")%string.
Proof.
  intros t w w'.
  assert (H : installable recruiterPath w = true) by (vm_compute; reflexivity).
  destruct (single_install_failure_leaves_merged_env recruiter recruiterPath w H)
    as (_ & H1 & H2); [vm_compute; reflexivity|].
  split; [exact H|]. split; [vm_compute; reflexivity|].
  split; [etransitivity; [exact H1|] | etransitivity; [exact H2|]];
    vm_compute; reflexivity.
Defined.

End StepBehaviour.

(* ------------------------------------------------------------------------ *)
(** ** The paths an attempt names *)

Section NamedPaths.
Import JsString JsObject EnvMerge Path Shell Host Catalog SolutionInstall.
Import Spec Behaviour Samples.
Variable Q : action -> bool.






End NamedPaths.

Section WorkdirOnly.
Import JsString JsObject EnvMerge Path Shell Host Catalog SolutionInstall.
Import Spec Behaviour Samples.










(** X6.  [mergeEnvironmentFiles] touches its output path, its temporary file
    and nothing else, and it neither creates nor removes a directory.  When
    it throws, the output path holds what it held before; when it returns,
    the output path holds the text of the returned mapping and the
    temporary file is gone (a file that was at that path before is gone
    too). *)
Theorem merge_writes_output_only
    (rootPath localPath outputPath q : string) (w : world) :
  let run := mergeEnvironmentFiles rootPath localPath outputPath w in
  let w' := snd run in
  (q <> outputPath -> q <> (outputPath ++ ".temp")%string -> files w' q = files w q) /\
  isDirectory w' q = isDirectory w q /\
  (forall e, fst run = Throw e -> files w' outputPath = files w outputPath) /\
  (forall m, fst run = Ret m ->
             files w' outputPath = Some (envContent m) /\
             files w' (outputPath ++ ".temp")%string = None) /\
  trace w' = trace w ++ [Merged rootPath localPath outputPath] /\
  events w' = events w /\ ended w' = ended w.
Proof.
  intros run w'. subst w' run. rewrite mergeEnvironmentFiles_cases. cbv zeta.
  assert (N : outputPath <> (outputPath ++ ".temp")%string).
  { intros E. symmetry in E. exact (append_nonempty_neq _ _ _ E). }
  destruct (isDirectory w rootPath || isDirectory w localPath);
    [cbn [fst snd]; repeat split; discriminate|].
  destruct (negb (isDirectory w (outputPath ++ ".temp"))
            && (isFile w (outputPath ++ ".temp")
                || parentIsDirectory w (outputPath ++ ".temp"))) eqn:W; cbn [negb];
    [|cbn [fst snd]; repeat split; discriminate].
  apply andb_prop in W as [Dt _]. apply negb_true_iff in Dt.
  destruct (isDirectory w outputPath) eqn:Do; cbn [fst snd].
  - split; [|split; [|split; [|split; [discriminate | repeat split]]]].
    + intros _ N2. rewrite files_with_disk, write_other by exact N2. reflexivity.
    + unfold isDirectory in *. cbn [disk with_disk logged]. rewrite is_dir_write.
      destruct (String.eqb_spec q (outputPath ++ ".temp")) as [->|_];
        [symmetry; exact Dt | reflexivity].
    + intros _ _. rewrite files_with_disk, write_other by exact N. reflexivity.
  - split; [|split; [|split; [discriminate | split; [|repeat split]]]].
    + intros N1 N2. apply files_afterMerge_other; assumption.
    + rewrite isDirectory_afterMerge.
      destruct (String.eqb_spec q outputPath) as [->|_]; [symmetry; exact Do|].
      destruct (String.eqb_spec q (outputPath ++ ".temp")) as [->|_];
        [symmetry; exact Dt | reflexivity].
    + intros m [= <-]. split; [apply files_afterMerge_output|].
      unfold afterMerge. rewrite files_with_disk.
      rewrite write_other by (intros E; exact (N (eq_sym E))). apply remove_same.
Qed.

Lemma merge_writes_output_only_witness :
  let w := with_disk (Fs.write (disk (cloned allSucceed composedTree))
                               "/workspace/foloup/.env.temp.temp" "stale")
                     (cloned allSucceed composedTree) in
  let run := mergeEnvironmentFiles rootEnvPath (localEnvPath recruiterPath)
                                   (tempEnvPath recruiterPath) w in
  rootEnvPath <> tempEnvPath recruiterPath /\
  rootEnvPath <> (tempEnvPath recruiterPath ++ ".temp")%string /\
  files (snd run) rootEnvPath = Some ("A=1" ++ NL ++ "B=")%string /\
  files w (tempEnvPath recruiterPath ++ ".temp")%string = Some "stale" /\
  fst run = Ret [("A", "1"); ("B", "")] /\
  files (snd run) (tempEnvPath recruiterPath ++ ".temp")%string = None.
Proof.
  intros w run.
  assert (N1 : rootEnvPath <> tempEnvPath recruiterPath) by discriminate.
  assert (N2 : rootEnvPath <> (tempEnvPath recruiterPath ++ ".temp")%string)
    by discriminate.
  assert (R : fst run = Ret [("A", "1"); ("B", "")]) by (vm_compute; reflexivity).
  destruct (merge_writes_output_only rootEnvPath (localEnvPath recruiterPath)
              (tempEnvPath recruiterPath) rootEnvPath w) as (F & _ & _ & T & _).
  split; [exact N1|]. split; [exact N2|].
  split; [etransitivity; [exact (F N1 N2) | reflexivity]|].
  split; [reflexivity|]. split; [exact R|].
  exact (proj2 (T _ R)).
Defined.

End WorkdirOnly.

(* ------------------------------------------------------------------------ *)
(** ** Which attempts complete *)

Section Completion.
Import JsString JsObject EnvMerge Path Shell Host Catalog SolutionInstall.
Import Spec Behaviour Samples.

Lemma try_catch_ret_inv {A} (m : M A) (h : string -> M A) (w w' : world) (a : A) :
  (forall e w1, fst (h e w1) <> Ret a) ->
  try_catch m h w = (Ret a, w') -> m w = (Ret a, w').
Proof.
  intros H. unfold try_catch. destruct (m w) as [[x|e] w1]; [trivial|].
  intros E. exfalso. apply (H e w1). rewrite E. reflexivity.
Qed.

(** X15.  [installWithProgress] returns only for a key of the catalog, only after
    [git clone] ended with code 0, and then reports that entry's port.  For
    every other solution type (absent, unknown, or a name inherited from
    [Object.prototype]) it throws. *)
Theorem only_catalog_entries_complete
    (solutionType : option string) (w w' : world) (i : installed) :
  installWithProgress solutionType w = (Ret i, w') ->
  exists key c,
    solutionType = Some key /\
    own key SOLUTION_CONFIGS = Some c /\
    i = {| success := true; installedPort := port c; installedType := key |} /\
    tools w (trace w ++ [Ran (RmRf (workdir c))])
          (GitClone (interp (branchName c)) (interp (repoUrl c)) (workdir c))
    = Closed 0.
Proof.
  intros H. unfold installWithProgress in H.
  apply try_catch_ret_inv in H; [|intros e w1; discriminate].
  destruct solutionType as [key|]; [|discriminate].
  unfold truthy in H. destruct (String.eqb key ""); [discriminate|].
  cbn [negb interp] in H. unfold lookup in H.
  destruct (own key SOLUTION_CONFIGS) as [c|] eqn:O.
  - exists key, c. split; [reflexivity|]. split; [exact O|].
    fold (workdir c) in H.
    apply bind_ret_inv in H. destruct H as (a1 & w1 & E1 & H).
    apply runCommand_ret_inv in E1 as [-> _].
    apply bind_ret_inv in H. destruct H as (a2 & w2 & E2 & H).
    apply runCommand_ret_inv in E2 as [-> S2].
    apply bind_ret_inv in H. destruct H as (a3 & w3 & E3 & H).
    apply bind_ret_inv in H. destruct H as (a4 & w4 & E4 & H).
    inversion H; subst. split; [reflexivity|].
    rewrite sh_clone_fst in S2. exact S2.
  - destruct (inherited key); [|discriminate].
    exfalso.
    apply bind_ret_inv in H. destruct H as (a1 & w1 & E1 & H).
    apply bind_ret_inv in H. destruct H as (a2 & w2 & E2 & H).
    apply bind_ret_inv in H. destruct H as (a3 & w3 & E3 & H).
    apply bind_ret_inv in H. destruct H as (a4 & w4 & E4 & H).
    discriminate.
Qed.

Lemma only_catalog_entries_complete_witness :
  let w := host allSucceed composedTree in
  let w' := snd (installWithProgress (Some "ai-recruiter") w) in
  let i := {| success := true; installedPort := Some "4000";
              installedType := "ai-recruiter" |} in
  installWithProgress (Some "ai-recruiter") w = (Ret i, w') /\
  exists key c, Some "ai-recruiter" = Some key /\ own key SOLUTION_CONFIGS = Some c.
Proof.
  intros w w' i.
  assert (R : installWithProgress (Some "ai-recruiter") w = (Ret i, w')).
  { unfold w'. destruct (installWithProgress (Some "ai-recruiter") w) as [o w1] eqn:E.
    assert (O : o = Ret i)
      by (change o with (fst (o, w1)); rewrite <- E; vm_compute; reflexivity).
    rewrite O. reflexivity. }
  split; [exact R|].
  destruct (only_catalog_entries_complete _ _ _ _ R) as (key & c & K & O & _).
  exists key, c. split; assumption.
Defined.

End Completion.


(* ------------------------------------------------------------------------ *)
(** ** Answers of the health check *)

Section HealthAnswers.
Import JsString JsObject EnvMerge Path Shell Host Catalog SolutionInstall.
Import ProgressController Spec Behaviour Samples.

Lemma findLine_sound (solutionType line : string) (lines : list string) :
  findLine solutionType lines = Some (Some line) ->
  In line lines /\ upWithName solutionType line = true.
Proof.
  induction lines as [|l lines IH]; simpl; [discriminate|].
  destruct (matches solutionType l) as [[|]|] eqn:M; [| |discriminate].
  - intros [= <-]. split; [now left|].
    unfold matches in M. unfold upWithName.
    destruct (nameAndStatus l) as [name [st|]].
    + destruct (includes solutionType name || includes "foloup" name
                || includes "ai-doc" name || includes "landing-page" name);
        [|discriminate].
      injection M as M'. cbn [andb]. exact M'.
    + destruct (includes solutionType name || includes "foloup" name
                || includes "ai-doc" name || includes "landing-page" name);
        discriminate.
  - intros H. destruct (IH H) as [I U]. split; [now right | exact U].
Qed.

(** X16.  A [running] answer is never made up: the solution type was given, no
    installing process was listed, the container listing succeeded, and the
    container reported is a line of that listing whose status word contains
    [Up] and whose name contains the queried type or one of the three fixed
    substrings. *)
Theorem running_answer_is_sound
    (query : option string) (psOut : string) (dockerPs : option string)
    (detail : string) :
  checkInstallationHealth query psOut dockerPs = Some (Json "running" detail) ->
  exists solutionType stdout,
    query = Some solutionType /\ solutionType <> "" /\
    trim psOut = "" /\ dockerPs = Some stdout /\
    In detail (containerLines stdout) /\ upWithName solutionType detail = true.
Proof.
  unfold checkInstallationHealth. rewrite requested_orElse.
  destruct (String.eqb_spec (requested query) "") as [|NE]; [discriminate|].
  destruct (String.eqb_spec (trim psOut) "") as [PS|]; cbn [negb]; [|discriminate].
  destruct dockerPs as [stdout|]; [|discriminate].
  destruct (findLine (requested query) (containerLines stdout)) as [[line|]|] eqn:F;
    [|discriminate|discriminate].
  intros [= <-]. destruct (findLine_sound _ _ _ F) as [I U].
  destruct query as [s|]; [|contradiction NE; reflexivity].
  exists s, stdout. repeat split; assumption.
Qed.

Lemma running_answer_is_sound_witness :
  let stdout := ("weam-node Exited" ++ NL ++ "foloup-container Up 5 minutes")%string in
  checkInstallationHealth (Some "ai-recruiter") "" (Some stdout)
  = Some (Json "running" "foloup-container Up 5 minutes") /\
  upWithName "ai-recruiter" "foloup-container Up 5 minutes" = true.
Proof.
  intros stdout.
  assert (H : checkInstallationHealth (Some "ai-recruiter") "" (Some stdout)
              = Some (Json "running" "foloup-container Up 5 minutes"))
    by (vm_compute; reflexivity).
  split; [exact H|].
  destruct (running_answer_is_sound _ _ _ _ H) as (s & out & Q & _ & _ & _ & _ & U).
  inversion Q; subst. exact U.
Defined.

Lemma findLine_none (solutionType : string) (lines : list string) :
  Forall wellFormed lines ->
  forallb (fun line => negb (upWithName solutionType line)) lines = true ->
  findLine solutionType lines = Some None.
Proof.
  induction 1 as [|l lines W _ IH]; simpl; [reflexivity|].
  rewrite (matches_wellFormed _ _ W).
  destruct (upWithName solutionType l); simpl; [discriminate | exact IH].
Qed.

(** X17.  With a solution type, no installing process and a listing whose lines
    all have a name and a status, the answer is [not_running] when no line
    counts: a container that is listed but not [Up], or whose name matches
    neither the query nor an alias, is not reported. *)
Theorem not_running_when_no_line_counts (solutionType psOut stdout : string) :
  solutionType <> "" ->
  trim psOut = "" ->
  Forall wellFormed (containerLines stdout) ->
  forallb (fun line => negb (upWithName solutionType line)) (containerLines stdout) = true ->
  checkInstallationHealth (Some solutionType) psOut (Some stdout)
  = Some (Json "not_running" "Container not found or not running").
Proof.
  intros NE PS W N. unfold checkInstallationHealth, orElse.
  apply String.eqb_neq in NE. rewrite NE, NE, PS. cbn [String.eqb negb].
  rewrite (findLine_none _ _ W N). reflexivity.
Qed.

Lemma not_running_when_no_line_counts_witness :
  let stdout := ("seo-content-gen-container Exited (1) 2 hours ago" ++ NL
                 ++ "weam-node Up 3 days")%string in
  "seo-content-gen" <> "" /\
  trim "" = "" /\
  Forall wellFormed (containerLines stdout) /\
  forallb (fun line => negb (upWithName "seo-content-gen" line)) (containerLines stdout)
  = true /\
  checkInstallationHealth (Some "seo-content-gen") "" (Some stdout)
  = Some (Json "not_running" "Container not found or not running").
Proof.
  intros stdout.
  assert (W : Forall wellFormed (containerLines stdout)).
  { assert (L : containerLines stdout
                = ["seo-content-gen-container Exited (1) 2 hours ago";
                   "weam-node Up 3 days"]) by (vm_compute; reflexivity).
    rewrite L.
    constructor; [intros H; vm_compute in H; discriminate|].
    constructor; [intros H; vm_compute in H; discriminate|].
    constructor. }
  assert (N : forallb (fun line => negb (upWithName "seo-content-gen" line))
                      (containerLines stdout) = true) by (vm_compute; reflexivity).
  split; [discriminate|]. split; [reflexivity|]. split; [exact W|]. split; [exact N|].
  apply not_running_when_no_line_counts; [discriminate | reflexivity | exact W | exact N].
Defined.

End HealthAnswers.

(* ------------------------------------------------------------------------ *)
(** ** More on the parser *)

Section ParserBehaviour.
Import JsString JsObject EnvMerge EnvShape Spec.

(** X3.  Line endings do not matter: the text with a carriage return in front of
    every line feed parses to the same mapping. *)
Theorem parse_ignores_carriage_returns (content : string) :
  parseEnvText (toCRLF content) = parseEnvText content.
Proof.
  unfold parseEnvText, keptLines, splitLines.
  rewrite split_toCRLF, chop_withCR, map_trim_chop. reflexivity.
Qed.

(** X1.  Every mapping the merger handles is clean: no key occurs twice; keys are
    trimmed, contain neither [=] nor a line feed, do not start with [#] and
    are not names inherited from [Object.prototype]; values are trimmed and
    contain no line feed.  This holds for the parse of any text and for the
    merge of two parsed files. *)
Theorem env_mappings_are_clean (content : string) (rootText localText : option string) :
  clean (parseEnvText content) /\
  clean (mergeVars (parsedFile rootText) (parsedFile localText)).
Proof.
  split; [apply parse_clean|].
  apply mergeVars_clean; apply parsedFile_clean.
Qed.

(** X2.  Whether a key is in the parsed mapping: exactly when some kept line has
    that key and the key is not a name inherited from [Object.prototype]. *)
Theorem parsed_key_presence (content k : string) :
  hasOwn k (parseEnvText content)
  = negb (inherited k) && existsb (String.eqb k) (map fst (entries content)).
Proof.
  unfold hasOwn. destruct (inherited k) eqn:I.
  - rewrite (parse_keys_not_inherited _ _ I). reflexivity.
  - rewrite (parse_first_non_empty _ _ I). cbn [negb andb].
    destruct (existsb (String.eqb k) (map fst (entries content))) eqn:E.
    + apply existsb_exists in E as (x & Hx & Ex). apply String.eqb_eq in Ex. subst x.
      destruct (firstNonEmpty k (entries content)) eqn:F; [reflexivity|].
      exfalso. exact (firstNonEmpty_present _ _ Hx F).
    + rewrite firstNonEmpty_absent; [reflexivity|].
      intros Hx. assert (T : existsb (String.eqb k) (map fst (entries content)) = true).
      { apply existsb_exists. exists k. split; [exact Hx | apply String.eqb_refl]. }
      congruence.
Qed.

(** X5.  Whenever [mergeEnvironmentFiles] returns, the file it wrote parses
    back to the mapping it returned: [parseEnvFile] of the output path
    returns, and for every key it gives the returned value, and no other
    key. *)
Theorem written_file_parses_back
    (rootPath localPath outputPath k : string) (w : Host.world) (m : obj) :
  let run := SolutionInstall.mergeEnvironmentFiles rootPath localPath outputPath w in
  let w' := snd run in
  fst run = Host.Ret m ->
  m = mergeVars (parsedFile (Host.files w rootPath))
                (parsedFile (Host.files w localPath)) /\
  SolutionInstall.parseEnvFile outputPath w'
  = (Host.Ret (parsedFile (Host.files w' outputPath)), w') /\
  get k (parsedFile (Host.files w' outputPath)) = get k m.
Proof.
  intros run w' R. subst w'.
  destruct run as [o w1] eqn:E. cbn [fst snd] in *. subst o.
  apply mergeEnvironmentFiles_ret_inv in E as (_ & -> & ->).
  pose proof (files_afterMerge_output rootPath localPath outputPath w) as O.
  split; [reflexivity|]. split.
  - apply parseEnvFile_run. apply (files_isDirectory _ _ _ O).
  - rewrite O. cbn [parsedFile]. apply parse_envContent_get.
    apply mergeVars_clean; apply parsedFile_clean.
Qed.

Lemma written_file_parses_back_witness :
  let w := Samples.cloned Samples.allSucceed Samples.composedTree in
  let run := SolutionInstall.mergeEnvironmentFiles
               SolutionInstall.rootEnvPath
               (SolutionInstall.localEnvPath Samples.recruiterPath)
               (SolutionInstall.tempEnvPath Samples.recruiterPath) w in
  fst run = Host.Ret [("A", "1"); ("B", "")] /\
  get "A" (parsedFile (Host.files (snd run)
                         (SolutionInstall.tempEnvPath Samples.recruiterPath)))
  = Some "1".
Proof.
  intros w run.
  assert (R : fst run = Host.Ret [("A", "1"); ("B", "")]) by (vm_compute; reflexivity).
  split; [exact R|].
  destruct (written_file_parses_back _ _ _ "A" w _ R) as (_ & _ & G).
  etransitivity; [exact G | reflexivity].
Defined.

(** X4.  Merging is stable: merging the root mapping once more into the merged
    mapping gives, for every key, the value the first merge gave. *)
Theorem merging_again_changes_nothing (rootText localText : option string) (k : string) :
  let root := parsedFile rootText in
  let merged := mergeVars root (parsedFile localText) in
  get k (mergeVars root merged) = get k merged.
Proof.
  intros root merged.
  assert (CR : clean root) by apply parsedFile_clean.
  assert (CL : clean (parsedFile localText)) by apply parsedFile_clean.
  assert (CM : clean merged) by (apply mergeVars_clean; assumption).
  rewrite get_mergeVars.
  destruct (get k merged) as [mv|] eqn:GM.
  - f_equal. unfold mergedValue. rewrite GM.
    destruct (clean_get _ _ _ CM GM) as [_ [Tm _]].
    rewrite (nonBlank_trimmed mv Tm).
    destruct (String.eqb_spec mv "") as [->|NE]; cbn [negb]; [|reflexivity].
    unfold merged in GM. rewrite get_mergeVars in GM.
    destruct (get k root) as [r|] eqn:GR; [|reflexivity].
    destruct (clean_get _ _ _ CR GR) as [_ [Tr _]].
    rewrite (nonBlank_trimmed r Tr).
    destruct (String.eqb_spec r "") as [->|NR]; cbn [negb]; [reflexivity|].
    exfalso.
    destruct (get k (parsedFile localText)) as [l|] eqn:GL.
    + injection GM as GM. unfold mergedValue in GM. rewrite GL, GR in GM.
      destruct (clean_get _ _ _ CL GL) as [_ [Tl _]].
      rewrite (nonBlank_trimmed l Tl), (nonBlank_trimmed r Tr) in GM.
      apply String.eqb_neq in NR. rewrite NR in GM. cbn [negb text] in GM.
      destruct (String.eqb_spec l ""); cbn [negb] in GM; subst.
      * apply String.eqb_neq in NR. congruence.
      * congruence.
    + congruence.
  - unfold merged in GM. rewrite get_mergeVars in GM.
    destruct (get k (parsedFile localText)); [discriminate | exact GM].
Qed.

End ParserBehaviour.
